(** * Oliver uploader: the persisted work queue, the result ledger and the
      browser-driven search protocol of the upload script (the variant that
      keeps a queue file).

    Strings are sequences of code units below 256 ([String.string]); the
    files of the tool are kept as their text, exactly as [readFileSync] and
    [writeFileSync] see them.  Console output is left out throughout. *)

From Stdlib Require Import String Ascii List Bool Arith NArith Lia Permutation.
From Equations Require Import Equations.
Import ListNotations.
Open Scope string_scope.

(** ** JavaScript string primitives used by the source *)

Module Js.

Definition LF : ascii := ascii_of_nat 10.
Definition CR : ascii := ascii_of_nat 13.

(** White space as [String.prototype.trim] removes it (TAB, LF, VT, FF,
    CR, SPACE, NBSP). *)
Definition isWhiteSpace (c : ascii) : bool :=
  let n := nat_of_ascii c in
  ((9 <=? n)%nat && (n <=? 13)%nat) || (n =? 32)%nat || (n =? 160)%nat.

Definition isEmpty (s : string) : bool :=
  match s with EmptyString => true | String _ _ => false end.

Fixpoint trimStart (s : string) : string :=
  match s with
  | EmptyString => EmptyString
  | String c s' => if isWhiteSpace c then trimStart s' else s
  end.

Fixpoint trimEnd (s : string) : string :=
  match s with
  | EmptyString => EmptyString
  | String c s' =>
      let t := trimEnd s' in
      if isWhiteSpace c && isEmpty t then EmptyString else String c t
  end.

Definition trim (s : string) : string := trimEnd (trimStart s).

Definition startsWith (s p : string) : bool := String.prefix p s.

(** [s.includes(sub)] *)
Fixpoint includes (s sub : string) : bool :=
  String.prefix sub s ||
  match s with
  | EmptyString => false
  | String _ s' => includes s' sub
  end.

(** [s.toLowerCase()] on code units below 256: A-Z and the accented
    capitals of Latin-1 (all of 192..222 but the multiplication sign). *)
Definition lowerChar (c : ascii) : ascii :=
  let n := nat_of_ascii c in
  if ((65 <=? n)%nat && (n <=? 90)%nat) ||
     ((192 <=? n)%nat && (n <=? 222)%nat && negb (n =? 215)%nat)
  then ascii_of_nat (n + 32) else c.

Fixpoint toLowerCase (s : string) : string :=
  match s with
  | EmptyString => EmptyString
  | String c s' => String (lowerChar c) (toLowerCase s')
  end.

(** [s.split(/\r?\n/)]: the text is cut at every line feed, and a carriage
    return right before the line feed belongs to the separator.  [push c l]
    puts [c] in front of the first piece of [l]. *)
Definition push (c : ascii) (l : list string) : list string :=
  match l with
  | p :: ps => String c p :: ps
  | [] => [String c EmptyString]
  end.

Fixpoint splitLines (s : string) : list string :=
  match s with
  | EmptyString => [EmptyString]
  | String c s' =>
      if Ascii.eqb c LF then EmptyString :: splitLines s'
      else
        match s' with
        | String d s'' =>
            if Ascii.eqb c CR && Ascii.eqb d LF
            then EmptyString :: splitLines s''
            else push c (splitLines s')
        | EmptyString => push c (splitLines s')
        end
  end.

(** [lines.join("\n")] *)
Fixpoint join (lines : list string) : string :=
  match lines with
  | [] => EmptyString
  | [l] => l
  | l :: ls => l ++ String LF (join ls)
  end.

End Js.

Definition nl : string := String Js.LF EmptyString.

(** ** The durable files *)

Inductive File : Type :=
| QUEUE_FILE | ADDED_FILE | ALREADY_EXISTS_FILE | NOT_FOUND_FILE | ERRORS_FILE.

Definition File_eqb (f g : File) : bool :=
  match f, g with
  | QUEUE_FILE, QUEUE_FILE | ADDED_FILE, ADDED_FILE
  | ALREADY_EXISTS_FILE, ALREADY_EXISTS_FILE
  | NOT_FOUND_FILE, NOT_FOUND_FILE | ERRORS_FILE, ERRORS_FILE => true
  | _, _ => false
  end.

(** The directory of the tool: the text of every file that exists, and the
    journal of the [writeFileSync] calls made so far, oldest first.  Every
    entry of the journal is one durable write. *)
Record Disk : Type := mkDisk {
  content : File -> option string;
  journal : list (File * string)
}.

Definition existsSync (f : File) (d : Disk) : bool :=
  match content d f with Some _ => true | None => false end.

Definition readFileSync (f : File) (d : Disk) : string :=
  match content d f with Some text => text | None => EmptyString end.

Definition writeFileSync (f : File) (text : string) (d : Disk) : Disk :=
  {| content := fun g => if File_eqb g f then Some text else content d g;
     journal := (journal d ++ [(f, text)])%list |}.

(** The filter of [readLines]: [line.length > 0 && !line.startsWith("#")]. *)
Definition keepLine (line : string) : bool :=
  (0 <? String.length line)%nat && negb (Js.startsWith line "#").

Definition parseLines (text : string) : list string :=
  filter keepLine (map Js.trim (Js.splitLines text)).

Definition readLines (f : File) (d : Disk) : list string :=
  if negb (existsSync f d) then []
  else parseLines (readFileSync f d).

Definition writeLines (f : File) (lines : list string) (d : Disk) : Disk :=
  writeFileSync f (Js.join lines ++ nl) d.

(** A JavaScript value used as a condition: [null] and the empty string
    are falsy. *)
Definition truthy (m : option string) : bool :=
  match m with
  | Some s => negb (Js.isEmpty s)
  | None => false
  end.

Definition appendLine (f : File) (line : string) (errorMessage : option string)
    (d : Disk) : Disk :=
  let content :=
    match errorMessage with
    | Some msg => if Js.isEmpty msg then line else line ++ " # " ++ msg
    | None => line
    end in
  let existing := if existsSync f d then readFileSync f d else EmptyString in
  writeFileSync f (existing ++ content ++ nl) d.

Definition removeFirstLineFromQueue (d : Disk) : Disk :=
  let queue := readLines QUEUE_FILE d in
  if (0 <? List.length queue)%nat
  then writeLines QUEUE_FILE (tl queue) d
  else d.

(** [new Set([...])] of strings, of which the source only uses [has]. *)
Definition Set_has (s : list string) (x : string) : bool :=
  existsb (String.eqb x) s.

Definition getProcessedIsbns (d : Disk) : list string :=
  let added := readLines ADDED_FILE d in
  let alreadyExists := readLines ALREADY_EXISTS_FILE d in
  let notFound := readLines NOT_FOUND_FILE d in
  (added ++ alreadyExists ++ notFound)%list.

(** [array.includes(x)] *)
Definition Array_includes (a : list string) (x : string) : bool :=
  existsb (String.eqb x) a.

Definition initializeQueue (inputIsbns : list string) (d : Disk)
  : list string * Disk :=
  let processedIsbns := getProcessedIsbns d in
  let existingQueue := readLines QUEUE_FILE d in
  let cleanedQueue :=
    filter (fun isbn => negb (Set_has processedIsbns isbn)) existingQueue in
  if (0 <? List.length cleanedQueue)%nat then
    let newIsbns :=
      filter (fun isbn => negb (Set_has processedIsbns isbn)
                          && negb (Array_includes cleanedQueue isbn))
             inputIsbns in
    if (0 <? List.length newIsbns)%nat then
      let updatedQueue := (cleanedQueue ++ newIsbns)%list in
      (updatedQueue, writeLines QUEUE_FILE updatedQueue d)
    else
      if negb (List.length cleanedQueue =? List.length existingQueue)%nat
      then (cleanedQueue, writeLines QUEUE_FILE cleanedQueue d)
      else (cleanedQueue, d)
  else
    let newIsbns :=
      filter (fun isbn => negb (Set_has processedIsbns isbn)) inputIsbns in
    if (0 <? List.length newIsbns)%nat
    then (newIsbns, writeLines QUEUE_FILE newIsbns d)
    else ([], d).

Inductive Status : Type := ADDED | ALREADY_EXISTS | NOT_FOUND | ERROR | UNKNOWN.

(** [errorMessage || "Unknown error"] *)
Definition orUnknownError (errorMessage : option string) : option string :=
  if truthy errorMessage then errorMessage else Some "Unknown error".

Definition recordResult (isbn : string) (status : Status)
    (errorMessage : option string) (d : Disk) : Disk :=
  let d1 :=
    match status with
    | ADDED => appendLine ADDED_FILE isbn None d
    | ALREADY_EXISTS => appendLine ALREADY_EXISTS_FILE isbn None d
    | NOT_FOUND => appendLine NOT_FOUND_FILE isbn None d
    | ERROR | UNKNOWN =>
        appendLine ERRORS_FILE isbn (orUnknownError errorMessage) d
    end in
  removeFirstLineFromQueue d1.

Definition emptyDisk : Disk := {| content := fun _ => None; journal := [] |}.

(** *** Well-formed lines and files *)

Fixpoint hasLF (s : string) : bool :=
  match s with
  | EmptyString => false
  | String c s' => Ascii.eqb c Js.LF || hasLF s'
  end.

Fixpoint lastChar (s : string) : option ascii :=
  match s with
  | EmptyString => None
  | String c s' =>
      match s' with
      | EmptyString => Some c
      | String _ _ => lastChar s'
      end
  end.

(** A text that is empty or ends with a line feed: what every write of the
    tool leaves in a file. *)
Definition terminated (text : string) : bool :=
  match lastChar text with
  | None => true
  | Some c => Ascii.eqb c Js.LF
  end.

Definition endsWithCR (s : string) : bool :=
  match lastChar s with
  | None => false
  | Some c => Ascii.eqb c Js.CR
  end.

(** An identifier that survives a round trip through a file: it is its own
    [trim], is kept by the filter of [readLines], and has no line feed. *)
Definition cleanLine (l : string) : bool :=
  String.eqb (Js.trim l) l && keepLine l && negb (hasLF l).

(** *** Reading the ledger back *)

(** The ledger file that [recordResult] writes for a status. *)
Definition ledgerFile (status : Status) : File :=
  match status with
  | ADDED => ADDED_FILE
  | ALREADY_EXISTS => ALREADY_EXISTS_FILE
  | NOT_FOUND => NOT_FOUND_FILE
  | ERROR | UNKNOWN => ERRORS_FILE
  end.

(** The record that [appendLine] puts after the old text of the file, and
    the message [recordResult] passes for a status. *)
Definition appended (line : string) (errorMessage : option string) : string :=
  match errorMessage with
  | Some msg => if Js.isEmpty msg then line else line ++ " # " ++ msg
  | None => line
  end.

Definition ledgerMessage (status : Status) (errorMessage : option string)
  : option string :=
  match status with
  | ERROR | UNKNOWN => orUnknownError errorMessage
  | _ => None
  end.

(** The lines of the errors file as the report of [runOliverAutomation]
    reads them: [split(/\r?\n/).filter((l) => l.trim())]. *)
Definition nonBlank (l : string) : bool := negb (Js.isEmpty (Js.trim l)).

Definition errorLines (d : Disk) : list string :=
  if existsSync ERRORS_FILE d
  then filter nonBlank (Js.splitLines (readFileSync ERRORS_FILE d))
  else [].

(** [isbn] has an entry in the ledger of [status]: a line of its own in the
    three plain ledgers, a line [isbn # message] in the errors file. *)
Definition recorded (status : Status) (isbn : string) (d : Disk) : bool :=
  match status with
  | ERROR | UNKNOWN =>
      existsb (fun l => Js.startsWith l (isbn ++ " # ")) (errorLines d)
  | _ => Array_includes (readLines (ledgerFile status) d) isbn
  end.

Definition queued (isbn : string) (d : Disk) : bool :=
  Array_includes (readLines QUEUE_FILE d) isbn.

(** The writes made between two states of the disk, and the disk a crash
    leaves behind when only the first [k] of a sequence of writes reached
    it. *)
Definition newWrites (before after : Disk) : list (File * string) :=
  skipn (List.length (journal before)) (journal after).

Definition replay (d : Disk) (writes : list (File * string)) : Disk :=
  fold_left (fun acc w => writeFileSync (fst w) (snd w) acc) writes d.

Definition crashAfter (k : nat) (d : Disk) (writes : list (File * string)) : Disk :=
  replay d (firstn k writes).

(** ** The browser

    Playwright is an external collaborator.  A browser is any implementation
    of the calls below over some state [W] of its own (the remote site, the
    open pages, the session); a call answers or throws.  Launching Chromium
    and creating the context, with the saved session when there is one, are
    part of the initial [W] and of the first [newPage] of a run. *)

Inductive result (A : Type) : Type :=
| Ok (a : A)
| Throw (message : string).
Arguments Ok {A} a.
Arguments Throw {A} message.

Definition Page : Type := nat.
Definition ElementHandle : Type := nat.

Inductive Locator : Type :=
| locator (p : Page) (selector : string)
| first (l : Locator)
| nth (l : Locator) (i : nat).

(** The waits of a page.  [waitForFunction] is only used with the test
    "the status message is there and no longer says Search, please wait". *)
Inductive Wait : Type :=
| waitForSelector (selector : string) (timeout : N)
| waitForTimeout (ms : N)
| waitForLoadState (state : string) (timeout : N)
| waitForFunction (timeout : N).

(** The calls that act on the remote site or on the browser. *)
Inductive Action : Type :=
| goto (p : Page) (url : string)
| reload (p : Page)
| click (p : Page) (selector : string)
| fill (p : Page) (selector : string) (value : option string)
| press (p : Page) (key : string)
| locatorClick (l : Locator) (timeout : option N)
| elementClick (e : ElementHandle)
| storageState
| browserClose.

Record Browser (W : Type) : Type := {
  perform : Action -> W -> result unit * W;
  wait : Page -> Wait -> W -> result unit * W;
  url : Page -> W -> string;
  isClosed : Page -> W -> bool;
  isVisible : Page -> string -> W -> result bool * W;
  locatorIsVisible : Locator -> W -> result bool * W;
  locatorCount : Locator -> W -> result nat * W;
  querySelector : Page -> string -> W -> result (option ElementHandle) * W;
  innerText : ElementHandle -> W -> result string * W;
  isDisabled : ElementHandle -> W -> result bool * W;
  newPage : W -> result Page * W;
  popupPage : W -> option Page * W
}.
Arguments perform {W}.
Arguments wait {W}.
Arguments url {W}.
Arguments isClosed {W}.
Arguments isVisible {W}.
Arguments locatorIsVisible {W}.
Arguments locatorCount {W}.
Arguments querySelector {W}.
Arguments innerText {W}.
Arguments isDisabled {W}.
Arguments newPage {W}.
Arguments popupPage {W}.

(** [process.env] *)
Record Env : Type := {
  OLIVER_USERNAME : option string;
  OLIVER_PASSWORD : option string
}.

Definition BASE_URL : string := "https://oneschoolglobal.softlinkhosting.com.au".
Definition SMART_CATALOG_URL : string :=
  BASE_URL ++ "/oliver/cataloguing/smartCataloguing.do".
Definition PERMISSION_DENIED_SELECTOR : string :=
  "div.permissionDenied\?resource\=%2Fcataloguing%2FsmartCataloguing".
Definition LOGIN_LINK_SELECTOR : string := "a.login.topLink[href='login']".
Definition SUBMIT_SELECTOR : string :=
  "#dialogContent button[type=" ++ String (ascii_of_nat 34) "submit"
  ++ String (ascii_of_nat 34) "]".
Definition HOME_URL : string := BASE_URL ++ "/oliver/home/browse/list".
Definition WELCOME_URL : string := BASE_URL ++ "/oliver/welcome.do".

(** The addresses that the script passes to [gotoAndWait]: the home page,
    the welcome page and the search page.  [href] is the text of the address
    and [pathname] is [new URL(url).pathname] for it. *)
Inductive Address : Type := home | welcome | smartCatalog.

Definition href (a : Address) : string :=
  match a with
  | home => HOME_URL
  | welcome => WELCOME_URL
  | smartCatalog => SMART_CATALOG_URL
  end.

Definition pathname (a : Address) : string :=
  match a with
  | home => "/oliver/home/browse/list"
  | welcome => "/oliver/welcome.do"
  | smartCatalog => "/oliver/cataloguing/smartCataloguing.do"
  end.

(** The module-level variables of the script, the disk, the browser, and
    the list of the acting calls made so far, oldest first.  [browser] and
    [context] are initialised, and [page] is set, before any of the functions
    below is called: [runOliverAutomation] opens the first page itself. *)
Record State (W : Type) : Type := mkState {
  page : Page;
  pagesWithHandlers : list Page;
  disk : Disk;
  world : W;
  calls : list Action
}.
Arguments mkState {W}.
Arguments page {W}.
Arguments pagesWithHandlers {W}.
Arguments disk {W}.
Arguments world {W}.
Arguments calls {W}.

(** What [processISBN] returns. *)
Record Result : Type := mkResult {
  isbn_of : string;
  status_of : Status;
  error_of : option string
}.

(** How a run of the script ends: [process.exit(code)], a plain return of
    [runOliverAutomation] (the exit code stays zero), an error that nothing
    catches, or a queue loop cut short by the model. *)
Inductive Termination : Type :=
| Exit (code : nat)
| Returned
| Unhandled (message : string)
| OutOfFuel.

(** The state after the file operation [f]. *)
Definition withDisk {W} (f : Disk -> Disk) (st : State W) : State W :=
  mkState (page st) (pagesWithHandlers st) (f (disk st)) (world st) (calls st).

Section Automation.

Context {W : Type} (B : Browser W) (env : Env).

(** Asynchronous code: a state transformer that answers or throws. *)
Definition M (A : Type) : Type := State W -> result A * State W.

Definition ret {A} (a : A) : M A := fun st => (Ok a, st).

Definition throw {A} (message : string) : M A := fun st => (Throw message, st).

Definition bind {A C} (m : M A) (k : A -> M C) : M C :=
  fun st =>
    match m st with
    | (Ok a, st') => k a st'
    | (Throw message, st') => (Throw message, st')
    end.

(** [try { m } catch (error) { handler }] *)
Definition try_catch {A} (m : M A) (handler : string -> M A) : M A :=
  fun st =>
    match m st with
    | (Ok a, st') => (Ok a, st')
    | (Throw message, st') => handler message st'
    end.

(** [m.catch(() => a)] *)
Definition orElse {A} (m : M A) (a : A) : M A := try_catch m (fun _ => ret a).

Notation "x <- m ;; k" := (bind m (fun x => k))
  (at level 61, m at next level, right associativity).
Notation "m ;; k" := (bind m (fun _ => k))
  (at level 61, right associativity).

(** An acting call is performed by the browser and entered in [calls]; a
    question only reaches the browser. *)
Definition act (a : Action) : M unit :=
  fun st =>
    let (r, w) := perform B a (world st) in
    (r, mkState (page st) (pagesWithHandlers st) (disk st) w (calls st ++ [a])).

Definition ask {A} (q : W -> result A * W) : M A :=
  fun st =>
    let (r, w) := q (world st) in
    (r, mkState (page st) (pagesWithHandlers st) (disk st) w (calls st)).

Definition getPage : M Page := fun st => (Ok (page st), st).

Definition setPage (p : Page) : M unit :=
  fun st => (Ok tt, mkState p (pagesWithHandlers st) (disk st) (world st) (calls st)).

Definition pageUrl : M string :=
  fun st => (Ok (url B (page st) (world st)), st).

(** Calls on [page], the page that is current when the call is made. *)
Definition onPage (a : Page -> Action) : M unit :=
  p <- getPage ;; act (a p).

Definition waitFor (w : Wait) : M unit :=
  p <- getPage ;; ask (wait B p w).

Definition pause (ms : N) : M unit := waitFor (waitForTimeout ms).

Definition visible (selector : string) : M bool :=
  p <- getPage ;; ask (isVisible B p selector).

Definition query (selector : string) : M (option ElementHandle) :=
  p <- getPage ;; ask (querySelector B p selector).

(** [await page.waitForSelector(...)] inside a [try] whose [catch] takes the
    other branch: [true] when the element came. *)
Definition appears (selector : string) (timeout : N) : M bool :=
  orElse (waitFor (waitForSelector selector timeout) ;; ret true) false.

Definition onDisk (f : Disk -> Disk) : M unit :=
  fun st => (Ok tt, withDisk f st).

Definition registerPageEventHandlers (targetPage : Page) : M unit :=
  fun st =>
    if existsb (Nat.eqb targetPage) (pagesWithHandlers st) then (Ok tt, st)
    else (Ok tt, mkState (page st) (targetPage :: pagesWithHandlers st)
                         (disk st) (world st) (calls st)).

(** [gotoAndWait(url)] with the default options, for the addresses that
    the script passes; [interrupted] says that the [catch] block returned. *)
Definition gotoAndWait (address : Address) : M unit :=
  let url := href address in
  let targetPath := pathname address in
  interrupted <-
    try_catch (onPage (fun p => goto p url) ;; ret false)
      (fun message =>
         if Js.includes message "ERR_ABORTED" then
           currentUrl <- pageUrl ;;
           if Js.includes currentUrl targetPath
           then pause 500%N ;; ret true
           else throw message
         else throw message) ;;
  if (interrupted : bool) then ret tt else pause 500%N.

(** [ensurePage]; its first test, on [context], cannot fire here. *)
Definition ensurePage : M Page :=
  fun st =>
    if isClosed B (page st) (world st) then
      (np <- ask (newPage B) ;;
       setPage np ;;
       registerPageEventHandlers np ;;
       ret np) st
    else (Ok (page st), st).

(** [page.locator(LOGIN_LINK_SELECTOR).isVisible()] *)
Definition loginLinkVisible : M bool :=
  p <- getPage ;; ask (locatorIsVisible B (locator p LOGIN_LINK_SELECTOR)).

(** The dialog loop of [loginThroughPopup]; [remaining] counts the attempts
    left, and the answer is [submittedCredentials]. *)
Fixpoint loginDialog (remaining : nat) : M bool :=
  match remaining with
  | 0 => ret false
  | S n =>
      onPage (fun p => locatorClick (first (locator p LOGIN_LINK_SELECTOR)) None) ;;
      loginFormReady <- appears "#loginForm_username" 8000%N ;;
      if negb loginFormReady then
        orElse (onPage (fun p => press p "Escape")) tt ;;
        pause 500%N ;;
        stillVisible <- orElse loginLinkVisible false ;;
        (if negb stillVisible then gotoAndWait home else ret tt) ;;
        loginDialog n
      else
        onPage (fun p => fill p "#loginForm_username" (OLIVER_USERNAME env)) ;;
        onPage (fun p => fill p "#loginForm_password" (OLIVER_PASSWORD env)) ;;
        onPage (fun p => click p SUBMIT_SELECTOR) ;;
        ret true
  end.

Definition loginThroughPopup : M bool :=
  ensurePage ;;
  loginVisible <- orElse loginLinkVisible false ;;
  loginVisible <-
    (if negb loginVisible then
       gotoAndWait home ;;
       orElse loginLinkVisible false
     else ret loginVisible) ;;
  if negb loginVisible then ret false
  else
    submittedCredentials <- loginDialog 3 ;;
    if negb submittedCredentials then ret false
    else
      orElse (waitFor (waitForLoadState "load" 10000%N)) tt ;;
      pause 500%N ;;
      logoutVisible <- appears "#window_logout" 10000%N ;;
      if negb logoutVisible then ret false
      else act storageState ;; ret true.

Definition SEARCH_PATH : string := "/oliver/cataloguing/smartCataloguing.do".

(** The loop of [attemptDirectSmartCatalog]; [remaining] counts the
    iterations left ([maxAttempts - attempt + 1]).  [continue] is the
    recursive call, [break] answers [false] as the code after the loop
    does. *)
Fixpoint directLoop (remaining : nat) (attemptedLogin : bool) : M bool :=
  match remaining with
  | 0 => ret false
  | S n =>
      gotoAndWait smartCatalog ;;
      currentUrl <- pageUrl ;;
      loginVisible <- orElse (visible LOGIN_LINK_SELECTOR) false ;;
      deniedVisible <- orElse (visible PERMISSION_DENIED_SELECTOR) false ;;
      let permissionDenied :=
        deniedVisible || Js.includes currentUrl "permissionDenied" in
      let relogin : M bool :=
        if attemptedLogin then ret false
        else
          loginSuccess <- loginThroughPopup ;;
          if negb loginSuccess
          then pause 1000%N ;; directLoop n attemptedLogin
          else directLoop n true in
      if loginVisible then relogin
      else if negb permissionDenied then
        if negb (Js.includes currentUrl SEARCH_PATH) then ret false
        else
          ready <- appears "#smartCatSearchTerm" 15000%N ;;
          if ready then ret true else directLoop n attemptedLogin
      else relogin
  end.

Definition attemptDirectSmartCatalog (maxAttempts : nat) : M bool :=
  ensurePage ;;
  directLoop maxAttempts false.

(** The three clicks on the Cataloguing header; the third failure is thrown
    again ([attempt === 3]). *)
Fixpoint clickCataloguingMenu (remaining : nat) : M unit :=
  match remaining with
  | 0 => ret tt
  | S n =>
      try_catch
        (onPage (fun p => locatorClick (locator p "#menu_cataloguing") (Some 5000%N)))
        (fun message =>
           if (n =? 0)%nat then throw message
           else
             orElse (onPage (fun p => press p "Escape")) tt ;;
             pause 500%N ;;
             clickCataloguingMenu n)
  end.

(** [locator.all()]: one locator per matching element, in document order. *)
Definition all (l : Locator) : M (list Locator) :=
  count <- ask (locatorCount B l) ;;
  ret (map (nth l) (seq 0 count)).

(** [for (const item of menuItems) { if (await item.isVisible()) { visibleItem
    = item; break; } }] *)
Fixpoint firstVisible (menuItems : list Locator) : M (option Locator) :=
  match menuItems with
  | [] => ret None
  | item :: rest =>
      visible <- ask (locatorIsVisible B item) ;;
      if (visible : bool) then ret (Some item) else firstVisible rest
  end.

(** Lines 488-508 of [attemptMenuSmartCatalog]: pick the visible one of the
    entries that share the identifier and click it. *)
Definition clickVisibleMenuItem : M unit :=
  p <- getPage ;;
  menuItems <- all (locator p "#menuItem_smartCataloguing") ;;
  visibleItem <- firstVisible menuItems ;;
  match visibleItem with
  | None => throw "No visible Smart Cataloguing menu item found"
  | Some item => act (locatorClick item None)
  end.

(** Lines 522-556 of [attemptMenuSmartCatalog]: what the click led to.
    [retry] is [attemptMenuSmartCatalog(attempt + 1)]. *)
Definition menuLanding (retry : M bool) : M bool :=
  loginVisible <- orElse (visible LOGIN_LINK_SELECTOR) false ;;
  if loginVisible then
    loginSuccess <- loginThroughPopup ;;
    if negb loginSuccess then retry else retry
  else
    permissionDenied <- orElse (visible PERMISSION_DENIED_SELECTOR) false ;;
    if permissionDenied then pause 500%N ;; retry
    else
      ready <- appears "#smartCatSearchTerm" 15000%N ;;
      if ready then ret true else pause 1000%N ;; retry.

(** [await popupPromise]: the page that opened since the promise was made,
    if any ([context.waitForEvent("page")] with its [catch]). *)
Definition awaitPopup : M (option Page) :=
  ask (fun w => let (np, w') := popupPage B w in (Ok np, w')).

(** Lines 461-520: open the Cataloguing menu, click the entry, and adopt
    the page that the click opened, if any. *)
Definition menuOpen (retry : M bool) : M bool :=
  orElse (onPage (fun p => press p "Escape")) tt ;;
  pause 200%N ;;
  clickCataloguingMenu 3 ;;
  pause 1500%N ;;
  clickVisibleMenuItem ;;
  popup <- awaitPopup ;;
  match popup with
  | Some np => setPage np ;; registerPageEventHandlers np
  | None => orElse (waitFor (waitForLoadState "domcontentloaded" 15000%N)) tt
  end ;;
  menuLanding retry.

(** One pass through the body of [attemptMenuSmartCatalog] after its first
    test; every [return attemptMenuSmartCatalog(attempt + 1)] is [retry]. *)
Definition menuAttempt (retry : M bool) : M bool :=
  gotoAndWait welcome ;;
  logoutVisible <- orElse (visible "#window_logout") false ;;
  let waitForMenu : M bool :=
    found <- appears "#menu_cataloguing" 20000%N ;;
    if found then menuOpen retry
    else
      try_catch (onPage reload) (fun _ => gotoAndWait welcome) ;;
      found <- appears "#menu_cataloguing" 20000%N ;;
      if found then menuOpen retry else retry in
  if negb logoutVisible then
    loginSuccess <- loginThroughPopup ;;
    if negb loginSuccess then retry
    else
      currentUrl <- pageUrl ;;
      (if negb (Js.includes currentUrl "/oliver/welcome.do")
       then gotoAndWait welcome else ret tt) ;;
      pause 1000%N ;;
      waitForMenu
  else waitForMenu.

Equations? attemptMenuSmartCatalog (attempt : nat) : M bool
  by wf (4 - attempt) lt :=
attemptMenuSmartCatalog attempt with le_lt_dec attempt 3 := {
  | right _ => ret false
  | left _ => menuAttempt (attemptMenuSmartCatalog (attempt + 1)) }.
Proof.
  clear attemptMenuSmartCatalog.
  do 4 (destruct attempt as [|attempt]; [cbn; lia|]). lia.
Qed.

Definition ensureSmartCataloguingPage : M bool := attemptMenuSmartCatalog 1.

Definition navigateToSmartCataloguing : M bool := ensureSmartCataloguingPage.

(** The confirmation modal that may follow a search or a save: the whole
    block sits in a [try] whose [catch] is empty. *)
Definition dismissModal (timeout settle : N) : M unit :=
  orElse
    (waitFor (waitForSelector "[id^='modalPopupId_']" timeout) ;;
     okButton <- query "#dialogButton_OK" ;;
     match okButton with
     | Some button => act (elementClick button) ;; pause settle
     | None => ret tt
     end)
    tt.

(** Lines 585-654 of [searchSmartCataloguing]: submit the identifier, wait
    for the status message, and probe the page; the answer is [loginVisible],
    [stillOnSmartCataloguing] and [permissionDenied]. *)
Definition submitAndProbe (isbn : string) : M (bool * bool * bool) :=
  onPage (fun p => fill p "#smartCatSearchTerm" (Some EmptyString)) ;;
  onPage (fun p => fill p "#smartCatSearchTerm" (Some isbn)) ;;
  onPage (fun p => click p "#smartCatSearchButton") ;;
  dismissModal 1000%N 300%N ;;
  orElse (waitFor (waitForFunction 2000%N)) tt ;;
  try_catch (waitFor (waitForFunction 10000%N)) (fun _ => pause 1500%N) ;;
  loginVisible <- orElse (visible LOGIN_LINK_SELECTOR) false ;;
  currentUrl <- pageUrl ;;
  let stillOnSmartCataloguing := Js.includes currentUrl SEARCH_PATH in
  permissionDenied <- orElse (visible PERMISSION_DENIED_SELECTOR) false ;;
  ret (loginVisible, stillOnSmartCataloguing, permissionDenied).

(** One pass through the body of [searchSmartCataloguing]; [retry] is
    [searchSmartCataloguing(isbn, attempt + 1)]. *)
Definition searchAttempt (isbn : string) (attempt : nat) (retry : M bool)
  : M bool :=
  available <- appears "#smartCatSearchTerm" 15000%N ;;
  if negb available then
    reNav <- navigateToSmartCataloguing ;;
    if negb reNav then ret false else retry
  else
    probe <- submitAndProbe isbn ;;
    let '(loginVisible, stillOnSmartCataloguing, permissionDenied) := probe in
    if (loginVisible || negb stillOnSmartCataloguing || permissionDenied)
       && (attempt <? 3)%nat
    then
      reNav <- navigateToSmartCataloguing ;;
      if negb reNav then ret false else retry
    else ret stillOnSmartCataloguing.

Equations? searchSmartCataloguing (isbn : string) (attempt : nat) : M bool
  by wf (4 - attempt) lt :=
searchSmartCataloguing isbn attempt with le_lt_dec attempt 3 := {
  | right _ => ret false
  | left _ => searchAttempt isbn attempt (searchSmartCataloguing isbn (attempt + 1)) }.
Proof.
  clear searchSmartCataloguing.
  do 4 (destruct attempt as [|attempt]; [cbn; lia|]). lia.
Qed.

Definition recordAndReturn (isbn : string) (status : Status)
    (error : option string) (errorMessage : option string) : M Result :=
  onDisk (recordResult isbn status errorMessage) ;;
  ret (mkResult isbn status error).

(** Lines 702-708 of [processISBN]: the trimmed text of the status message,
    empty when there is no status element. *)
Definition readStatusText : M string :=
  byId <- query "#smartCatFoundMsg" ;;
  statusMessageHandle <-
    match byId with
    | Some h => ret (Some h)
    | None => query ".smartCatFoundMsg"
    end ;;
  match statusMessageHandle with
  | Some h => text <- ask (innerText B h) ;; ret (Js.trim text)
  | None => ret EmptyString
  end.

(** Lines 702-770 of [processISBN]: classify the page after a search. *)
Definition classify (isbn : string) : M Result :=
  statusText <- readStatusText ;;
  if Js.includes (Js.toLowerCase statusText) "no matching resource" then
    recordAndReturn isbn NOT_FOUND None None
  else if Js.includes (Js.toLowerCase statusText) "found matching resource" then
    saveButton <- query "#smartCatSaveResource" ;;
    match saveButton with
    | Some button =>
        disabled <- ask (isDisabled B button) ;;
        if (disabled : bool) then recordAndReturn isbn ALREADY_EXISTS None None
        else
          act (elementClick button) ;;
          dismissModal 2000%N 500%N ;;
          orElse (waitFor (waitForLoadState "load" 8000%N)) tt ;;
          recordAndReturn isbn ADDED None None
    | None => recordAndReturn isbn UNKNOWN None (Some "Save button not found")
    end
  else recordAndReturn isbn UNKNOWN None (Some "No status message").

Definition processISBN (isbn : string) (skipNavigation : bool) : M Result :=
  try_catch
    (navSuccess <-
       (if negb skipNavigation then navigateToSmartCataloguing else ret true) ;;
     if negb navSuccess then
       recordAndReturn isbn ERROR (Some "Navigation failed")
                       (Some "Navigation failed")
     else
       searchReady <- searchSmartCataloguing isbn 1 ;;
       if negb searchReady then
         recordAndReturn isbn ERROR (Some "Search failed after re-login")
                         (Some "Search failed after re-login")
       else classify isbn)
    (fun message => recordAndReturn isbn ERROR (Some message) (Some message)).

(** The loop of [runOliverAutomation] over the queue file.  The source loops
    until the file has no line left; [fuel] bounds the number of items the
    model follows, and [None] says that the bound was reached. *)
Fixpoint processQueue (fuel : nat) (results : list Result)
  : M (option (list Result)) :=
  fun st =>
    match readLines QUEUE_FILE (disk st) with
    | [] => (Ok (Some results), st)
    | isbn :: _ =>
        match fuel with
        | 0 => (Ok None, st)
        | S n =>
            (result <- processISBN isbn true ;;
             processQueue n (results ++ [result])%list) st
        end
    end.

(** [runOliverAutomation], from its first line to the end of the process.
    The three awaits in front of the [try], [chromium.launch],
    [browser.newContext] and [context.newPage], are the one step [newPage]
    here: an error of any of them is caught by nobody.  The report of the run
    is written to a file of its own and is left out; file operations do not
    fail. *)
Definition runOliverAutomation (isbns : list string) (fuel : nat)
    (d : Disk) (w : W) : Termination * Disk * W * list Action :=
  if negb (truthy (OLIVER_USERNAME env)) || negb (truthy (OLIVER_PASSWORD env))
  then (Exit 1, d, w, [])
  else if (List.length isbns =? 0)%nat then (Exit 1, d, w, [])
  else
    let (queue, d1) := initializeQueue isbns d in
    if (List.length queue =? 0)%nat then (Returned, d1, w, [])
    else
      match newPage B w with
      | (Throw message, w1) => (Unhandled message, d1, w1, [])
      | (Ok p, w1) =>
          let st := mkState p [p] d1 w1 [] in
          let body : M Termination :=
            initialReady <- navigateToSmartCataloguing ;;
            if negb initialReady then ret Returned
            else
              results <- processQueue fuel [] ;;
              match results with
              | None => ret OutOfFuel
              | Some _ => act browserClose ;; ret Returned
              end in
          match body st with
          | (Ok t, st') => (t, disk st', world st', calls st')
          | (Throw _, st') =>
              match act browserClose st' with
              | (Ok _, st'') => (Exit 1, disk st'', world st'', calls st'')
              | (Throw message, st'') =>
                  (Unhandled message, disk st'', world st'', calls st'')
              end
          end
      end.

End Automation.

Arguments M : clear implicits.

Notation "x <- m ;; k" := (bind m (fun x => k))
  (at level 61, m at next level, right associativity).
Notation "m ;; k" := (bind m (fun _ => k))
  (at level 61, right associativity).

(** *** Counting calls *)

Definition countCalls {W} (P : Action -> bool) (st : State W) : nat :=
  List.length (filter P (calls st)).

Definition isSearchClick (a : Action) : bool :=
  match a with
  | click _ selector => String.eqb selector "#smartCatSearchButton"
  | _ => false
  end.

Definition isMenuItemClick (a : Action) : bool :=
  match a with
  | locatorClick (nth (locator _ selector) _) _ =>
      String.eqb selector "#menuItem_smartCataloguing"
  | _ => false
  end.

Definition isDirectGoto (a : Action) : bool :=
  match a with
  | goto _ u => String.eqb u SMART_CATALOG_URL
  | _ => false
  end.

(** The calls that are none of the three above. *)
Definition routine (a : Action) : bool :=
  negb (isSearchClick a || isMenuItemClick a || isDirectGoto a).

(** [st'] comes after [st] with the disk untouched, and the calls made in
    between have at most [n] calls of the kind [P] among them. *)
Definition within {W} (P : Action -> bool) (n : nat) (st st' : State W) : Prop :=
  disk st' = disk st /\
  exists made, calls st' = (calls st ++ made)%list /\
               List.length (filter P made) <= n.

Definition bounded {W A} (P : Action -> bool) (n : nat) (m : M W A) : Prop :=
  forall st : State W, within P n st (snd (m st)).

(** ** A scripted site

    A small remote site to run the script against: it is logged in or not,
    shows the login link or not, lists the Smart Cataloguing menu entries
    with their visibility, and answers every search with one status text and
    one state of the save control.  Clicking a visible menu entry leads to
    the search page; submitting the login form logs in. *)

Record Site : Type := mkSite {
  location : string;
  loggedIn : bool;
  loginLinkShown : bool;
  menuEntries : list bool;
  statusText : string;
  saveControl : option bool;
  searched : bool;
  dropsLeft : nat
}.

Definition moveTo (u : string) (w : Site) : Site :=
  mkSite u (loggedIn w) (loginLinkShown w) (menuEntries w) (statusText w)
         (saveControl w) (searched w) (dropsLeft w).

Definition logIn (w : Site) : Site :=
  mkSite (location w) true false (menuEntries w) (statusText w)
         (saveControl w) (searched w) (dropsLeft w).

(** A search is answered, unless the site still has a session to drop: then
    the search throws the visitor out to the home page, logged out. *)
Definition search (w : Site) : Site :=
  match dropsLeft w with
  | 0 =>
      mkSite (location w) (loggedIn w) (loginLinkShown w) (menuEntries w)
             (statusText w) (saveControl w) true 0
  | S n =>
      mkSite HOME_URL false true (menuEntries w) (statusText w)
             (saveControl w) false n
  end.

Definition timeout : string := "Timeout exceeded".

Definition site_perform (a : Action) (w : Site) : result unit * Site :=
  match a with
  | goto _ u => (Ok tt, moveTo u w)
  | click _ selector =>
      if String.eqb selector SUBMIT_SELECTOR then (Ok tt, logIn w)
      else if String.eqb selector "#smartCatSearchButton"
           then (Ok tt, search w)
           else (Ok tt, w)
  | locatorClick (nth (locator _ selector) i) _ =>
      if String.eqb selector "#menuItem_smartCataloguing" then
        if List.nth i (menuEntries w) false
        then (Ok tt, moveTo SMART_CATALOG_URL w)
        else (Throw "element is not visible", w)
      else (Ok tt, w)
  | _ => (Ok tt, w)
  end.

Definition site_shows (selector : string) (w : Site) : bool :=
  if String.eqb selector "#window_logout" then loggedIn w
  else if String.eqb selector LOGIN_LINK_SELECTOR then loginLinkShown w
  else if String.eqb selector "#loginForm_username" then loginLinkShown w
  else if String.eqb selector "#menu_cataloguing"
       then loggedIn w && Js.includes (location w) "/oliver/welcome.do"
  else if String.eqb selector "#smartCatSearchTerm"
       then loggedIn w && Js.includes (location w) SEARCH_PATH
  else false.

Definition site_wait (_ : Page) (x : Wait) (w : Site) : result unit * Site :=
  match x with
  | waitForSelector selector _ =>
      if site_shows selector w then (Ok tt, w) else (Throw timeout, w)
  | waitForFunction _ =>
      if searched w && negb (Js.isEmpty (statusText w)) then (Ok tt, w)
      else (Throw timeout, w)
  | _ => (Ok tt, w)
  end.

Definition site_locatorIsVisible (l : Locator) (w : Site) : result bool * Site :=
  match l with
  | locator _ selector => (Ok (site_shows selector w), w)
  | nth (locator _ selector) i =>
      if String.eqb selector "#menuItem_smartCataloguing"
      then (Ok (List.nth i (menuEntries w) false), w)
      else (Ok (site_shows selector w), w)
  | _ => (Ok false, w)
  end.

Definition site_locatorCount (l : Locator) (w : Site) : result nat * Site :=
  match l with
  | locator _ selector =>
      if String.eqb selector "#menuItem_smartCataloguing"
      then (Ok (List.length (menuEntries w)), w)
      else (Ok (if site_shows selector w then 1 else 0), w)
  | _ => (Ok 0, w)
  end.

Definition STATUS_ELEMENT : ElementHandle := 1.
Definition SAVE_ELEMENT : ElementHandle := 2.

Definition site_querySelector (_ : Page) (selector : string) (w : Site)
  : result (option ElementHandle) * Site :=
  if String.eqb selector "#smartCatFoundMsg" then
    (Ok (if searched w then Some STATUS_ELEMENT else None), w)
  else if String.eqb selector "#smartCatSaveResource" then
    (Ok (match saveControl w with Some _ => Some SAVE_ELEMENT | None => None end), w)
  else (Ok None, w).

Definition site : Browser Site := {|
  perform := site_perform;
  wait := site_wait;
  url := fun _ w => location w;
  isClosed := fun _ _ => false;
  isVisible := fun _ selector w => (Ok (site_shows selector w), w);
  locatorIsVisible := site_locatorIsVisible;
  locatorCount := site_locatorCount;
  querySelector := site_querySelector;
  innerText := fun _ w => (Ok (statusText w), w);
  isDisabled := fun _ w =>
    (Ok (match saveControl w with Some disabled => disabled | None => false end), w);
  newPage := fun w => (Ok 0, w);
  popupPage := fun w => (None, w)
|}.

Definition credentials : Env :=
  {| OLIVER_USERNAME := Some "librarian"; OLIVER_PASSWORD := Some "secret" |}.

(** A fresh visit: not logged in, the login link is shown, the menu entry is
    rendered twice and only the second one is visible. *)
Definition freshSite (text : string) (save : option bool) : Site :=
  mkSite "about:blank" false true [false; true] text save false 0.

(** A site where neither the login link nor the log-out control ever shows:
    no strategy can reach the search page. *)
Definition deadSite : Site :=
  mkSite "about:blank" false false [] EmptyString None false 0.

(** ** A site with a confirmation modal

    The scripted site again, with three more things that can happen to the
    script: a confirmation modal that opens when the save control is clicked
    and closes with its OK button; a permission-denied mark that a search
    leaves on the page, if the site is set to do so, until another address is
    loaded; and a browser that fails to close a given number of times. *)

Record Stage : Type := mkStage {
  base : Site;
  modalOpen : bool;
  deniedShown : bool;
  deniesSearches : bool;
  closeFailures : nat
}.

Definition OK_ELEMENT : ElementHandle := 3.

Definition onBase {A} (f : Site -> result A * Site) (s : Stage)
  : result A * Stage :=
  let (r, b) := f (base s) in
  (r, mkStage b (modalOpen s) (deniedShown s) (deniesSearches s) (closeFailures s)).

Definition setModal (open : bool) (s : Stage) : Stage :=
  mkStage (base s) open (deniedShown s) (deniesSearches s) (closeFailures s).

Definition setDenied (shown : bool) (s : Stage) : Stage :=
  mkStage (base s) (modalOpen s) shown (deniesSearches s) (closeFailures s).

Definition stage_perform (a : Action) (s : Stage) : result unit * Stage :=
  match a with
  | elementClick e =>
      if Nat.eqb e SAVE_ELEMENT then (Ok tt, setModal true s)
      else if Nat.eqb e OK_ELEMENT then (Ok tt, setModal false s)
      else onBase (site_perform a) s
  | click _ selector =>
      let (r, s') := onBase (site_perform a) s in
      if String.eqb selector "#smartCatSearchButton" && deniesSearches s
      then (r, setDenied true s')
      else (r, s')
  | goto _ _ =>
      let (r, s') := onBase (site_perform a) s in (r, setDenied false s')
  | browserClose =>
      match closeFailures s with
      | 0 => (Ok tt, s)
      | S n =>
          (Throw "Target page, context or browser has been closed",
           mkStage (base s) (modalOpen s) (deniedShown s) (deniesSearches s) n)
      end
  | _ => onBase (site_perform a) s
  end.

Definition stage_wait (p : Page) (x : Wait) (s : Stage) : result unit * Stage :=
  match x with
  | waitForSelector selector _ =>
      if String.eqb selector "[id^='modalPopupId_']"
      then (if modalOpen s then Ok tt else Throw timeout, s)
      else onBase (site_wait p x) s
  | _ => onBase (site_wait p x) s
  end.

Definition stage : Browser Stage := {|
  perform := stage_perform;
  wait := stage_wait;
  url := fun _ s => location (base s);
  isClosed := fun _ _ => false;
  isVisible := fun p selector s =>
    if String.eqb selector PERMISSION_DENIED_SELECTOR
    then (Ok (deniedShown s), s)
    else onBase (isVisible site p selector) s;
  locatorIsVisible := fun l => onBase (site_locatorIsVisible l);
  locatorCount := fun l => onBase (site_locatorCount l);
  querySelector := fun p selector s =>
    if String.eqb selector "#dialogButton_OK"
    then (Ok (if modalOpen s then Some OK_ELEMENT else None), s)
    else onBase (site_querySelector p selector) s;
  innerText := fun e => onBase (innerText site e);
  isDisabled := fun e => onBase (isDisabled site e);
  newPage := fun s => (Ok 0, s);
  popupPage := fun s => (None, s)
|}.


(** A fresh visit to a site on which every search ends on the search page
    with the permission-denied mark and no status text. *)
Definition denyingStage : Stage :=
  mkStage (freshSite EmptyString None) false false true 0.

(** A fresh visit with a browser whose first attempt to close fails. *)
Definition stuckStage : Stage :=
  mkStage (freshSite "No matching resource found" None) false false false 1.

(** The state of the script on such a site once the first page is open, and
    once [navigateToSmartCataloguing] has run. *)
Definition onStage (isbns : list string) (s : Stage) : State Stage :=
  mkState 0 [0] (snd (initializeQueue isbns emptyDisk)) s [].

Definition stageAtSearchPage (isbns : list string) (s : Stage) : State Stage :=
  snd (navigateToSmartCataloguing stage credentials (onStage isbns s)).

(** ** Notions used by the statements *)

(** A text that does not start with white space. *)
Definition startsBlack (s : string) : bool :=
  match s with
  | EmptyString => true
  | String c _ => negb (Js.isWhiteSpace c)
  end.

(** The tests of [initializeQueue]: [!processedIsbns.has(isbn)], the queue
    it keeps, and the supplied identifiers it adds. *)
Definition unprocessed (d : Disk) (isbn : string) : bool :=
  negb (Set_has (getProcessedIsbns d) isbn).

Definition cleanedQueue (d : Disk) : list string :=
  filter (unprocessed d) (readLines QUEUE_FILE d).

Definition newIsbns (inputIsbns : list string) (d : Disk) : list string :=
  filter (fun isbn => unprocessed d isbn
                      && negb (Array_includes (cleanedQueue d) isbn))
         inputIsbns.

(** The message that reaches the errors file: [errorMessage || "Unknown
    error"]. *)
Definition messageOrDefault (errorMessage : option string) : string :=
  match errorMessage with
  | Some m => if Js.isEmpty m then "Unknown error" else m
  | None => "Unknown error"
  end.

(** An error record, the identifier with the message that was written for
    it, as it stands in the errors file; and the text of an errors file that
    holds the records [entries], oldest first. *)
Definition errorRecord (e : string * string) : string := fst e ++ " # " ++ snd e.

Fixpoint errorsText (entries : list (string * string)) : string :=
  match entries with
  | [] => EmptyString
  | e :: rest => errorRecord e ++ nl ++ errorsText rest
  end.

(** Identifiers as [readLines] gives them back once [writeLines] has put
    them into the queue file: each one trimmed, cut at its line feeds, and
    dropped when nothing is left of it or when it starts with [#]. *)
Definition asRead (isbns : list string) : list string :=
  flat_map parseLines isbns.

(** Every ledger file is empty or ends with a line feed. *)
Definition terminatedLedgers (d : Disk) : Prop :=
  forall status, terminated (readFileSync (ledgerFile status) d) = true.

(** The identifiers of the queue and of the three plain ledgers, and the
    size of the store as the report counts it. *)
Definition plainHoldings (d : Disk) : list string :=
  (readLines QUEUE_FILE d ++ readLines ADDED_FILE d
   ++ readLines ALREADY_EXISTS_FILE d ++ readLines NOT_FOUND_FILE d)%list.


(** The states of the disk between two items of a run that starts in [d0]:
    each item ends with one [recordResult] for the head of the queue, with
    any status and any message. *)
Inductive itemBoundary (d0 : Disk) : Disk -> Prop :=
| boundary_start : itemBoundary d0 d0
| boundary_next d isbn rest status errorMessage :
    itemBoundary d0 d ->
    readLines QUEUE_FILE d = isbn :: rest ->
    itemBoundary d0 (recordResult isbn status errorMessage d).


(** Identifiers that are well-formed lines, none of them twice. *)
Definition tidy (isbns : list string) : Prop :=
  NoDup isbns /\ Forall (fun l => cleanLine l = true) isbns.


(** The kinds "every call" and "no call", and a computation that leaves
    the disk alone. *)
Definition anyCall (a : Action) : bool := true.

Definition noCall (a : Action) : bool := false.

Definition keepsDisk {W A} (m : M W A) : Prop :=
  forall st, disk (snd (m st)) = disk st.

(** A computation that either records one result for [isbn] and answers it,
    or throws with the disk as it was. *)
Definition attempts {W} (isbn : string) (m : M W Result) : Prop :=
  forall st,
    match m st with
    | (Ok r, st') =>
        exists message,
          disk st' = recordResult isbn (status_of r) message (disk st)
    | (Throw _, st') => disk st' = disk st
    end.

(** The state in which [runOliverAutomation] enters its [try] block: the
    first page is open, the queue is built, and no call has been made. *)
Definition firstPage {W} (B : Browser W) (isbns : list string) (d : Disk)
    (w : W) (st : State W) : Prop :=
  exists p w1,
    newPage B w = (Ok p, w1) /\
    st = mkState p [p] (snd (initializeQueue isbns d)) w1 [].

(** The [try] block of [runOliverAutomation], entered in [st], throws and
    leaves [st']: the first navigation throws, or it succeeds, the loop
    reaches the end of the queue, and closing the browser throws. *)
Definition tryThrows {W} (B : Browser W) (env : Env) (fuel : nat)
    (st st' : State W) : Prop :=
  (exists e, navigateToSmartCataloguing B env st = (Throw e, st')) \/
  (exists st1 results st2 e,
     navigateToSmartCataloguing B env st = (Ok true, st1) /\
     processQueue B env fuel [] st1 = (Ok (Some results), st2) /\
     act B browserClose st2 = (Throw e, st')).

(** The [try] block returns: the first navigation answers [false], or it
    succeeds, the loop reaches the end of the queue, and the browser is
    closed. *)
Definition tryReturns {W} (B : Browser W) (env : Env) (fuel : nat)
    (st : State W) : Prop :=
  (exists st1, navigateToSmartCataloguing B env st = (Ok false, st1)) \/
  (exists st1 results st2 st3,
     navigateToSmartCataloguing B env st = (Ok true, st1) /\
     processQueue B env fuel [] st1 = (Ok (Some results), st2) /\
     act B browserClose st2 = (Ok tt, st3)).

(** A credential is missing or no identifier was supplied. *)
Definition refused (env : Env) (isbns : list string) : Prop :=
  truthy (OLIVER_USERNAME env) = false \/
  truthy (OLIVER_PASSWORD env) = false \/
  isbns = [].

(** ** Concrete stores and sites *)

(** A first run in which the only identifier ended in Error. *)
Definition afterFailedRun : Disk :=
  recordResult "000" ERROR (Some "Search failed after re-login")
    (snd (initializeQueue ["000"] emptyDisk)).

(** Two identifiers queued on an empty disk. *)
Definition twoQueued : Disk :=
  snd (initializeQueue ["9780545139700"; "000"] emptyDisk).

(** The state of the script when the first page has been opened, with the
    queue built from [isbns] on an empty disk. *)
Definition opened (isbns : list string) (w : Site) : State Site :=
  mkState 0 [0] (snd (initializeQueue isbns emptyDisk)) w [].

(** The state once [navigateToSmartCataloguing] has run. *)
Definition atSearchPage (isbns : list string) (w : Site) : State Site :=
  snd (navigateToSmartCataloguing site credentials (opened isbns w)).

Definition isElementClick (a : Action) : bool :=
  match a with
  | elementClick _ => true
  | _ => false
  end.


(** A site that loses the session on the first search. *)
Definition droppingSite : Site :=
  mkSite "about:blank" false true [false; true] "No matching resource" None
         false 1.

(** A state in front of the menu, whose entry is rendered twice: hidden
    first, visible second. *)
Definition atMenu : State Site :=
  opened ["000"] (freshSite "No matching resource" None).

Definition renderedTwice (i : nat) : bool := List.nth i [false; true] false.

(** A site whose menu entry is rendered twice and never visible. *)
Definition hiddenSite : Site :=
  mkSite "about:blank" false true [false; false] "No matching resource" None
         false 0.

(** ** The command line

    The last lines of the script turn its argument into the list of
    identifiers: the argument is the path of a file of identifiers, or else a
    single identifier. *)

(** A separator of [content.split(/[\n,;]+/)]. *)
Definition isSeparator (c : ascii) : bool :=
  Ascii.eqb c Js.LF || Ascii.eqb c "," || Ascii.eqb c ";".

(** [content.split(/[\n,;]+/)]: the text is cut at every run of separators,
    so that a run at the start or at the end leaves an empty piece there. *)
Fixpoint splitSeparators (s : string) : list string :=
  match s with
  | EmptyString => [EmptyString]
  | String c s' =>
      if isSeparator c then
        match s' with
        | String d _ =>
            if isSeparator d then splitSeparators s'
            else EmptyString :: splitSeparators s'
        | EmptyString => EmptyString :: splitSeparators s'
        end
      else Js.push c (splitSeparators s')
  end.

(** The identifiers of an input file: [split], [trim], and the filter that
    [readLines] has too. *)
Definition parseInput (content : string) : list string :=
  filter keepLine (map Js.trim (splitSeparators content)).

(** What the file system has at the path that the script is given: nothing
    ([existsSync] answers false), a file with its text, or something that
    [existsSync] finds and [readFileSync] cannot read, a directory for one,
    with the message of the error. *)
Inductive Entry : Type :=
| absent
| regular (content : string)
| unreadable (message : string).

(** [isbns], from the argument [input] and what is at that path. *)
Definition readInput (input : string) (entry : Entry) : result (list string) :=
  match entry with
  | regular content => Ok (parseInput content)
  | unreadable message => Throw message
  | absent => Ok [input]
  end.

(** The script from its first line: [argv2] is [process.argv[2]] and
    [entry] is what is at that path.  Without an argument the script exits
    at once; the error of a path that cannot be read is caught by nobody. *)
Definition script {W} (B : Browser W) (env : Env) (argv2 : option string)
    (entry : Entry) (fuel : nat) (d : Disk) (w : W)
  : Termination * Disk * W * list Action :=
  match argv2 with
  | None => (Exit 1, d, w, [])
  | Some input =>
      if Js.isEmpty input then (Exit 1, d, w, [])
      else
        match readInput input entry with
        | Ok isbns => runOliverAutomation B env isbns fuel d w
        | Throw message => (Unhandled message, d, w, [])
        end
  end.

(** The text with every comma and semicolon turned into a line feed. *)
Fixpoint separatorsToLF (s : string) : string :=
  match s with
  | EmptyString => EmptyString
  | String c s' =>
      String (if isSeparator c then Js.LF else c) (separatorsToLF s')
  end.

(** A text without comma or semicolon: a file of identifiers with one
    identifier on a line. *)
Fixpoint existsChar (p : ascii -> bool) (s : string) : bool :=
  match s with
  | EmptyString => false
  | String c s' => p c || existsChar p s'
  end.

Definition isComma (c : ascii) : bool := Ascii.eqb c "," || Ascii.eqb c ";".

(** *** Calls of a whole item or run *)

(** The calls that [m] adds to the list, whatever it does to the disk: at
    most [n] of them are of the kind [P]. *)
Definition emits {W A} (P : Action -> bool) (n : nat) (m : M W A) : Prop :=
  forall st : State W,
    exists made, calls (snd (m st)) = (calls st ++ made)%list /\
                 List.length (filter P made) <= n.

(** What a call counts for. *)
Definition cost (P : Action -> bool) (a : Action) : nat := if P a then 1 else 0.



Definition isLoginLinkClick (a : Action) : bool :=
  match a with
  | locatorClick (first (locator _ selector)) _ =>
      String.eqb selector LOGIN_LINK_SELECTOR
  | _ => false
  end.

Definition isCredentialFill (a : Action) : bool :=
  match a with
  | fill _ selector _ =>
      String.eqb selector "#loginForm_username"
      || String.eqb selector "#loginForm_password"
  | _ => false
  end.

Definition isSubmitClick (a : Action) : bool :=
  match a with
  | click _ selector => String.eqb selector SUBMIT_SELECTOR
  | _ => false
  end.

Definition isHeaderClick (a : Action) : bool :=
  match a with
  | locatorClick (locator _ selector) _ => String.eqb selector "#menu_cataloguing"
  | _ => false
  end.

Definition isStorageState (a : Action) : bool :=
  match a with
  | storageState => true
  | _ => false
  end.

(** The message that [recordResult] is given with a result: the message
    that an ERROR result carries, one of two fixed messages for an UNKNOWN
    result, which carries none itself, and none for the other results. *)
Definition explains (r : Result) (message : option string) : Prop :=
  match status_of r with
  | ERROR => error_of r = message /\ exists e, message = Some e
  | UNKNOWN =>
      error_of r = None /\
      (message = Some "Save button not found" \/ message = Some "No status message")
  | _ => error_of r = None /\ message = None
  end.

(** A computation whose answer, when it gives one, is a result for [isbn]
    that has been recorded with the text that goes with it. *)
Definition reports {W} (isbn : string) (m : M W Result) : Prop :=
  forall (st : State W) r st',
    m st = (Ok r, st') ->
    isbn_of r = isbn /\
    exists message,
      disk st' = recordResult isbn (status_of r) message (disk st) /\
      explains r message.

(** *** Dialog handlers

    [registerPageEventHandlers] attaches the handler that accepts dialogs
    and remembers the page in [pagesWithHandlers]. *)

(** No page has the handler twice, and the current page has it. *)
Definition handled {W} (st : State W) : Prop :=
  NoDup (pagesWithHandlers st) /\ In (page st) (pagesWithHandlers st).

(** [m] keeps that, and takes the handler from no page. *)
Definition keepsHandlers {W A} (m : M W A) : Prop :=
  forall st : State W,
    handled st ->
    handled (snd (m st)) /\
    incl (pagesWithHandlers st) (pagesWithHandlers (snd (m st))).

(** [m] leaves the current page and the handlers alone. *)
Definition sameTab {W A} (m : M W A) : Prop :=
  forall st : State W,
    page (snd (m st)) = page st /\
    pagesWithHandlers (snd (m st)) = pagesWithHandlers st.

(** * Properties *)

(** ** Strings *)

Lemma string_ind2 (P : string -> Prop) :
  P EmptyString ->
  (forall c, P (String c EmptyString)) ->
  (forall c d s, P s -> P (String d s) -> P (String c (String d s))) ->
  forall s, P s.
Proof.
  intros H0 H1 H2 s.
  assert (H : P s /\ forall c, P (String c s)).
  { induction s as [|d s [IHa IHb]].
    - split; [exact H0 | exact H1].
    - split; [apply IHb | intros c; apply H2; [exact IHa | apply IHb]]. }
  exact (proj1 H).
Qed.

Lemma splitLines_cons1 c :
  Js.splitLines (String c EmptyString) =
  if Ascii.eqb c Js.LF then [EmptyString; EmptyString]
  else [String c EmptyString].
Proof. reflexivity. Qed.

Lemma splitLines_cons2 c d s :
  Js.splitLines (String c (String d s)) =
  if Ascii.eqb c Js.LF then EmptyString :: Js.splitLines (String d s)
  else if Ascii.eqb c Js.CR && Ascii.eqb d Js.LF
       then EmptyString :: Js.splitLines s
       else Js.push c (Js.splitLines (String d s)).
Proof. reflexivity. Qed.

Lemma push_app c P Q :
  P <> [] -> Js.push c (P ++ Q)%list = (Js.push c P ++ Q)%list.
Proof. destruct P; [congruence | reflexivity]. Qed.

Lemma push_nonempty c P : Js.push c P <> [].
Proof. destruct P; discriminate. Qed.

Lemma splitLines_nonempty s : Js.splitLines s <> [].
Proof.
  induction s as [| c | c d s IH1 IH2] using string_ind2.
  - discriminate.
  - rewrite splitLines_cons1. destruct (Ascii.eqb c Js.LF); discriminate.
  - rewrite splitLines_cons2.
    destruct (Ascii.eqb c Js.LF); [discriminate|].
    destruct (Ascii.eqb c Js.CR && Ascii.eqb d Js.LF); [discriminate|].
    apply push_nonempty.
Qed.

(** Cutting at a line feed: the pieces before it do not depend on what
    follows. *)
Lemma splitLines_app_LF a :
  exists P, P <> [] /\
    forall b, Js.splitLines (a ++ String Js.LF b) = (P ++ Js.splitLines b)%list.
Proof.
  induction a as [| c | c d a IH1 IH2] using string_ind2.
  - exists [EmptyString]. split; [discriminate | reflexivity].
  - destruct (Ascii.eqb c Js.LF) eqn:Ec.
    + exists [EmptyString; EmptyString]. split; [discriminate|].
      intros b. cbn [append]. rewrite splitLines_cons2, Ec. reflexivity.
    + destruct (Ascii.eqb c Js.CR) eqn:Er.
      * exists [EmptyString]. split; [discriminate|].
        intros b. cbn [append]. rewrite splitLines_cons2, Ec, Er. reflexivity.
      * exists [String c EmptyString]. split; [discriminate|].
        intros b. cbn [append]. rewrite splitLines_cons2, Ec, Er. reflexivity.
  - destruct IH1 as (P1 & HP1 & H1). destruct IH2 as (P2 & HP2 & H2).
    destruct (Ascii.eqb c Js.LF) eqn:Ec.
    + exists (EmptyString :: P2). split; [discriminate|].
      intros b. specialize (H2 b). cbn [append] in H2 |- *.
      rewrite splitLines_cons2, Ec, H2. reflexivity.
    + destruct (Ascii.eqb c Js.CR && Ascii.eqb d Js.LF) eqn:Ecd.
      * exists (EmptyString :: P1). split; [discriminate|].
        intros b. cbn [append]. rewrite splitLines_cons2, Ec, Ecd, H1.
        reflexivity.
      * exists (Js.push c P2). split; [apply push_nonempty|].
        intros b. specialize (H2 b). cbn [append] in H2 |- *.
        rewrite splitLines_cons2, Ec, Ecd, H2. apply push_app, HP2.
Qed.

Lemma lastChar_cons c d s : lastChar (String c (String d s)) = lastChar (String d s).
Proof. reflexivity. Qed.

(** A line without line feed and not ending in a carriage return is cut off
    whole. *)
Lemma splitLines_line l rest :
  hasLF l = false -> endsWithCR l = false ->
  Js.splitLines (l ++ String Js.LF rest) = l :: Js.splitLines rest.
Proof.
  induction l as [|c l IH]; intros Hlf Hcr.
  - reflexivity.
  - cbn [hasLF] in Hlf. apply orb_false_elim in Hlf. destruct Hlf as [Ec Hlf].
    destruct l as [|d l].
    + unfold endsWithCR in Hcr. cbn [lastChar] in Hcr.
      cbn [append]. rewrite splitLines_cons2, Ec, Hcr. reflexivity.
    + assert (Ed : Ascii.eqb d Js.LF = false).
      { cbn [hasLF] in Hlf. apply orb_false_elim in Hlf. tauto. }
      specialize (IH Hlf Hcr). cbn [append] in IH |- *.
      rewrite splitLines_cons2, Ec, Ed, andb_false_r, IH. reflexivity.
Qed.

Lemma splitLines_noLF s : Forall (fun p => hasLF p = false) (Js.splitLines s).
Proof.
  induction s as [| c | c d s IH1 IH2] using string_ind2.
  - repeat constructor.
  - rewrite splitLines_cons1. destruct (Ascii.eqb c Js.LF) eqn:Ec.
    + repeat constructor.
    + repeat constructor. cbn [hasLF]. rewrite Ec. reflexivity.
  - rewrite splitLines_cons2. destruct (Ascii.eqb c Js.LF) eqn:Ec.
    + constructor; [reflexivity | exact IH2].
    + destruct (Ascii.eqb c Js.CR && Ascii.eqb d Js.LF).
      * constructor; [reflexivity | exact IH1].
      * pose proof (splitLines_nonempty (String d s)) as Hne.
        destruct (Js.splitLines (String d s)) as [|p ps]; [congruence|].
        inversion IH2; subst. constructor; [|assumption].
        cbn [hasLF]. rewrite Ec. assumption.
Qed.

Lemma hasLF_trimStart s : hasLF s = false -> hasLF (Js.trimStart s) = false.
Proof.
  induction s as [|c s IH]; intros H; [reflexivity|].
  cbn [Js.trimStart]. destruct (Js.isWhiteSpace c); [|exact H].
  apply IH. cbn [hasLF] in H. apply orb_false_elim in H. tauto.
Qed.

Lemma hasLF_trimEnd s : hasLF s = false -> hasLF (Js.trimEnd s) = false.
Proof.
  induction s as [|c s IH]; intros H; [reflexivity|].
  cbn [hasLF] in H. apply orb_false_elim in H. destruct H as [Ec H].
  cbn [Js.trimEnd]. destruct (Js.isWhiteSpace c && Js.isEmpty (Js.trimEnd s)).
  - reflexivity.
  - cbn [hasLF]. rewrite Ec, (IH H). reflexivity.
Qed.

Lemma trimEnd_idem s : Js.trimEnd (Js.trimEnd s) = Js.trimEnd s.
Proof.
  induction s as [|c s IH]; [reflexivity|].
  cbn [Js.trimEnd].
  destruct (Js.isWhiteSpace c && Js.isEmpty (Js.trimEnd s)) eqn:E.
  - reflexivity.
  - cbn [Js.trimEnd]. rewrite IH, E. reflexivity.
Qed.

Lemma trimStart_startsBlack s : startsBlack (Js.trimStart s) = true.
Proof.
  induction s as [|c s IH]; [reflexivity|].
  cbn [Js.trimStart]. destruct (Js.isWhiteSpace c) eqn:E; [exact IH|].
  cbn. rewrite E. reflexivity.
Qed.

Lemma trimStart_fixed s : startsBlack s = true -> Js.trimStart s = s.
Proof.
  destruct s as [|c s]; [reflexivity|]. cbn. intros H.
  apply negb_true_iff in H. rewrite H. reflexivity.
Qed.

Lemma trimEnd_startsBlack s : startsBlack s = true -> startsBlack (Js.trimEnd s) = true.
Proof.
  destruct s as [|c s]; [reflexivity|]. cbn [startsBlack Js.trimEnd]. intros H.
  apply negb_true_iff in H. rewrite H. cbn. rewrite H. reflexivity.
Qed.

Lemma trim_idem s : Js.trim (Js.trim s) = Js.trim s.
Proof.
  unfold Js.trim.
  rewrite (trimStart_fixed (Js.trimEnd (Js.trimStart s))).
  - apply trimEnd_idem.
  - apply trimEnd_startsBlack, trimStart_startsBlack.
Qed.

Lemma hasLF_trim s : hasLF s = false -> hasLF (Js.trim s) = false.
Proof. intros H. apply hasLF_trimEnd, hasLF_trimStart, H. Qed.

Lemma lastChar_trimEnd s c :
  lastChar (Js.trimEnd s) = Some c -> Js.isWhiteSpace c = false.
Proof.
  induction s as [|a s IH]; [discriminate|].
  cbn [Js.trimEnd].
  destruct (Js.isWhiteSpace a && Js.isEmpty (Js.trimEnd s)) eqn:E; [discriminate|].
  destruct (Js.trimEnd s) as [|b t] eqn:Et.
  - cbn. intros H. injection H as <-. cbn in E. rewrite andb_true_r in E. exact E.
  - rewrite lastChar_cons. exact IH.
Qed.

Lemma endsWithCR_trim s : endsWithCR (Js.trim s) = false.
Proof.
  unfold endsWithCR.
  destruct (lastChar (Js.trim s)) as [c|] eqn:E; [|reflexivity].
  apply lastChar_trimEnd in E.
  destruct (Ascii.eqb c Js.CR) eqn:Ec; [|reflexivity].
  apply Ascii.eqb_eq in Ec. subst c. discriminate E.
Qed.

Lemma cleanLine_spec l :
  cleanLine l = true <->
  Js.trim l = l /\ keepLine l = true /\ hasLF l = false.
Proof.
  unfold cleanLine. rewrite !andb_true_iff, negb_true_iff, String.eqb_eq. tauto.
Qed.

Lemma cleanLine_endsWithCR l : cleanLine l = true -> endsWithCR l = false.
Proof.
  intros H. apply cleanLine_spec in H. destruct H as (Ht & _ & _).
  rewrite <- Ht. apply endsWithCR_trim.
Qed.

(** ** Parsing a file into lines *)

Lemma parseLines_clean text : Forall (fun l => cleanLine l = true) (parseLines text).
Proof.
  unfold parseLines. apply Forall_forall. intros l Hl.
  apply filter_In in Hl. destruct Hl as [Hin Hk].
  apply in_map_iff in Hin. destruct Hin as (p & <- & Hp).
  apply cleanLine_spec. split; [apply trim_idem | split; [exact Hk|]].
  apply hasLF_trim.
  pose proof (splitLines_noLF text) as H. rewrite Forall_forall in H. auto.
Qed.

Lemma terminated_inv a :
  terminated a = true -> a = EmptyString \/ exists a0, a = a0 ++ nl.
Proof.
  induction a as [| c | c d a IH1 IH2] using string_ind2; intros H.
  - left. reflexivity.
  - right. exists EmptyString. unfold terminated in H. cbn in H.
    apply Ascii.eqb_eq in H. subst c. reflexivity.
  - right. unfold terminated in H. rewrite lastChar_cons in H.
    destruct (IH2 H) as [E | (a0 & E)]; [discriminate|].
    exists (String c a0). cbn [append]. rewrite <- E. reflexivity.
Qed.

Lemma append_assoc (a b c : string) : (a ++ b) ++ c = a ++ (b ++ c).
Proof. induction a as [|x a IH]; [reflexivity|]. cbn. rewrite IH. reflexivity. Qed.

Lemma append_nil_r (a : string) : a ++ EmptyString = a.
Proof. induction a as [|x a IH]; [reflexivity|]. cbn. rewrite IH. reflexivity. Qed.

Lemma lastChar_app a c b : lastChar (a ++ String c b) = lastChar (String c b).
Proof.
  induction a as [|x a IH]; [reflexivity|].
  cbn [append]. destruct a as [|y a]; [reflexivity|].
  cbn [append] in IH |- *. rewrite lastChar_cons. exact IH.
Qed.

Lemma terminated_append a b : terminated (a ++ b ++ nl) = true.
Proof.
  unfold terminated. rewrite <- append_assoc. unfold nl. rewrite lastChar_app.
  reflexivity.
Qed.

Lemma parseLines_app a b :
  terminated a = true -> parseLines (a ++ b) = (parseLines a ++ parseLines b)%list.
Proof.
  intros H. destruct (terminated_inv a H) as [-> | (a0 & ->)]; [reflexivity|].
  destruct (splitLines_app_LF a0) as (P & _ & HP).
  unfold parseLines, nl. rewrite append_assoc. cbn [append].
  rewrite !HP. rewrite !map_app, !filter_app. cbn. rewrite app_nil_r. reflexivity.
Qed.

Lemma parseLines_line l rest :
  cleanLine l = true -> parseLines (l ++ nl ++ rest) = l :: parseLines rest.
Proof.
  intros H. pose proof (cleanLine_endsWithCR l H) as Hcr.
  apply cleanLine_spec in H. destruct H as (Ht & Hk & Hlf).
  unfold parseLines, nl. cbn [append]. rewrite splitLines_line by assumption.
  cbn [map filter]. rewrite Ht, Hk. reflexivity.
Qed.

Lemma parseLines_join ls :
  Forall (fun l => cleanLine l = true) ls -> parseLines (Js.join ls ++ nl) = ls.
Proof.
  induction ls as [|l ls IH]; intros H; [reflexivity|].
  inversion H as [|? ? Hl Hls]; subst.
  destruct ls as [|l2 ls].
  - cbn [Js.join]. rewrite <- (append_nil_r (l ++ nl)), append_assoc.
    rewrite parseLines_line by assumption. reflexivity.
  - change (Js.join (l :: l2 :: ls)) with (l ++ nl ++ Js.join (l2 :: ls)).
    rewrite !append_assoc. rewrite parseLines_line by assumption.
    rewrite (IH Hls). reflexivity.
Qed.

Lemma trimEnd_app_white x c :
  Js.isWhiteSpace c = true -> Js.trimEnd (x ++ String c EmptyString) = Js.trimEnd x.
Proof.
  intros Hc. induction x as [|a x IH].
  - cbn. rewrite Hc. reflexivity.
  - cbn [append Js.trimEnd]. rewrite IH. reflexivity.
Qed.

Lemma trim_app_white h c :
  Js.isWhiteSpace c = true -> Js.trim (h ++ String c EmptyString) = Js.trim h.
Proof.
  intros Hc. unfold Js.trim. induction h as [|a h IH].
  - cbn. rewrite Hc. reflexivity.
  - cbn [append Js.trimStart]. destruct (Js.isWhiteSpace a); [exact IH|].
    apply (trimEnd_app_white (String a h) c Hc).
Qed.

Lemma splitLines_whole s : hasLF s = false -> Js.splitLines s = [s].
Proof.
  induction s as [| c | c d s IH1 IH2] using string_ind2; intros H.
  - reflexivity.
  - cbn [hasLF] in H. apply orb_false_elim in H. destruct H as [Ec _].
    rewrite splitLines_cons1, Ec. reflexivity.
  - cbn [hasLF] in H. apply orb_false_elim in H. destruct H as [Ec H].
    assert (Ed : Ascii.eqb d Js.LF = false).
    { cbn [hasLF] in H. apply orb_false_elim in H. tauto. }
    rewrite splitLines_cons2, Ec, Ed, andb_false_r, (IH2 H). reflexivity.
Qed.

Lemma parseLines_whole l : cleanLine l = true -> parseLines l = [l].
Proof.
  intros H. apply cleanLine_spec in H. destruct H as (Ht & Hk & Hlf).
  unfold parseLines. rewrite splitLines_whole by exact Hlf.
  cbn [map filter]. rewrite Ht, Hk. reflexivity.
Qed.

(** A line feed put after a text closes its last line: the pieces before
    stay, and the last piece loses at most a carriage return. *)
Lemma splitLines_nl a :
  exists P q q',
    Js.splitLines a = (P ++ [q])%list /\
    Js.splitLines (a ++ nl) = (P ++ [q'; EmptyString])%list /\
    (q = q' \/ q = q' ++ String Js.CR EmptyString).
Proof.
  induction a as [| c | c d a IH1 IH2] using string_ind2.
  - exists [], EmptyString, EmptyString. split; [reflexivity | split; [reflexivity | left; reflexivity]].
  - unfold nl. cbn [append]. rewrite splitLines_cons1, splitLines_cons2.
    destruct (Ascii.eqb c Js.LF) eqn:Ec.
    + exists [EmptyString], EmptyString, EmptyString. split; [reflexivity | split; [reflexivity | left; reflexivity]].
    + rewrite Ascii.eqb_refl, andb_true_r.
      destruct (Ascii.eqb c Js.CR) eqn:Er.
      * apply Ascii.eqb_eq in Er. subst c.
        exists [], (String Js.CR EmptyString), EmptyString.
        split; [reflexivity | split; [reflexivity | right; reflexivity]].
      * exists [], (String c EmptyString), (String c EmptyString).
        split; [reflexivity | split; [reflexivity | left; reflexivity]].
  - destruct IH1 as (P1 & q1 & q1' & H1 & H1' & R1).
    destruct IH2 as (P2 & q2 & q2' & H2 & H2' & R2).
    cbn [append] in H2' |- *. rewrite !splitLines_cons2.
    destruct (Ascii.eqb c Js.LF) eqn:Ec.
    + exists (EmptyString :: P2), q2, q2'. rewrite H2, H2'. split; [reflexivity | split; [reflexivity | exact R2]].
    + destruct (Ascii.eqb c Js.CR && Ascii.eqb d Js.LF) eqn:Ecd.
      * exists (EmptyString :: P1), q1, q1'. rewrite H1, H1'. split; [reflexivity | split; [reflexivity | exact R1]].
      * rewrite H2, H2'. destruct P2 as [|p P2].
        -- exists [], (String c q2), (String c q2'). split; [reflexivity | split; [reflexivity|]].
           destruct R2 as [-> | ->]; [left | right]; reflexivity.
        -- exists (String c p :: P2), q2, q2'. split; [reflexivity | split; [reflexivity | exact R2]].
Qed.

Lemma parseLines_nl a : parseLines (a ++ nl) = parseLines a.
Proof.
  destruct (splitLines_nl a) as (P & q & q' & H & H' & R).
  unfold parseLines. rewrite H, H', !map_app, !filter_app. f_equal.
  assert (Ht : Js.trim q = Js.trim q').
  { destruct R as [-> | ->]; [reflexivity|]. apply trim_app_white. reflexivity. }
  cbn [map filter]. rewrite Ht.
  change (keepLine (Js.trim EmptyString)) with false.
  reflexivity.
Qed.

(** What [readLines] gives back for lines written by [writeLines]. *)
Lemma parseLines_join_any ls : parseLines (Js.join ls ++ nl) = asRead ls.
Proof.
  induction ls as [|l ls IH]; [reflexivity|].
  destruct ls as [|l2 ls].
  - cbn [Js.join asRead flat_map]. rewrite app_nil_r. apply parseLines_nl.
  - change (Js.join (l :: l2 :: ls)) with (l ++ nl ++ Js.join (l2 :: ls)).
    rewrite <- !append_assoc, (append_assoc (l ++ nl)).
    rewrite parseLines_app.
    + rewrite parseLines_nl, IH. reflexivity.
    + rewrite <- (append_nil_r l) at 1. rewrite append_assoc.
      apply (terminated_append l EmptyString).
Qed.

Lemma asRead_clean ls :
  Forall (fun l => cleanLine l = true) ls -> asRead ls = ls.
Proof.
  induction 1 as [|l ls Hl _ IH]; [reflexivity|].
  cbn [asRead flat_map]. rewrite (parseLines_whole l Hl). cbn [app].
  f_equal. exact IH.
Qed.

Lemma asRead_app a b : asRead (a ++ b) = (asRead a ++ asRead b)%list.
Proof. apply flat_map_app. Qed.

(** ** The disk *)

Lemma File_eqb_refl f : File_eqb f f = true.
Proof. destruct f; reflexivity. Qed.

Lemma File_eqb_eq f g : File_eqb f g = true <-> f = g.
Proof. destruct f, g; cbn; split; congruence. Qed.

Lemma File_eqb_neq f g : f <> g -> File_eqb f g = false.
Proof.
  intros H. destruct (File_eqb f g) eqn:E; [|reflexivity].
  apply File_eqb_eq in E. contradiction.
Qed.

Lemma content_write_same f text d : content (writeFileSync f text d) f = Some text.
Proof. cbn. rewrite File_eqb_refl. reflexivity. Qed.

Lemma content_write_other f g text d :
  g <> f -> content (writeFileSync f text d) g = content d g.
Proof. intros H. cbn. rewrite (File_eqb_neq g f H). reflexivity. Qed.

Lemma readLines_write_same f text d :
  readLines f (writeFileSync f text d) = parseLines text.
Proof.
  unfold readLines, existsSync, readFileSync.
  rewrite content_write_same. reflexivity.
Qed.

Lemma readLines_write_other f g text d :
  g <> f -> readLines g (writeFileSync f text d) = readLines g d.
Proof.
  intros H. unfold readLines, existsSync, readFileSync.
  rewrite (content_write_other f g text d H). reflexivity.
Qed.

Lemma readLines_parse f d : readLines f d = parseLines (readFileSync f d).
Proof.
  unfold readLines, existsSync, readFileSync.
  destruct (content d f); reflexivity.
Qed.

Lemma readLines_clean f d : Forall (fun l => cleanLine l = true) (readLines f d).
Proof. rewrite readLines_parse. apply parseLines_clean. Qed.

Lemma readLines_writeLines_same f ls d :
  Forall (fun l => cleanLine l = true) ls -> readLines f (writeLines f ls d) = ls.
Proof.
  intros H. unfold writeLines. rewrite readLines_write_same.
  apply parseLines_join, H.
Qed.

Lemma readLines_writeLines_any f ls d :
  readLines f (writeLines f ls d) = asRead ls.
Proof. unfold writeLines. rewrite readLines_write_same. apply parseLines_join_any. Qed.

Lemma appendLine_write f line e d :
  appendLine f line e d =
  writeFileSync f (readFileSync f d ++ appended line e ++ nl) d.
Proof.
  unfold appendLine, appended, existsSync, readFileSync.
  destruct (content d f); reflexivity.
Qed.

Lemma readLines_appendLine_same f line d :
  terminated (readFileSync f d) = true -> cleanLine line = true ->
  readLines f (appendLine f line None d) = (readLines f d ++ [line])%list.
Proof.
  intros Ht Hc. rewrite appendLine_write, readLines_write_same.
  rewrite parseLines_app by exact Ht. rewrite <- readLines_parse.
  cbn [appended]. rewrite <- (append_nil_r (line ++ nl)), append_assoc.
  rewrite parseLines_line by exact Hc. reflexivity.
Qed.

Lemma readLines_appendLine_other f g line e d :
  g <> f -> readLines g (appendLine f line e d) = readLines g d.
Proof. intros H. rewrite appendLine_write. apply readLines_write_other, H. Qed.

Lemma removeFirstLineFromQueue_cons d isbn rest :
  readLines QUEUE_FILE d = isbn :: rest ->
  removeFirstLineFromQueue d = writeLines QUEUE_FILE rest d.
Proof. intros H. unfold removeFirstLineFromQueue. rewrite H. reflexivity. Qed.

(** ** Error records *)

Lemma hasLF_app a b : hasLF (a ++ b) = hasLF a || hasLF b.
Proof.
  induction a as [|c a IH]; [reflexivity|].
  cbn [append hasLF]. rewrite IH, orb_assoc. reflexivity.
Qed.

(** The first piece of a text starts with any prefix of the text that has no
    line feed and does not end in a carriage return. *)
Lemma splitLines_prefix p s :
  hasLF p = false -> endsWithCR p = false ->
  exists q rest, Js.splitLines (p ++ s) = (p ++ q) :: rest.
Proof.
  induction p as [|c p IH]; intros Hlf Hcr.
  - cbn [append]. pose proof (splitLines_nonempty s) as Hne.
    destruct (Js.splitLines s) as [|q rest]; [congruence|]. eauto.
  - cbn [hasLF] in Hlf. apply orb_false_elim in Hlf. destruct Hlf as [Ec Hlf].
    destruct p as [|d p].
    + unfold endsWithCR in Hcr. cbn [lastChar] in Hcr. cbn [append].
      destruct s as [|d s].
      * rewrite splitLines_cons1, Ec. exists EmptyString, []. reflexivity.
      * rewrite splitLines_cons2, Ec, Hcr. cbn [andb].
        pose proof (splitLines_nonempty (String d s)) as Hne.
        destruct (Js.splitLines (String d s)) as [|q rest]; [congruence|].
        exists q, rest. reflexivity.
    + assert (Ed : Ascii.eqb d Js.LF = false).
      { cbn [hasLF] in Hlf. apply orb_false_elim in Hlf. tauto. }
      destruct (IH Hlf Hcr) as (q & rest & E). cbn [append] in E |- *.
      rewrite splitLines_cons2, Ec, Ed, andb_false_r, E.
      exists q, rest. reflexivity.
Qed.

Lemma prefix_app p q : String.prefix p (p ++ q) = true.
Proof.
  induction p as [|c p IH]; [destruct q; reflexivity|].
  cbn. destruct (ascii_dec c c); [exact IH | congruence].
Qed.

Lemma trim_black_nonempty c s :
  Js.isWhiteSpace c = false -> Js.isEmpty (Js.trim (String c s)) = false.
Proof.
  intros H. unfold Js.trim. cbn [Js.trimStart]. rewrite H.
  cbn [Js.trimEnd]. rewrite H. reflexivity.
Qed.

Lemma cleanLine_black l :
  cleanLine l = true ->
  exists c s, l = String c s /\ Js.isWhiteSpace c = false.
Proof.
  intros H. apply cleanLine_spec in H. destruct H as (Ht & Hk & _).
  destruct l as [|c s]; [discriminate Hk|].
  exists c, s. split; [reflexivity|].
  pose proof (trimStart_startsBlack (String c s)) as Hb.
  destruct (Js.isWhiteSpace c) eqn:E; [|reflexivity].
  exfalso. unfold Js.trim in Ht.
  assert (Hs : startsBlack (Js.trimEnd (Js.trimStart (String c s))) = true)
    by (apply trimEnd_startsBlack, Hb).
  rewrite Ht in Hs. cbn in Hs. rewrite E in Hs. discriminate.
Qed.

Lemma errorLines_write text d :
  errorLines (writeFileSync ERRORS_FILE text d) =
  filter nonBlank (Js.splitLines text).
Proof.
  unfold errorLines, existsSync, readFileSync.
  rewrite content_write_same. reflexivity.
Qed.

Lemma errorLines_write_other f text d :
  f <> ERRORS_FILE -> errorLines (writeFileSync f text d) = errorLines d.
Proof.
  intros H. unfold errorLines, existsSync, readFileSync.
  rewrite content_write_other by congruence. reflexivity.
Qed.

(** After an error record is appended, the errors file has a line that
    starts with the identifier and the separator. *)
Lemma recorded_error_append isbn msg d :
  cleanLine isbn = true -> terminated (readFileSync ERRORS_FILE d) = true ->
  existsb (fun l => Js.startsWith l (isbn ++ " # "))
          (errorLines (appendLine ERRORS_FILE isbn (orUnknownError msg) d)) = true.
Proof.
  intros Hc Ht. rewrite appendLine_write, errorLines_write.
  assert (Happ : exists m, appended isbn (orUnknownError msg) = (isbn ++ " # ") ++ m).
  { unfold orUnknownError, appended, truthy.
    destruct msg as [m|]; [destruct m as [|x m]|]; cbn;
      eexists; rewrite append_assoc; reflexivity. }
  destruct Happ as (m & ->).
  assert (Hlf : hasLF (isbn ++ " # ") = false).
  { rewrite hasLF_app. apply cleanLine_spec in Hc.
    destruct Hc as (_ & _ & ->). reflexivity. }
  assert (Hcr : endsWithCR (isbn ++ " # ") = false).
  { unfold endsWithCR. rewrite lastChar_app. reflexivity. }
  remember (isbn ++ " # ") as key eqn:Hkey.
  destruct (splitLines_prefix key (m ++ nl) Hlf Hcr) as (q & rest & E).
  assert (Hsplit : exists P, Js.splitLines
            (readFileSync ERRORS_FILE d ++ (key ++ m) ++ nl)
            = (P ++ (key ++ q)%string :: rest)%list).
  { rewrite (append_assoc key m nl).
    destruct (terminated_inv _ Ht) as [-> | (a0 & ->)].
    - exists []. exact E.
    - destruct (splitLines_app_LF a0) as (P & _ & HP). exists P.
      unfold nl at 1. rewrite (append_assoc a0). cbn [append].
      rewrite HP, E. reflexivity. }
  destruct Hsplit as (P & ->).
  apply existsb_exists. exists (key ++ q). split.
  - apply filter_In. split; [apply in_or_app; right; left; reflexivity|].
    destruct (cleanLine_black isbn Hc) as (c & s & -> & Hw).
    subst key. unfold nonBlank. cbn [append].
    rewrite trim_black_nonempty by exact Hw. reflexivity.
  - apply prefix_app.
Qed.

(** ** Recording a result *)

Lemma Array_includes_In a x : Array_includes a x = true <-> In x a.
Proof.
  unfold Array_includes. rewrite existsb_exists. split.
  - intros (y & Hy & E). apply String.eqb_eq in E. subst. exact Hy.
  - intros H. exists x. split; [exact H | apply String.eqb_refl].
Qed.

Lemma ledgerFile_not_queue status : ledgerFile status <> QUEUE_FILE.
Proof. destruct status; discriminate. Qed.

Lemma recordResult_steps isbn status e d :
  recordResult isbn status e d =
  removeFirstLineFromQueue
    (writeFileSync (ledgerFile status)
       (readFileSync (ledgerFile status) d
        ++ appended isbn (ledgerMessage status e) ++ nl) d).
Proof.
  destruct status; unfold recordResult; rewrite appendLine_write; reflexivity.
Qed.

Lemma newWrites_two d a b :
  skipn (List.length (journal d)) ((journal d ++ [a]) ++ [b])%list = [a; b].
Proof.
  rewrite <- app_assoc. rewrite skipn_app, skipn_all, Nat.sub_diag. reflexivity.
Qed.

(** The ledger write of [recordResult] leaves the identifier recorded. *)
Lemma recorded_after_append isbn status e d :
  cleanLine isbn = true ->
  terminated (readFileSync (ledgerFile status) d) = true ->
  recorded status isbn
    (writeFileSync (ledgerFile status)
       (readFileSync (ledgerFile status) d
        ++ appended isbn (ledgerMessage status e) ++ nl) d) = true.
Proof.
  intros Hc Ht.
  destruct status; cbn [recorded];
    try (rewrite <- (appendLine_write _ isbn None d);
         rewrite readLines_appendLine_same by assumption;
         apply Array_includes_In, in_or_app; right; left; reflexivity).
  - rewrite <- appendLine_write. apply recorded_error_append; assumption.
  - rewrite <- appendLine_write. apply recorded_error_append; assumption.
Qed.

Lemma recorded_write_queue status isbn text d :
  recorded status isbn (writeFileSync QUEUE_FILE text d) = recorded status isbn d.
Proof.
  destruct status; cbn [recorded ledgerFile];
    try (rewrite readLines_write_other by discriminate; reflexivity);
    rewrite errorLines_write_other by discriminate; reflexivity.
Qed.

(** C1: [recordResult] makes exactly two durable writes, the ledger of the
    outcome first (the old text followed by the record of the identifier)
    and the queue without its head second.  After the first write alone the
    identifier is recorded and still at the head of the queue; after both it
    is recorded and gone from the queue; so whatever number of these writes
    reaches the disk before a crash, the identifier is recorded or still
    queued. *)
Theorem recordResult_record_then_dequeue isbn status errorMessage d rest :
  readLines QUEUE_FILE d = isbn :: rest ->
  terminated (readFileSync (ledgerFile status) d) = true ->
  let d' := recordResult isbn status errorMessage d in
  let writes := newWrites d d' in
  writes =
    [ (ledgerFile status,
       readFileSync (ledgerFile status) d
       ++ appended isbn (ledgerMessage status errorMessage) ++ nl);
      (QUEUE_FILE, Js.join rest ++ nl) ] /\
  d' = replay d writes /\
  (recorded status isbn (crashAfter 1 d writes) = true /\
   readLines QUEUE_FILE (crashAfter 1 d writes) = isbn :: rest) /\
  (recorded status isbn d' = true /\ readLines QUEUE_FILE d' = rest) /\
  forall k, recorded status isbn (crashAfter k d writes) = true \/
            queued isbn (crashAfter k d writes) = true.
Proof.
  intros Hq Ht d' writes.
  pose proof (readLines_clean QUEUE_FILE d) as Hclean. rewrite Hq in Hclean.
  inversion Hclean as [|? ? Hisbn Hrest]; subst.
  set (ledgerText := readFileSync (ledgerFile status) d
        ++ appended isbn (ledgerMessage status errorMessage) ++ nl) in *.
  set (mid := writeFileSync (ledgerFile status) ledgerText d).
  assert (Hmidq : readLines QUEUE_FILE mid = isbn :: rest).
  { unfold mid. rewrite readLines_write_other; [exact Hq|].
    intros E. symmetry in E. exact (ledgerFile_not_queue status E). }
  assert (Hd' : d' = writeFileSync QUEUE_FILE (Js.join rest ++ nl) mid).
  { unfold d'. rewrite recordResult_steps. fold ledgerText. fold mid.
    rewrite (removeFirstLineFromQueue_cons mid isbn rest Hmidq). reflexivity. }
  assert (Hw : writes = [(ledgerFile status, ledgerText);
                         (QUEUE_FILE, Js.join rest ++ nl)]).
  { unfold writes, newWrites. rewrite Hd'. cbn [journal writeFileSync mid].
    apply newWrites_two. }
  assert (Hrec : recorded status isbn mid = true)
    by (apply recorded_after_append; assumption).
  assert (Hrec' : recorded status isbn d' = true)
    by (rewrite Hd', recorded_write_queue; exact Hrec).
  split; [exact Hw|]. rewrite Hw.
  split; [exact Hd'|].
  split; [split; [exact Hrec | exact Hmidq]|].
  split.
  - split; [exact Hrec'|]. rewrite Hd'.
    fold (writeLines QUEUE_FILE rest mid).
    apply readLines_writeLines_same, Hrest.
  - intros [|[|k]].
    + right. cbn. apply Array_includes_In. rewrite Hq. left. reflexivity.
    + left. exact Hrec.
    + left. unfold crashAfter. cbn [firstn]. rewrite firstn_nil.
      cbn [replay fold_left fst snd]. fold mid. rewrite <- Hd'. exact Hrec'.
Qed.

(** ** Building the queue *)

Lemma length_pos_false {A} (l : list A) :
  (0 <? List.length l)%nat = false -> l = [].
Proof. destruct l; [reflexivity | discriminate]. Qed.

Lemma initializeQueue_queue inputIsbns d :
  fst (initializeQueue inputIsbns d) = (cleanedQueue d ++ newIsbns inputIsbns d)%list.
Proof.
  unfold initializeQueue, newIsbns, cleanedQueue, unprocessed.
  set (cleaned := filter _ (readLines QUEUE_FILE d)).
  destruct (0 <? List.length cleaned)%nat eqn:Ec.
  - set (new := filter _ inputIsbns).
    destruct (0 <? List.length new)%nat eqn:En.
    + reflexivity.
    + apply length_pos_false in En. rewrite En, app_nil_r.
      destruct (negb _); reflexivity.
  - apply length_pos_false in Ec. rewrite Ec. cbn [app Array_includes existsb negb].
    match goal with |- context [(0 <? List.length ?l)%nat] => set (new := l) end.
    assert (E : filter (fun isbn => negb (Set_has (getProcessedIsbns d) isbn) && true)
                       inputIsbns = new).
    { apply filter_ext. intros x. apply andb_true_r. }
    rewrite E.
    destruct (0 <? List.length new)%nat eqn:En.
    + reflexivity.
    + apply length_pos_false in En. rewrite En. reflexivity.
Qed.

(** [initializeQueue] writes nothing but the queue file, and at most once. *)
Lemma initializeQueue_disk inputIsbns d :
  snd (initializeQueue inputIsbns d) = d \/
  snd (initializeQueue inputIsbns d)
  = writeLines QUEUE_FILE (fst (initializeQueue inputIsbns d)) d.
Proof.
  unfold initializeQueue.
  repeat match goal with
         | |- context [if ?b then _ else _] => destruct b
         end; cbn [fst snd]; auto.
Qed.

Lemma initializeQueue_other_file inputIsbns d f :
  f <> QUEUE_FILE ->
  content (snd (initializeQueue inputIsbns d)) f = content d f.
Proof.
  intros H. destruct (initializeQueue_disk inputIsbns d) as [-> | ->].
  - reflexivity.
  - unfold writeLines. apply content_write_other, H.
Qed.

Lemma filter_length_eq {A} (f : A -> bool) l :
  List.length (filter f l) = List.length l -> filter f l = l.
Proof.
  induction l as [|x l IH]; [reflexivity|]. cbn. destruct (f x); cbn.
  - intros H. f_equal. apply IH. lia.
  - intros H. pose proof (filter_length_le f l). lia.
Qed.

(** A queue that is not empty is the one on the disk afterwards. *)
Lemma initializeQueue_persisted inputIsbns d :
  Forall (fun l => cleanLine l = true) inputIsbns ->
  fst (initializeQueue inputIsbns d) <> [] ->
  readLines QUEUE_FILE (snd (initializeQueue inputIsbns d))
  = fst (initializeQueue inputIsbns d).
Proof.
  intros Hin Hne.
  assert (Hclean : Forall (fun l => cleanLine l = true)
                          (fst (initializeQueue inputIsbns d))).
  { rewrite initializeQueue_queue. apply Forall_app. split.
    - apply Forall_forall. intros x Hx. apply filter_In in Hx.
      pose proof (readLines_clean QUEUE_FILE d) as H.
      rewrite Forall_forall in H. apply H, Hx.
    - apply Forall_forall. intros x Hx. apply filter_In in Hx.
      rewrite Forall_forall in Hin. apply Hin, Hx. }
  revert Hne Hclean. unfold initializeQueue.
  set (cleaned := filter _ (readLines QUEUE_FILE d)).
  destruct (0 <? List.length cleaned)%nat eqn:Ec.
  - set (new := filter _ inputIsbns).
    destruct (0 <? List.length new)%nat eqn:En.
    + cbn [fst snd]. intros _ H. apply readLines_writeLines_same, H.
    + destruct (negb (List.length cleaned
                      =? List.length (readLines QUEUE_FILE d))%nat) eqn:El.
      * cbn [fst snd]. intros _ H. apply readLines_writeLines_same, H.
      * cbn [fst snd]. intros _ _. apply negb_false_iff, Nat.eqb_eq in El.
        symmetry. apply filter_length_eq, El.
  - set (new := filter _ inputIsbns).
    destruct (0 <? List.length new)%nat eqn:En.
    + cbn [fst snd]. intros _ H. apply readLines_writeLines_same, H.
    + cbn [fst snd]. congruence.
Qed.

Lemma Set_has_In s x : Set_has s x = true <-> In x s.
Proof. apply Array_includes_In. Qed.

Lemma unprocessed_spec d x :
  unprocessed d x = true <->
  ~ In x (readLines ADDED_FILE d) /\ ~ In x (readLines ALREADY_EXISTS_FILE d)
  /\ ~ In x (readLines NOT_FOUND_FILE d).
Proof.
  unfold unprocessed, getProcessedIsbns. rewrite negb_true_iff.
  rewrite <- not_true_iff_false, Set_has_In, !in_app_iff. tauto.
Qed.

Lemma In_initializeQueue inputIsbns d x :
  In x (fst (initializeQueue inputIsbns d)) <->
  unprocessed d x = true /\ (In x (readLines QUEUE_FILE d) \/ In x inputIsbns).
Proof.
  rewrite initializeQueue_queue. unfold newIsbns, cleanedQueue.
  rewrite in_app_iff, !filter_In, andb_true_iff, negb_true_iff.
  rewrite <- not_true_iff_false, Array_includes_In, filter_In.
  destruct (in_dec string_dec x (readLines QUEUE_FILE d)); tauto.
Qed.

Lemma initializeQueue_nil inputIsbns d :
  fst (initializeQueue inputIsbns d) = [] -> snd (initializeQueue inputIsbns d) = d.
Proof.
  unfold initializeQueue.
  set (cleaned := filter _ (readLines QUEUE_FILE d)).
  destruct (0 <? List.length cleaned)%nat eqn:Ec.
  - assert (Hne : cleaned <> []) by (intros E; rewrite E in Ec; discriminate).
    set (new := filter _ inputIsbns).
    destruct (0 <? List.length new)%nat.
    + cbn [fst snd]. intros E. apply app_eq_nil in E. tauto.
    + destruct (negb _); cbn [fst snd]; [congruence | reflexivity].
  - set (new := filter _ inputIsbns).
    destruct (0 <? List.length new)%nat eqn:En; cbn [fst snd]; [|reflexivity].
    intros E. rewrite E in En. discriminate.
Qed.

Lemma cleanedQueue_clean d : Forall (fun l => cleanLine l = true) (cleanedQueue d).
Proof.
  unfold cleanedQueue. apply Forall_forall. intros x Hx. apply filter_In in Hx.
  pose proof (readLines_clean QUEUE_FILE d) as H.
  rewrite Forall_forall in H. apply H, Hx.
Qed.

(** The queue file after [initializeQueue] has answered a queue that is not
    empty: the queue that was kept, and the new identifiers as they are read
    back. *)
Lemma initializeQueue_read_back inputIsbns d :
  fst (initializeQueue inputIsbns d) <> [] ->
  readLines QUEUE_FILE (snd (initializeQueue inputIsbns d))
  = (cleanedQueue d ++ asRead (newIsbns inputIsbns d))%list.
Proof.
  intros Hne.
  assert (Hq := initializeQueue_queue inputIsbns d).
  destruct (initializeQueue_disk inputIsbns d) as [E | E].
  - revert Hne Hq E. unfold initializeQueue.
    fold (unprocessed d). fold (cleanedQueue d).
    destruct (0 <? List.length (cleanedQueue d))%nat eqn:Ec.
    + match goal with |- context [filter ?f inputIsbns] => set (new := filter f inputIsbns) end.
      destruct (0 <? List.length new)%nat eqn:En.
      * cbn [fst snd]. intros _ _ E. exfalso.
        apply (f_equal journal) in E. cbn in E.
        apply (f_equal (@List.length _)) in E. rewrite length_app in E. cbn in E. lia.
      * destruct (negb (List.length (cleanedQueue d)
                        =? List.length (readLines QUEUE_FILE d))%nat) eqn:El.
        -- cbn [fst snd]. intros _ _ E. exfalso.
           apply (f_equal journal) in E. cbn in E.
           apply (f_equal (@List.length _)) in E. rewrite length_app in E. cbn in E. lia.
        -- cbn [fst snd]. intros _ Hq _.
           apply negb_false_iff, Nat.eqb_eq in El.
           assert (Hnew : newIsbns inputIsbns d = []).
           { apply (app_inv_head (cleanedQueue d)). rewrite app_nil_r. symmetry. exact Hq. }
           rewrite Hnew. cbn. rewrite app_nil_r. symmetry.
           apply filter_length_eq, El.
    + match goal with |- context [filter ?f inputIsbns] => set (new := filter f inputIsbns) end.
      destruct (0 <? List.length new)%nat eqn:En.
      * cbn [fst snd]. intros _ _ E. exfalso.
        apply (f_equal journal) in E. cbn in E.
        apply (f_equal (@List.length _)) in E. rewrite length_app in E. cbn in E. lia.
      * cbn [fst snd]. congruence.
  - rewrite E, readLines_writeLines_any, Hq, asRead_app.
    rewrite (asRead_clean _ (cleanedQueue_clean d)). reflexivity.
Qed.

Lemma newIsbns_unclean inputIsbns d x :
  cleanLine x = false -> In x inputIsbns -> In x (newIsbns inputIsbns d).
Proof.
  intros Hx Hin. unfold newIsbns. apply filter_In. split; [exact Hin|].
  assert (Hnot : forall f, ~ In x (readLines f d)).
  { intros f H. pose proof (readLines_clean f d) as Hc.
    rewrite Forall_forall in Hc. rewrite (Hc x H) in Hx. discriminate. }
  apply andb_true_iff. split.
  - apply unprocessed_spec. repeat split; apply Hnot.
  - apply negb_true_iff, not_true_iff_false. rewrite Array_includes_In.
    unfold cleanedQueue. rewrite filter_In. intros [H _]. exact (Hnot _ H).
Qed.

(** C3 (amended): the queue that [initializeQueue] returns is the persisted
    queue without the identifiers that have an Added, AlreadyExists or
    NotFound entry, followed by the supplied identifiers that have no such
    entry and are not already in it, each compared as it was supplied.  No
    identifier with one of these three entries is in the answer, every other
    supplied or pending identifier is, and the ledger files are left alone.
    When the answer is not empty the queue file afterwards reads as the queue
    that was kept followed by the new identifiers as [readLines] reads them
    back; that is the answer itself when the supplied identifiers are
    well-formed lines.  A supplied identifier that is not a well-formed line
    (an argument with blanks around it) matches no entry and no queue line:
    it is always enqueued, and what is read back of it is in the queue file,
    whatever the ledgers hold. *)
Theorem initializeQueue_merge_purge inputIsbns d :
  let queue := fst (initializeQueue inputIsbns d) in
  let d' := snd (initializeQueue inputIsbns d) in
  queue = (cleanedQueue d ++ newIsbns inputIsbns d)%list /\
  (forall x, In x queue ->
     ~ In x (readLines ADDED_FILE d) /\
     ~ In x (readLines ALREADY_EXISTS_FILE d) /\
     ~ In x (readLines NOT_FOUND_FILE d)) /\
  (forall x, In x inputIsbns \/ In x (readLines QUEUE_FILE d) ->
     In x queue \/ Set_has (getProcessedIsbns d) x = true) /\
  (forall f, f <> QUEUE_FILE -> content d' f = content d f) /\
  (queue <> [] ->
   readLines QUEUE_FILE d'
   = (cleanedQueue d ++ asRead (newIsbns inputIsbns d))%list) /\
  (queue <> [] -> Forall (fun l => cleanLine l = true) inputIsbns ->
   readLines QUEUE_FILE d' = queue) /\
  (forall x, In x inputIsbns -> cleanLine x = false ->
     In x queue /\
     forall l, In l (parseLines x) -> In l (readLines QUEUE_FILE d')).
Proof.
  intros queue d'. subst queue d'.
  split; [apply initializeQueue_queue|].
  split; [|split; [|split; [|split; [|split]]]].
  - intros x Hx. apply In_initializeQueue in Hx.
    apply unprocessed_spec. tauto.
  - intros x Hx.
    destruct (Set_has (getProcessedIsbns d) x) eqn:E; [right; reflexivity|].
    left. apply In_initializeQueue. unfold unprocessed. rewrite E. tauto.
  - intros f Hf. apply initializeQueue_other_file, Hf.
  - apply initializeQueue_read_back.
  - intros Hne Hclean. apply initializeQueue_persisted; assumption.
  - intros x Hin Hx.
    pose proof (newIsbns_unclean inputIsbns d x Hx Hin) as Hnew.
    assert (Hq : In x (fst (initializeQueue inputIsbns d))).
    { rewrite initializeQueue_queue. apply in_or_app. right. exact Hnew. }
    split; [exact Hq|]. intros l Hl.
    rewrite initializeQueue_read_back.
    + apply in_or_app. right. unfold asRead. apply in_flat_map.
      exists x. split; assumption.
    + intros E. rewrite E in Hq. exact Hq.
Qed.

Lemma count_occ_filter_true (f : string -> bool) l x :
  f x = true -> count_occ string_dec (filter f l) x = count_occ string_dec l x.
Proof.
  intros Hf. induction l as [|y l IH]; [reflexivity|].
  cbn [filter count_occ]. destruct (string_dec y x) as [->|Hne].
  - rewrite Hf. cbn [count_occ]. destruct (string_dec x x); congruence.
  - destruct (f y); [cbn [count_occ]; destruct (string_dec y x); congruence | exact IH].
Qed.

(** C10: an identifier that has no Added, AlreadyExists or NotFound entry
    and is not in the persisted queue is enqueued as many times as the input
    lists it, in the returned queue and in the queue file alike. *)
Theorem initializeQueue_keeps_duplicates inputIsbns d x :
  Forall (fun l => cleanLine l = true) inputIsbns ->
  unprocessed d x = true ->
  ~ In x (readLines QUEUE_FILE d) ->
  count_occ string_dec (fst (initializeQueue inputIsbns d)) x
  = count_occ string_dec inputIsbns x /\
  count_occ string_dec (readLines QUEUE_FILE (snd (initializeQueue inputIsbns d))) x
  = count_occ string_dec inputIsbns x.
Proof.
  intros Hclean Hun Hnq.
  assert (Hfst : count_occ string_dec (fst (initializeQueue inputIsbns d)) x
                 = count_occ string_dec inputIsbns x).
  { rewrite initializeQueue_queue, count_occ_app.
    assert (Hc : ~ In x (cleanedQueue d)).
    { unfold cleanedQueue. rewrite filter_In. tauto. }
    rewrite (proj1 (count_occ_not_In string_dec _ _) Hc). cbn [Nat.add].
    unfold newIsbns. apply count_occ_filter_true.
    rewrite Hun. cbn [andb]. apply negb_true_iff, not_true_iff_false.
    rewrite Array_includes_In. exact Hc. }
  split; [exact Hfst|].
  destruct (fst (initializeQueue inputIsbns d)) as [|y q] eqn:Eq.
  - rewrite <- Hfst. cbn [count_occ].
    apply count_occ_not_In.
    destruct (initializeQueue_disk inputIsbns d) as [-> | ->]; [exact Hnq|].
    rewrite Eq, readLines_writeLines_same by constructor. intros [].
  - rewrite initializeQueue_persisted; [| exact Hclean | rewrite Eq; discriminate].
    rewrite Eq. exact Hfst.
Qed.

(** ** Unknown results *)

Lemma length_append (a b : string) :
  String.length (a ++ b) = String.length a + String.length b.
Proof. induction a as [|c a IH]; [reflexivity|]. cbn. rewrite IH. reflexivity. Qed.

Lemma removeFirstLineFromQueue_other d f :
  f <> QUEUE_FILE -> content (removeFirstLineFromQueue d) f = content d f.
Proof.
  intros H. unfold removeFirstLineFromQueue.
  destruct (0 <? List.length (readLines QUEUE_FILE d))%nat; [|reflexivity].
  unfold writeLines. apply content_write_other, H.
Qed.

Lemma appended_error isbn e :
  appended isbn (orUnknownError e) = isbn ++ " # " ++ messageOrDefault e.
Proof. destruct e as [[|c m]|]; reflexivity. Qed.

(** C9: an UNKNOWN result is written exactly as an ERROR result is: the old
    text of the errors file followed by the identifier, the separator [ # ],
    the message (the supplied one, or "Unknown error" when none is supplied)
    and a line feed.  No other ledger file changes, and the errors file
    never stays as it was. *)
Theorem recordResult_unknown_goes_to_errors isbn errorMessage d :
  let d' := recordResult isbn UNKNOWN errorMessage d in
  d' = recordResult isbn ERROR errorMessage d /\
  content d' ERRORS_FILE
  = Some (readFileSync ERRORS_FILE d
          ++ isbn ++ " # " ++ messageOrDefault errorMessage ++ nl) /\
  (forall f, f <> ERRORS_FILE -> f <> QUEUE_FILE -> content d' f = content d f) /\
  content d' ERRORS_FILE <> content d ERRORS_FILE.
Proof.
  intros d'. subst d'.
  assert (Hc : content (recordResult isbn UNKNOWN errorMessage d) ERRORS_FILE
               = Some (readFileSync ERRORS_FILE d
                       ++ isbn ++ " # " ++ messageOrDefault errorMessage ++ nl)).
  { rewrite recordResult_steps, removeFirstLineFromQueue_other by discriminate.
    cbn [ledgerFile ledgerMessage]. rewrite content_write_same, appended_error.
    rewrite !append_assoc. reflexivity. }
  split; [reflexivity|]. split; [exact Hc|]. split.
  - intros f Hf Hq.
    rewrite recordResult_steps, removeFirstLineFromQueue_other by exact Hq.
    apply content_write_other. exact Hf.
  - rewrite Hc. unfold readFileSync.
    destruct (content d ERRORS_FILE) as [old|]; [|discriminate].
    intros E. injection E as E. apply (f_equal String.length) in E.
    rewrite !length_append in E. cbn in E. lia.
Qed.

(** ** Conservation of identifiers during a run *)

Lemma splitLines_terminated a :
  terminated a = true ->
  exists P, Js.splitLines a = (P ++ [EmptyString])%list /\
            forall b, Js.splitLines (a ++ b) = (P ++ Js.splitLines b)%list.
Proof.
  intros H. destruct (terminated_inv a H) as [-> | (a0 & ->)].
  - exists []. split; reflexivity.
  - destruct (splitLines_app_LF a0) as (P & _ & HP). exists P. split.
    + unfold nl. rewrite HP. reflexivity.
    + intros b. unfold nl. rewrite append_assoc. cbn [append]. apply HP.
Qed.


Lemma errorLines_parse d :
  errorLines d = filter nonBlank (Js.splitLines (readFileSync ERRORS_FILE d)).
Proof.
  unfold errorLines, existsSync, readFileSync.
  destruct (content d ERRORS_FILE); reflexivity.
Qed.

Lemma readFileSync_write_same f text d : readFileSync f (writeFileSync f text d) = text.
Proof. unfold readFileSync. rewrite content_write_same. reflexivity. Qed.

Lemma readFileSync_write_other f g text d :
  g <> f -> readFileSync g (writeFileSync f text d) = readFileSync g d.
Proof. intros H. unfold readFileSync. rewrite content_write_other by exact H. reflexivity. Qed.

Lemma terminated_write f g a b d :
  terminated (readFileSync g d) = true ->
  terminated (readFileSync g (writeFileSync f (a ++ b ++ nl) d)) = true.
Proof.
  intros H. destruct (File_eqb g f) eqn:E.
  - apply File_eqb_eq in E. subst g. rewrite readFileSync_write_same.
    apply terminated_append.
  - rewrite readFileSync_write_other; [exact H|].
    intros ->. rewrite File_eqb_refl in E. discriminate.
Qed.

Lemma initializeQueue_emptyDisk inputIsbns :
  Forall (fun l => cleanLine l = true) inputIsbns ->
  plainHoldings (snd (initializeQueue inputIsbns emptyDisk)) = inputIsbns /\
  errorLines (snd (initializeQueue inputIsbns emptyDisk)) = [].
Proof.
  intros Hclean.
  assert (Hfst : fst (initializeQueue inputIsbns emptyDisk) = inputIsbns).
  { rewrite initializeQueue_queue. unfold newIsbns.
    change (cleanedQueue emptyDisk) with (@nil string). cbn [app].
    clear Hclean. induction inputIsbns as [|x l IH]; [reflexivity|].
    cbn [filter]. change (unprocessed emptyDisk x) with true.
    cbn. f_equal. exact IH. }
  assert (Hother : forall f, f <> QUEUE_FILE ->
            content (snd (initializeQueue inputIsbns emptyDisk)) f = None).
  { intros f Hf. rewrite initializeQueue_other_file by exact Hf. reflexivity. }
  split.
  - unfold plainHoldings, readLines at 2 3 4, existsSync.
    rewrite !Hother by discriminate. cbn [negb app]. rewrite app_nil_r.
    destruct inputIsbns as [|x l].
    + reflexivity.
    + rewrite <- Hfst at 2. apply initializeQueue_persisted; [exact Hclean|].
      rewrite Hfst. discriminate.
  - unfold errorLines, existsSync. rewrite Hother by discriminate. reflexivity.
Qed.

Lemma initializeQueue_terminatedLedgers inputIsbns d :
  terminatedLedgers d -> terminatedLedgers (snd (initializeQueue inputIsbns d)).
Proof.
  intros H status. unfold readFileSync.
  rewrite initializeQueue_other_file by apply ledgerFile_not_queue.
  apply H.
Qed.

Lemma readLines_same_content f d d' :
  content d' f = content d f -> readLines f d' = readLines f d.
Proof. intros E. unfold readLines, existsSync, readFileSync. rewrite E. reflexivity. Qed.

Lemma initializeQueue_ledgers inputIsbns d :
  let d' := snd (initializeQueue inputIsbns d) in
  readLines ADDED_FILE d' = readLines ADDED_FILE d /\
  readLines ALREADY_EXISTS_FILE d' = readLines ALREADY_EXISTS_FILE d /\
  readLines NOT_FOUND_FILE d' = readLines NOT_FOUND_FILE d /\
  errorLines d' = errorLines d.
Proof.
  intros d'. repeat split;
    try (apply readLines_same_content, initializeQueue_other_file; discriminate).
  unfold errorLines, existsSync, readFileSync. subst d'.
  rewrite initializeQueue_other_file by discriminate. reflexivity.
Qed.

Lemma recordResult_other isbn status e d f :
  f <> QUEUE_FILE -> f <> ledgerFile status ->
  content (recordResult isbn status e d) f = content d f.
Proof.
  intros Hq Hl. rewrite recordResult_steps.
  rewrite removeFirstLineFromQueue_other by exact Hq.
  apply content_write_other, Hl.
Qed.

Lemma recordResult_ledger isbn status e d :
  content (recordResult isbn status e d) (ledgerFile status)
  = Some (readFileSync (ledgerFile status) d
          ++ appended isbn (ledgerMessage status e) ++ nl).
Proof.
  rewrite recordResult_steps.
  rewrite removeFirstLineFromQueue_other by apply ledgerFile_not_queue.
  apply content_write_same.
Qed.

Lemma recordResult_terminatedLedgers isbn status e d :
  terminatedLedgers d -> terminatedLedgers (recordResult isbn status e d).
Proof.
  intros H s. unfold readFileSync.
  destruct (File_eqb (ledgerFile s) (ledgerFile status)) eqn:E.
  - apply File_eqb_eq in E. rewrite E, recordResult_ledger.
    apply terminated_append.
  - rewrite recordResult_other.
    + apply H.
    + apply ledgerFile_not_queue.
    + intros E'. rewrite E', File_eqb_refl in E. discriminate.
Qed.

Lemma recordResult_queue isbn status e d :
  readLines QUEUE_FILE (recordResult isbn status e d) = tl (readLines QUEUE_FILE d).
Proof.
  rewrite recordResult_steps.
  set (mid := writeFileSync _ _ d).
  assert (Hq : readLines QUEUE_FILE mid = readLines QUEUE_FILE d).
  { unfold mid. apply readLines_write_other.
    intros E. symmetry in E. exact (ledgerFile_not_queue status E). }
  pose proof (readLines_clean QUEUE_FILE d) as Hclean.
  destruct (readLines QUEUE_FILE d) as [|head rest] eqn:Eq.
  - unfold removeFirstLineFromQueue. rewrite Hq. exact Hq.
  - rewrite (removeFirstLineFromQueue_cons mid head rest Hq).
    inversion Hclean; subst. apply readLines_writeLines_same. assumption.
Qed.

Lemma errorsText_app a b : errorsText (a ++ b) = errorsText a ++ errorsText b.
Proof.
  induction a as [|e a IH]; [reflexivity|].
  cbn [app errorsText]. rewrite IH, !append_assoc. reflexivity.
Qed.




Ltac other_ledgers H :=
  try rewrite (proj1 (H ADDED_FILE ltac:(discriminate) ltac:(discriminate)));
  try rewrite (proj1 (H ALREADY_EXISTS_FILE ltac:(discriminate) ltac:(discriminate)));
  try rewrite (proj1 (H NOT_FOUND_FILE ltac:(discriminate) ltac:(discriminate))).

Lemma recordResult_moves isbn rest status e d :
  terminatedLedgers d ->
  readLines QUEUE_FILE d = isbn :: rest ->
  let d' := recordResult isbn status e d in
  terminatedLedgers d' /\
  exists new,
    readFileSync ERRORS_FILE d' = readFileSync ERRORS_FILE d ++ errorsText new /\
    Forall (fun x => cleanLine (fst x) = true) new /\
    forall x, count_occ string_dec (plainHoldings d' ++ map fst new) x
              = count_occ string_dec (plainHoldings d) x.
Proof.
  intros Hterm Hq.
  pose proof (readLines_clean QUEUE_FILE d) as Hclean. rewrite Hq in Hclean.
  inversion Hclean as [|? ? Hisbn Hrest]; subst.
  intros d'.
  assert (Hq' : readLines QUEUE_FILE d' = rest).
  { unfold d'. rewrite recordResult_queue, Hq. reflexivity. }
  assert (Hother : forall f, f <> QUEUE_FILE -> f <> ledgerFile status ->
            readLines f d' = readLines f d /\ readFileSync f d' = readFileSync f d).
  { intros f H1 H2.
    assert (Hc : content d' f = content d f) by (apply recordResult_other; assumption).
    split; [apply readLines_same_content, Hc | unfold readFileSync; rewrite Hc; reflexivity]. }
  assert (Hown : readFileSync (ledgerFile status) d'
                 = readFileSync (ledgerFile status) d
                   ++ appended isbn (ledgerMessage status e) ++ nl).
  { unfold readFileSync at 1. unfold d'. rewrite recordResult_ledger. reflexivity. }
  assert (Hplain : ledgerMessage status e = None ->
            readLines (ledgerFile status) d'
            = (readLines (ledgerFile status) d ++ [isbn])%list).
  { intros Hm. rewrite (readLines_parse _ d'), Hown, Hm. cbn [appended].
    rewrite parseLines_app by apply Hterm. rewrite <- readLines_parse.
    rewrite <- (append_nil_r (isbn ++ nl)), append_assoc.
    rewrite parseLines_line by exact Hisbn. reflexivity. }
  split; [apply recordResult_terminatedLedgers, Hterm|].
  clearbody d'. unfold plainHoldings. rewrite Hq', Hq.
  destruct status; cbn [ledgerFile ledgerMessage] in *.
  1-3: exists []; cbn [map errorsText]; rewrite app_nil_r, append_nil_r;
       (split; [apply Hother; discriminate|]); (split; [constructor|]);
       rewrite Hplain by reflexivity;
       other_ledgers Hother;
       intros x; rewrite !count_occ_app; cbn [count_occ];
       destruct (string_dec isbn x); lia.
  1-2: exists [(isbn, messageOrDefault e)]; cbn [map fst errorsText];
       (split; [rewrite Hown, appended_error; unfold errorRecord; cbn [fst snd];
                rewrite !append_assoc; reflexivity|]);
       (split; [repeat constructor; exact Hisbn|]);
       other_ledgers Hother;
       intros x; rewrite !count_occ_app; cbn [count_occ];
       destruct (string_dec isbn x); lia.
Qed.

Lemma itemBoundary_conservation d1 d :
  terminatedLedgers d1 -> itemBoundary d1 d ->
  terminatedLedgers d /\
  exists new,
    readFileSync ERRORS_FILE d = readFileSync ERRORS_FILE d1 ++ errorsText new /\
    Forall (fun x => cleanLine (fst x) = true) new /\
    forall x, count_occ string_dec (plainHoldings d ++ map fst new) x
              = count_occ string_dec (plainHoldings d1) x.
Proof.
  intros Hterm Hb. induction Hb as [|d isbn rest status e Hb IH Hq].
  - split; [exact Hterm|]. exists []. split; [|split].
    + cbn [errorsText]. rewrite append_nil_r. reflexivity.
    + constructor.
    + intros x. cbn [map]. rewrite app_nil_r. reflexivity.
  - destruct IH as (Ht & new & He & Hcl & Hc).
    destruct (recordResult_moves isbn rest status e d Ht Hq)
      as (Ht' & new' & He' & Hcl' & Hc').
    split; [exact Ht'|]. exists (new ++ new')%list. split; [|split].
    + rewrite He', He, errorsText_app, append_assoc. reflexivity.
    + apply Forall_app. split; assumption.
    + intros x. rewrite <- Hc. specialize (Hc' x).
      rewrite map_app, !count_occ_app in *. lia.
Qed.


Lemma initializeQueue_errors inputIsbns d :
  readFileSync ERRORS_FILE (snd (initializeQueue inputIsbns d))
  = readFileSync ERRORS_FILE d.
Proof.
  unfold readFileSync. rewrite initializeQueue_other_file by discriminate.
  reflexivity.
Qed.








(** ** Concrete runs *)

(** C3, counterexample: an identifier whose terminal entry is an Error
    entry is enqueued again, and persisted in the queue, by the next
    [initializeQueue]. *)
Lemma initializeQueue_requeues_error :
  recorded ERROR "000" afterFailedRun = true /\
  readLines QUEUE_FILE afterFailedRun = [] /\
  fst (initializeQueue ["000"] afterFailedRun) = ["000"] /\
  readLines QUEUE_FILE (snd (initializeQueue ["000"] afterFailedRun)) = ["000"].
Proof. vm_compute. repeat split; reflexivity. Qed.


Lemma recordResult_record_then_dequeue_witness :
  readLines QUEUE_FILE twoQueued = ["9780545139700"; "000"] /\
  terminated (readFileSync ADDED_FILE twoQueued) = true /\
  forall k,
    let writes := newWrites twoQueued
                    (recordResult "9780545139700" ADDED None twoQueued) in
    recorded ADDED "9780545139700" (crashAfter k twoQueued writes) = true \/
    queued "9780545139700" (crashAfter k twoQueued writes) = true.
Proof.
  split; [reflexivity|]. split; [reflexivity|].
  exact (proj2 (proj2 (proj2 (proj2
    (recordResult_record_then_dequeue "9780545139700" ADDED None twoQueued
       ["000"] eq_refl eq_refl))))).
Defined.


Lemma initializeQueue_merge_purge_witness :
  let d := recordResult "9780545139700" ADDED None twoQueued in
  let r := initializeQueue ["9780545139700"; "000"; "111"] d in
  let raw := initializeQueue [" 9780545139700 "] d in
  fst r = ["000"; "111"] /\
  readLines QUEUE_FILE (snd r) = fst r /\
  recorded ADDED "9780545139700" d = true /\
  In " 9780545139700 " (fst raw) /\
  In "9780545139700" (readLines QUEUE_FILE (snd raw)).
Proof.
  intros d r raw.
  pose proof (initializeQueue_merge_purge ["9780545139700"; "000"; "111"] d)
    as (_ & _ & _ & _ & _ & Hback & _).
  pose proof (initializeQueue_merge_purge [" 9780545139700 "] d)
    as (_ & _ & _ & _ & _ & _ & Hraw).
  destruct (Hraw " 9780545139700 " (or_introl eq_refl) eq_refl) as [Hin Hread].
  split; [reflexivity|]. split.
  - apply Hback; [vm_compute; discriminate | repeat constructor].
  - split; [reflexivity|]. split; [exact Hin|].
    apply Hread. left. reflexivity.
Defined.

Lemma initializeQueue_keeps_duplicates_witness :
  Forall (fun l => cleanLine l = true) ["000"; "111"; "000"] /\
  unprocessed emptyDisk "000" = true /\
  count_occ string_dec
    (readLines QUEUE_FILE (snd (initializeQueue ["000"; "111"; "000"] emptyDisk)))
    "000" = 2.
Proof.
  assert (Hclean : Forall (fun l => cleanLine l = true) ["000"; "111"; "000"])
    by (repeat constructor).
  split; [exact Hclean|]. split; [reflexivity|].
  refine (proj2 (initializeQueue_keeps_duplicates
            ["000"; "111"; "000"] emptyDisk "000" Hclean eq_refl _)).
  intros [].
Defined.

(** ** The monad of asynchronous code *)

Section MonadFacts.

Context {W : Type} (B : Browser W).

Lemma bind_Ok {A C} (m : M W A) (k : A -> M W C) (st st' : State W) a :
  m st = (Ok a, st') -> (x <- m ;; k x) st = k a st'.
Proof. intros E. unfold bind. rewrite E. reflexivity. Qed.

Lemma bind_Throw {A C} (m : M W A) (k : A -> M W C) (st st' : State W) e :
  m st = (Throw e, st') -> (x <- m ;; k x) st = (Throw e, st').
Proof. intros E. unfold bind. rewrite E. reflexivity. Qed.

Lemma orElse_Ok {A} (m : M W A) (a : A) (st : State W) :
  exists a' st', orElse m a st = (Ok a', st').
Proof.
  unfold orElse, try_catch, ret. destruct (m st) as [[x|e] st']; eauto.
Qed.

Variable P : Action -> bool.

Lemma within_refl (st : State W) : within P 0 st st.
Proof.
  split; [reflexivity|]. exists []. rewrite app_nil_r. split; [reflexivity|].
  cbn. lia.
Qed.

Lemma within_same (st st' : State W) :
  disk st' = disk st -> calls st' = calls st -> within P 0 st st'.
Proof.
  intros D C. split; [exact D|]. exists []. rewrite app_nil_r.
  split; [exact C | cbn; lia].
Qed.

Lemma within_trans n1 n2 (st1 st2 st3 : State W) :
  within P n1 st1 st2 -> within P n2 st2 st3 -> within P (n1 + n2) st1 st3.
Proof.
  intros (D1 & m1 & E1 & C1) (D2 & m2 & E2 & C2). split; [congruence|].
  exists (m1 ++ m2)%list. split.
  - rewrite E2, E1, app_assoc. reflexivity.
  - rewrite filter_app, length_app. lia.
Qed.

Lemma within_le n n' (st st' : State W) :
  n <= n' -> within P n st st' -> within P n' st st'.
Proof.
  intros Hle (D & m & E & C). split; [exact D|]. exists m. split; [exact E | lia].
Qed.

Lemma within_countCalls n (st st' : State W) :
  within P n st st' -> countCalls P st' <= countCalls P st + n.
Proof.
  intros (_ & m & E & C). unfold countCalls. rewrite E, filter_app, length_app.
  lia.
Qed.

Lemma bounded_weaken {A} n n' (m : M W A) :
  n <= n' -> bounded P n m -> bounded P n' m.
Proof. intros Hle H st. apply within_le with (n := n); [exact Hle | apply H]. Qed.

Lemma bounded_ret {A} (a : A) : bounded P 0 (@ret W A a).
Proof. intros st. apply within_refl. Qed.

Lemma bounded_throw {A} e : bounded P 0 (@throw W A e).
Proof. intros st. apply within_refl. Qed.

Lemma bounded_bind {A C} n1 n2 (m : M W A) (k : A -> M W C) :
  bounded P n1 m -> (forall a, bounded P n2 (k a)) ->
  bounded P (n1 + n2) (x <- m ;; k x).
Proof.
  intros Hm Hk st. specialize (Hm st). unfold bind.
  destruct (m st) as [[a|e] st']; cbn [snd] in Hm |- *.
  - apply within_trans with (st2 := st'); [exact Hm | apply Hk].
  - apply within_le with (n := n1); [lia | exact Hm].
Qed.

Lemma bounded_try_catch {A} n1 n2 (m : M W A) (h : string -> M W A) :
  bounded P n1 m -> (forall e, bounded P n2 (h e)) ->
  bounded P (n1 + n2) (try_catch m h).
Proof.
  intros Hm Hh st. specialize (Hm st). unfold try_catch.
  destruct (m st) as [[a|e] st']; cbn [snd] in Hm |- *.
  - apply within_le with (n := n1); [lia | exact Hm].
  - apply within_trans with (st2 := st'); [exact Hm | apply Hh].
Qed.

Lemma bounded_orElse {A} n (m : M W A) (a : A) :
  bounded P n m -> bounded P n (orElse m a).
Proof.
  intros Hm. unfold orElse. rewrite <- (Nat.add_0_r n).
  apply bounded_try_catch; [exact Hm | intros; apply bounded_ret].
Qed.

Lemma bounded_act a : bounded P (if P a then 1 else 0) (act B a).
Proof.
  intros st. unfold act. destruct (perform B a (world st)) as [r w].
  cbn [snd]. split; [reflexivity|]. exists [a]. split; [reflexivity|].
  cbn [filter]. destruct (P a); cbn; lia.
Qed.

Lemma bounded_act_quiet a : P a = false -> bounded P 0 (act B a).
Proof. intros H. pose proof (bounded_act a) as Hb. rewrite H in Hb. exact Hb. Qed.

Lemma bounded_act_one a : bounded P 1 (act B a).
Proof.
  apply bounded_weaken with (n := if P a then 1 else 0);
    [destruct (P a); lia | apply bounded_act].
Qed.

Lemma bounded_ask {A} (q : W -> result A * W) : bounded P 0 (ask q).
Proof.
  intros st. unfold ask. destruct (q (world st)) as [r w].
  apply within_same; reflexivity.
Qed.

Lemma bounded_getPage : bounded P 0 (@getPage W).
Proof. intros st. apply within_refl. Qed.

Lemma bounded_setPage p : bounded P 0 (@setPage W p).
Proof. intros st. apply within_same; reflexivity. Qed.

Lemma bounded_pageUrl : bounded P 0 (pageUrl B).
Proof. intros st. apply within_refl. Qed.

Lemma bounded_register p : bounded P 0 (@registerPageEventHandlers W p).
Proof.
  intros st. unfold registerPageEventHandlers.
  destruct (existsb _ _); apply within_same; reflexivity.
Qed.

Lemma bounded_onPage_quiet (a : Page -> Action) :
  (forall p, P (a p) = false) -> bounded P 0 (onPage B a).
Proof.
  intros H. unfold onPage. apply (bounded_bind 0 0); [apply bounded_getPage|].
  intros p. apply bounded_act_quiet, H.
Qed.

Lemma bounded_onPage_one (a : Page -> Action) : bounded P 1 (onPage B a).
Proof.
  unfold onPage. apply (bounded_bind 0 1); [apply bounded_getPage|].
  intros p. apply bounded_act_one.
Qed.

Lemma bounded_waitFor x : bounded P 0 (waitFor B x).
Proof.
  unfold waitFor. apply (bounded_bind 0 0); [apply bounded_getPage|].
  intros p. apply bounded_ask.
Qed.

Lemma bounded_pause ms : bounded P 0 (pause B ms).
Proof. apply bounded_waitFor. Qed.

Lemma bounded_visible selector : bounded P 0 (visible B selector).
Proof.
  unfold visible. apply (bounded_bind 0 0); [apply bounded_getPage|].
  intros p. apply bounded_ask.
Qed.

Lemma bounded_query selector : bounded P 0 (query B selector).
Proof.
  unfold query. apply (bounded_bind 0 0); [apply bounded_getPage|].
  intros p. apply bounded_ask.
Qed.

Lemma bounded_appears selector t : bounded P 0 (appears B selector t).
Proof.
  unfold appears. apply bounded_orElse. apply (bounded_bind 0 0).
  - apply bounded_waitFor.
  - intros _. apply bounded_ret.
Qed.

End MonadFacts.

(** ** How many calls of a kind a function can make *)

Section Bounds.

Context {W : Type} (B : Browser W) (env : Env).

(** [P] is a kind of call that no routine call belongs to, and a click on a
    menu entry counts for at most [c]. *)
Variable P : Action -> bool.
Variable c : nat.
Hypothesis P_routine : forall a, routine a = true -> P a = false.
Hypothesis P_item : forall l t, (if P (locatorClick l t) then 1 else 0) <= c.

Ltac routine_call :=
  match goal with
  | H : forall a, routine a = true -> P a = false |- _ => apply H; reflexivity
  end.

(** Leaves that make no counted call. *)
Ltac quiet_leaf :=
  first
    [ apply bounded_ret | apply bounded_throw | apply bounded_ask
    | apply bounded_getPage | apply bounded_setPage | apply bounded_pageUrl
    | apply bounded_register | apply bounded_waitFor | apply bounded_pause
    | apply bounded_visible | apply bounded_query | apply bounded_appears
    | apply bounded_onPage_quiet; intro; routine_call
    | apply bounded_act_quiet; routine_call
    | assumption
    | solve [auto with quiet] ].

(** [bounded P n m] for any [n], as long as every call [m] makes before its
    last step is quiet. *)
Ltac bnd :=
  lazymatch goal with
  | |- bounded _ 0 (bind _ _) =>
      apply (bounded_bind _ 0 0); [bnd | intro; bnd]
  | |- bounded _ 0 (try_catch _ _) =>
      apply (bounded_try_catch _ 0 0); [bnd | intro; bnd]
  | |- bounded _ ?k (bind _ _) =>
      first [ apply (bounded_bind _ 0 k); [solve [bnd] | intro; bnd] | idtac ]
  | |- bounded _ ?k (try_catch _ _) =>
      first [ apply (bounded_try_catch _ 0 k); [solve [bnd] | intro; bnd]
            | apply (bounded_try_catch _ k 0); [bnd | intro; solve [bnd]]
            | idtac ]
  | |- bounded _ _ (orElse _ _) => apply bounded_orElse; bnd
  | |- bounded _ _ (if ?b then _ else _) => destruct b; bnd
  | |- bounded _ _ (match ?x with _ => _ end) => destruct x; bnd
  | |- bounded _ ?k _ =>
      first [ apply bounded_weaken with (n := 0); [lia | quiet_leaf]
            | eapply bounded_weaken; [| eassumption]; lia
            | idtac ]
  end.

Create HintDb quiet.

Lemma bounded_gotoAndWait address :
  (forall p, P (goto p (href address)) = false) ->
  bounded P 0 (gotoAndWait B address).
Proof.
  intros H. unfold gotoAndWait. bnd.
  apply bounded_onPage_quiet. exact H.
Qed.

Lemma bounded_gotoAndWait_one address : bounded P 1 (gotoAndWait B address).
Proof.
  unfold gotoAndWait.
  apply (bounded_bind _ 1 0); [|intros [|]; bnd].
  apply (bounded_try_catch _ 1 0); [|intro; bnd].
  apply (bounded_bind _ 1 0); [apply bounded_onPage_one | intro; bnd].
Qed.

Lemma bounded_gotoAndWait_home : bounded P 0 (gotoAndWait B home).
Proof. apply bounded_gotoAndWait. intro. routine_call. Qed.

Lemma bounded_gotoAndWait_welcome : bounded P 0 (gotoAndWait B welcome).
Proof. apply bounded_gotoAndWait. intro. routine_call. Qed.

Lemma bounded_ensurePage : bounded P 0 (ensurePage B).
Proof.
  intros st. unfold ensurePage. destruct (isClosed B (page st) (world st)).
  - revert st. change (bounded P 0
      (np <- ask (newPage B) ;; setPage np ;; registerPageEventHandlers np ;; ret np)).
    bnd.
  - apply within_refl.
Qed.

Lemma bounded_loginLinkVisible : bounded P 0 (loginLinkVisible B).
Proof. unfold loginLinkVisible. bnd. Qed.

#[local] Hint Resolve bounded_gotoAndWait_home bounded_gotoAndWait_welcome
  bounded_ensurePage bounded_loginLinkVisible : quiet.

Lemma bounded_loginDialog n : bounded P 0 (loginDialog B env n).
Proof.
  induction n as [|n IH]; cbn [loginDialog]; bnd.
Qed.

#[local] Hint Resolve bounded_loginDialog : quiet.

Lemma bounded_loginThroughPopup : bounded P 0 (loginThroughPopup B env).
Proof. unfold loginThroughPopup. bnd. Qed.

#[local] Hint Resolve bounded_loginThroughPopup : quiet.

Lemma bounded_clickCataloguingMenu n : bounded P 0 (clickCataloguingMenu B n).
Proof.
  induction n as [|n IH]; cbn [clickCataloguingMenu]; bnd.
Qed.

Lemma bounded_all l : bounded P 0 (all B l).
Proof. unfold all. bnd. Qed.

Lemma bounded_firstVisible items : bounded P 0 (firstVisible B items).
Proof.
  induction items as [|item rest IH]; cbn [firstVisible]; bnd.
Qed.

Lemma bounded_awaitPopup : bounded P 0 (awaitPopup B).
Proof. unfold awaitPopup. bnd. Qed.

#[local] Hint Resolve bounded_clickCataloguingMenu bounded_all
  bounded_firstVisible bounded_awaitPopup : quiet.

Lemma bounded_clickVisibleMenuItem : bounded P c (clickVisibleMenuItem B).
Proof.
  unfold clickVisibleMenuItem. bnd.
  eapply bounded_weaken; [|apply bounded_act]. apply P_item.
Qed.

Lemma bounded_dismissModal t s : bounded P 0 (dismissModal B t s).
Proof. unfold dismissModal. bnd. Qed.

#[local] Hint Resolve bounded_dismissModal : quiet.

Lemma bounded_menuLanding r retry :
  bounded P r retry -> bounded P r (menuLanding B env retry).
Proof. intros Hr. unfold menuLanding. bnd. Qed.

Lemma bounded_menuOpen r retry :
  bounded P r retry -> bounded P (c + r) (menuOpen B env retry).
Proof.
  intros Hr. unfold menuOpen.
  do 4 (apply (bounded_bind _ 0 (c + r)); [solve [bnd] | intro]).
  apply bounded_bind; [apply bounded_clickVisibleMenuItem | intro].
  apply (bounded_bind _ 0 r); [solve [bnd] | intro].
  apply (bounded_bind _ 0 r); [solve [bnd] | intro].
  apply bounded_menuLanding, Hr.
Qed.

Lemma bounded_menuAttempt r retry :
  bounded P r retry -> bounded P (c + r) (menuAttempt B env retry).
Proof.
  intros Hr.
  assert (Hopen := bounded_menuOpen r retry Hr).
  assert (Hr' : bounded P (c + r) retry)
    by (apply bounded_weaken with (n := r); [lia | exact Hr]).
  unfold menuAttempt. bnd.
Qed.

Lemma attemptMenuSmartCatalog_step attempt :
  attemptMenuSmartCatalog B env attempt =
  if (3 <? attempt)%nat then ret false
  else menuAttempt B env (attemptMenuSmartCatalog B env (attempt + 1)).
Proof.
  rewrite attemptMenuSmartCatalog_equation_1.
  destruct (3 <? attempt)%nat eqn:E;
    [apply Nat.ltb_lt in E | apply Nat.ltb_ge in E];
    destruct (le_lt_dec attempt 3) as [Hle|Hlt]; try lia; reflexivity.
Qed.

Lemma bounded_attemptMenuSmartCatalog attempt :
  bounded P ((4 - attempt) * c) (attemptMenuSmartCatalog B env attempt).
Proof.
  remember (4 - attempt) as k eqn:Hk. revert attempt Hk.
  induction k as [|k IH]; intros attempt Hk;
    rewrite attemptMenuSmartCatalog_step.
  - replace (3 <? attempt)%nat with true by (symmetry; apply Nat.ltb_lt; lia).
    apply bounded_ret.
  - replace (3 <? attempt)%nat with false by (symmetry; apply Nat.ltb_ge; lia).
    cbn [Nat.mul]. apply bounded_menuAttempt. apply IH. lia.
Qed.

Lemma bounded_navigateToSmartCataloguing :
  bounded P (3 * c) (navigateToSmartCataloguing B env).
Proof. apply (bounded_attemptMenuSmartCatalog 1). Qed.

Lemma bounded_submitAndProbe isbn : bounded P 1 (submitAndProbe B isbn).
Proof.
  unfold submitAndProbe.
  do 2 (apply (bounded_bind _ 0 1); [solve [bnd] | intro]).
  apply (bounded_bind _ 1 0); [apply bounded_onPage_one | intro; bnd].
Qed.

Lemma bounded_searchAttempt isbn attempt r retry :
  bounded P r retry ->
  bounded P (1 + 3 * c + r) (searchAttempt B env isbn attempt retry).
Proof.
  intros Hr.
  assert (Hnav : bounded P (3 * c + r)
            (reNav <- navigateToSmartCataloguing B env ;;
             if negb reNav then ret false else retry)).
  { apply bounded_bind; [apply bounded_navigateToSmartCataloguing|].
    intros reNav. bnd. }
  unfold searchAttempt.
  apply (bounded_bind _ 0 (1 + 3 * c + r)); [solve [bnd] | intros available].
  destruct (negb available).
  - eapply bounded_weaken; [|exact Hnav]. lia.
  - rewrite <- Nat.add_assoc.
    apply bounded_bind; [apply bounded_submitAndProbe|].
    intros [[loginVisible still] denied].
    destruct (_ && _); [exact Hnav | bnd].
Qed.

Lemma searchSmartCataloguing_step isbn attempt :
  searchSmartCataloguing B env isbn attempt =
  if (3 <? attempt)%nat then ret false
  else searchAttempt B env isbn attempt
         (searchSmartCataloguing B env isbn (attempt + 1)).
Proof.
  rewrite searchSmartCataloguing_equation_1.
  destruct (3 <? attempt)%nat eqn:E;
    [apply Nat.ltb_lt in E | apply Nat.ltb_ge in E];
    destruct (le_lt_dec attempt 3) as [Hle|Hlt]; try lia; reflexivity.
Qed.

Lemma bounded_searchSmartCataloguing isbn attempt :
  bounded P ((4 - attempt) * (1 + 3 * c))
    (searchSmartCataloguing B env isbn attempt).
Proof.
  remember (4 - attempt) as k eqn:Hk. revert attempt Hk.
  induction k as [|k IH]; intros attempt Hk;
    rewrite searchSmartCataloguing_step.
  - replace (3 <? attempt)%nat with true by (symmetry; apply Nat.ltb_lt; lia).
    apply bounded_ret.
  - replace (3 <? attempt)%nat with false by (symmetry; apply Nat.ltb_ge; lia).
    cbn [Nat.mul]. apply bounded_searchAttempt. apply IH. lia.
Qed.

Lemma bounded_directLoop n attemptedLogin :
  bounded P n (directLoop B env n attemptedLogin).
Proof.
  revert attemptedLogin. induction n as [|n IH]; intros attemptedLogin;
    cbn [directLoop].
  - apply bounded_ret.
  - apply (bounded_bind _ 1 n); [apply bounded_gotoAndWait_one | intro].
    pose proof (IH attemptedLogin) as IH1. pose proof (IH true) as IH2.
    bnd.
Qed.

Lemma bounded_attemptDirectSmartCatalog maxAttempts :
  bounded P maxAttempts (attemptDirectSmartCatalog B env maxAttempts).
Proof.
  unfold attemptDirectSmartCatalog.
  apply (bounded_bind _ 0 maxAttempts); [apply bounded_ensurePage | intro].
  apply bounded_directLoop.
Qed.

End Bounds.

(** ** The retry ceilings *)

Lemma routine_isSearchClick a : routine a = true -> isSearchClick a = false.
Proof.
  unfold routine. rewrite negb_true_iff, !orb_false_iff. tauto.
Qed.

Lemma routine_isMenuItemClick a : routine a = true -> isMenuItemClick a = false.
Proof.
  unfold routine. rewrite negb_true_iff, !orb_false_iff. tauto.
Qed.

Lemma routine_isDirectGoto a : routine a = true -> isDirectGoto a = false.
Proof.
  unfold routine. rewrite negb_true_iff, !orb_false_iff. tauto.
Qed.

Lemma one_or_zero (b : bool) : (if b then 1 else 0) <= 1.
Proof. destruct b; lia. Qed.

(** C6: the menu strategy and the search of one identifier give up with
    [false], without touching the browser, once their attempt number is
    above 3, and the loop of the direct strategy does so when no iteration is
    left.  Whatever the browser answers, one call of the menu strategy
    clicks a Smart Cataloguing menu entry at most 3 times, one search of an
    identifier presses the search button at most 3 times, and the direct
    strategy loads the search address at most [maxAttempts] times. *)
Theorem retry_ceilings {W : Type} (B : Browser W) (env : Env) :
  (forall attempt st, 3 < attempt ->
     attemptMenuSmartCatalog B env attempt st = (Ok false, st)) /\
  (forall isbn attempt st, 3 < attempt ->
     searchSmartCataloguing B env isbn attempt st = (Ok false, st)) /\
  (forall attemptedLogin st, directLoop B env 0 attemptedLogin st = (Ok false, st)) /\
  (forall st,
     countCalls isMenuItemClick (snd (attemptMenuSmartCatalog B env 1 st))
     <= countCalls isMenuItemClick st + 3) /\
  (forall isbn st,
     countCalls isSearchClick (snd (searchSmartCataloguing B env isbn 1 st))
     <= countCalls isSearchClick st + 3) /\
  (forall maxAttempts st,
     countCalls isDirectGoto (snd (attemptDirectSmartCatalog B env maxAttempts st))
     <= countCalls isDirectGoto st + maxAttempts).
Proof.
  repeat split.
  - intros attempt st H. rewrite attemptMenuSmartCatalog_step.
    apply Nat.ltb_lt in H. rewrite H. reflexivity.
  - intros isbn attempt st H. rewrite searchSmartCataloguing_step.
    apply Nat.ltb_lt in H. rewrite H. reflexivity.
  - intros st. apply within_countCalls.
    apply (bounded_attemptMenuSmartCatalog B env isMenuItemClick 1
             routine_isMenuItemClick (fun l t => one_or_zero _) 1).
  - intros isbn st. apply within_countCalls.
    apply (bounded_searchSmartCataloguing B env isSearchClick 0
             routine_isSearchClick (fun l t => Nat.le_refl 0) isbn 1).
  - intros maxAttempts st. apply within_countCalls.
    apply (bounded_attemptDirectSmartCatalog B env isDirectGoto
             routine_isDirectGoto).
Qed.

(** ** The menu entry that is clicked *)

Lemma find_seq_Some (f : nat -> bool) a n i :
  find f (seq a n) = Some i ->
  a <= i < a + n /\ f i = true /\ forall j, a <= j < i -> f j = false.
Proof.
  revert a. induction n as [|n IH]; intros a; cbn [seq find]; [discriminate|].
  destruct (f a) eqn:Ea.
  - intros E. injection E as <-. repeat split; try lia. exact Ea.
  - intros E. destruct (IH (S a) E) as (Hr & Hf & Hbefore).
    repeat split; try lia; [exact Hf|].
    intros j Hj. destruct (Nat.eq_dec j a) as [->|Hne]; [exact Ea|].
    apply Hbefore. lia.
Qed.

Lemma find_seq_None (f : nat -> bool) a n :
  find f (seq a n) = None -> forall i, a <= i < a + n -> f i = false.
Proof.
  intros E i Hi. apply (find_none f (seq a n) E). apply in_seq. exact Hi.
Qed.

Section MenuEntry.

Context {W : Type} (B : Browser W).

Lemma ask_pure {A} (q : W -> result A * W) (st : State W) r :
  q (world st) = (r, world st) -> ask q st = (r, st).
Proof. intros E. unfold ask. rewrite E. destruct st; reflexivity. Qed.

Lemma firstVisible_snapshot (entries : Locator) (vis : nat -> bool)
    (st : State W) :
  (forall i, locatorIsVisible B (nth entries i) (world st)
             = (Ok (vis i), world st)) ->
  forall indices,
    firstVisible B (map (nth entries) indices) st
    = (Ok (option_map (nth entries) (find vis indices)), st).
Proof.
  intros Hvis indices. induction indices as [|i rest IH]; [reflexivity|].
  cbn [map firstVisible find].
  rewrite (bind_Ok _ _ st st (vis i)) by (apply ask_pure, Hvis).
  destruct (vis i); [reflexivity | exact IH].
Qed.

(** C8: when the menu entry is rendered [n] times and the browser, without
    changing its state, reports entry [i] visible exactly when [vis i] holds,
    the script clicks the
    first entry that is visible, which is never a hidden one, and makes no
    other call; when no entry is visible it throws and clicks nothing. *)
Theorem clickVisibleMenuItem_picks_visible (st : State W) (n : nat)
    (vis : nat -> bool) :
  let entries := locator (page st) "#menuItem_smartCataloguing" in
  locatorCount B entries (world st) = (Ok n, world st) ->
  (forall i, locatorIsVisible B (nth entries i) (world st)
             = (Ok (vis i), world st)) ->
  match find vis (seq 0 n) with
  | Some i =>
      (i < n /\ vis i = true /\ forall j, j < i -> vis j = false) /\
      clickVisibleMenuItem B st = act B (locatorClick (nth entries i) None) st
  | None =>
      (forall i, i < n -> vis i = false) /\
      clickVisibleMenuItem B st
      = (Throw "No visible Smart Cataloguing menu item found", st)
  end.
Proof.
  intros entries Hcount Hvis.
  assert (Hrun : clickVisibleMenuItem B st =
            match find vis (seq 0 n) with
            | Some i => act B (locatorClick (nth entries i) None) st
            | None => (Throw "No visible Smart Cataloguing menu item found", st)
            end).
  { unfold clickVisibleMenuItem.
    rewrite (bind_Ok _ _ st st (page st)) by reflexivity.
    fold entries. unfold all.
    rewrite (bind_Ok _ _ st st (map (nth entries) (seq 0 n))).
    2:{ rewrite (bind_Ok _ _ st st n) by (apply ask_pure, Hcount). reflexivity. }
    rewrite (bind_Ok _ _ st st (option_map (nth entries) (find vis (seq 0 n))))
      by (apply firstVisible_snapshot, Hvis).
    destruct (find vis (seq 0 n)); reflexivity. }
  destruct (find vis (seq 0 n)) as [i|] eqn:Efind.
  - split; [|exact Hrun].
    destruct (find_seq_Some vis 0 n i Efind) as (Hr & Hi & Hbefore).
    repeat split; [lia | exact Hi |]. intros j Hj. apply Hbefore. lia.
  - split; [|exact Hrun]. intros i Hi.
    apply (find_seq_None vis 0 n Efind). lia.
Qed.

End MenuEntry.

(** ** Session loss during a search *)

Section SessionLoss.

Context {W : Type} (B : Browser W) (env : Env).

Lemma recordAndReturn_run isbn status error message (st : State W) :
  recordAndReturn isbn status error message st
  = (Ok (mkResult isbn status error),
     withDisk (recordResult isbn status message) st).
Proof. reflexivity. Qed.

(** What [processISBN] makes of the answer of the search. *)
Lemma processISBN_of_search isbn (s s' : State W) (ready : bool) :
  searchSmartCataloguing B env isbn 1 s = (Ok ready, s') ->
  processISBN B env isbn true s
  = if ready
    then try_catch (classify B isbn)
           (fun message => recordAndReturn isbn ERROR (Some message) (Some message)) s'
    else (Ok (mkResult isbn ERROR (Some "Search failed after re-login")),
          withDisk (recordResult isbn ERROR (Some "Search failed after re-login")) s').
Proof.
  intros Hsearch. unfold processISBN, try_catch. cbn [negb].
  rewrite (bind_Ok _ _ s s true) by reflexivity. cbn [negb].
  rewrite (bind_Ok _ _ s s' ready Hsearch).
  destruct ready; reflexivity.
Qed.

(** C7 (amended): when the search field was there, the identifier was
    submitted, and the page then shows the login link, has left the search
    address or shows the permission-denied mark, an attempt below the third
    one runs [navigateToSmartCataloguing] again and, if that succeeds, the
    whole search with the next attempt number; it answers [false] if the
    navigation fails.  The third attempt does not navigate or retry any more:
    it answers whether the page is still at the search address.  When the
    search of an item answers [false] the identifier is recorded as ERROR;
    when it answers [true], as the third attempt does on a page that is still
    at the search address although the login link or the permission-denied
    mark is shown, [processISBN] classifies the page as it stands. *)
Theorem session_loss_is_retried isbn attempt (st st0 st1 : State W)
    (loginVisible still denied : bool) :
  appears B "#smartCatSearchTerm" 15000%N st = (Ok true, st0) ->
  submitAndProbe B isbn st0 = (Ok (loginVisible, still, denied), st1) ->
  loginVisible || negb still || denied = true ->
  (attempt < 3 ->
   searchSmartCataloguing B env isbn attempt st
   = (reNav <- navigateToSmartCataloguing B env ;;
      if negb reNav then ret false
      else searchSmartCataloguing B env isbn (attempt + 1)) st1) /\
  (attempt < 3 -> forall st2,
     navigateToSmartCataloguing B env st1 = (Ok false, st2) ->
     searchSmartCataloguing B env isbn attempt st = (Ok false, st2)) /\
  (attempt = 3 ->
   searchSmartCataloguing B env isbn attempt st = (Ok still, st1)) /\
  (forall s s',
     searchSmartCataloguing B env isbn 1 s = (Ok false, s') ->
     processISBN B env isbn true s
     = (Ok (mkResult isbn ERROR (Some "Search failed after re-login")),
        withDisk (recordResult isbn ERROR (Some "Search failed after re-login")) s')) /\
  (forall s s',
     searchSmartCataloguing B env isbn 1 s = (Ok true, s') ->
     processISBN B env isbn true s
     = try_catch (classify B isbn)
         (fun message => recordAndReturn isbn ERROR (Some message) (Some message))
         s') /\
  (forall st2,
     navigateToSmartCataloguing B env st1 = (Ok false, st2) ->
     processISBN B env isbn true st
     = (Ok (mkResult isbn ERROR (Some "Search failed after re-login")),
        withDisk (recordResult isbn ERROR (Some "Search failed after re-login"))
                 st2)).
Proof.
  intros Happears Hprobe Hloss.
  assert (Hstep : forall a, a <= 3 ->
            searchSmartCataloguing B env isbn a st
            = (if (a <? 3)%nat
               then reNav <- navigateToSmartCataloguing B env ;;
                    if negb reNav then ret false
                    else searchSmartCataloguing B env isbn (a + 1)
               else ret still) st1).
  { intros a Ha. rewrite searchSmartCataloguing_step.
    replace (3 <? a)%nat with false by (symmetry; apply Nat.ltb_ge; lia).
    unfold searchAttempt.
    rewrite (bind_Ok _ _ st st0 true Happears). cbn [negb].
    rewrite (bind_Ok _ _ st0 st1 _ Hprobe). rewrite Hloss. cbn [andb].
    destruct (a <? 3)%nat; reflexivity. }
  assert (Hfalse : forall a st2, a < 3 ->
            navigateToSmartCataloguing B env st1 = (Ok false, st2) ->
            searchSmartCataloguing B env isbn a st = (Ok false, st2)).
  { intros a st2 Ha Hnav. rewrite Hstep by lia.
    replace (a <? 3)%nat with true by (symmetry; apply Nat.ltb_lt; lia).
    rewrite (bind_Ok _ _ st1 st2 false Hnav). reflexivity. }
  split; [|split; [|split; [|split; [|split]]]].
  - intros Hlt. rewrite Hstep by lia.
    replace (attempt <? 3)%nat with true by (symmetry; apply Nat.ltb_lt; lia).
    reflexivity.
  - intros Hlt st2 Hnav. apply Hfalse; assumption.
  - intros ->. rewrite Hstep by lia. reflexivity.
  - intros s s' Hs. apply (processISBN_of_search isbn s s' false Hs).
  - intros s s' Hs. apply (processISBN_of_search isbn s s' true Hs).
  - intros st2 Hnav.
    apply (processISBN_of_search isbn st st2 false). apply Hfalse; [lia | exact Hnav].
Qed.

End SessionLoss.

(** ** Classification of a search result *)

Section Classification.

Context {W : Type} (B : Browser W).


Lemma silent_readStatusText : bounded anyCall 0 (readStatusText B).
Proof.
  unfold readStatusText.
  apply (bounded_bind _ 0 0); [apply bounded_query | intros byId].
  apply (bounded_bind _ 0 0).
  - destruct byId; [apply bounded_ret | apply bounded_query].
  - intros [h|]; [|apply bounded_ret].
    apply (bounded_bind _ 0 0); [apply bounded_ask | intro; apply bounded_ret].
Qed.






End Classification.

(** ** The run *)

Lemma recordResult_dequeues isbn rest status message d :
  readLines QUEUE_FILE d = isbn :: rest ->
  readLines QUEUE_FILE (recordResult isbn status message d) = rest.
Proof.
  intros Hq.
  pose proof (readLines_clean QUEUE_FILE d) as Hclean. rewrite Hq in Hclean.
  inversion Hclean as [|? ? _ Hrest]; subst.
  rewrite recordResult_steps.
  erewrite removeFirstLineFromQueue_cons.
  - apply readLines_writeLines_same, Hrest.
  - rewrite readLines_write_other; [exact Hq|].
    intros E. symmetry in E. exact (ledgerFile_not_queue status E).
Qed.

Section Run.

Context {W : Type} (B : Browser W) (env : Env).

Lemma bounded_keepsDisk {A} P n (m : M W A) : bounded P n m -> keepsDisk m.
Proof. intros H st. apply (H st). Qed.

Lemma keepsDisk_navigate : keepsDisk (navigateToSmartCataloguing B env).
Proof.
  apply (bounded_keepsDisk noCall (3 * 0)).
  apply bounded_navigateToSmartCataloguing; [reflexivity | intros; apply Nat.le_refl].
Qed.

Lemma keepsDisk_search isbn attempt :
  keepsDisk (searchSmartCataloguing B env isbn attempt).
Proof.
  eapply (bounded_keepsDisk noCall).
  apply (bounded_searchSmartCataloguing B env noCall 0);
    [reflexivity | intros; apply Nat.le_refl].
Qed.

Lemma attempts_record isbn status error message :
  attempts isbn (recordAndReturn (W := W) isbn status error message).
Proof. intros st. rewrite recordAndReturn_run. exists message. reflexivity. Qed.

Lemma attempts_bind {A} isbn (m : M W A) (k : A -> M W Result) :
  keepsDisk m -> (forall a, attempts isbn (k a)) ->
  attempts isbn (x <- m ;; k x).
Proof.
  intros Hm Hk st. specialize (Hm st). unfold bind.
  destruct (m st) as [[a|e] st1]; cbn [snd] in Hm.
  - specialize (Hk a st1). destruct (k a st1) as [[r|e] st2].
    + destruct Hk as (message & Hd). exists message. congruence.
    + congruence.
  - exact Hm.
Qed.

Lemma attempts_classify isbn : attempts isbn (classify B isbn).
Proof.
  unfold classify. apply attempts_bind.
  - apply (bounded_keepsDisk anyCall 0), silent_readStatusText.
  - intros statusText.
    destruct (Js.includes _ "no matching resource"); [apply attempts_record|].
    destruct (Js.includes _ "found matching resource"); [|apply attempts_record].
    apply attempts_bind; [apply (bounded_keepsDisk noCall 0), bounded_query|].
    intros [button|]; [|apply attempts_record].
    apply attempts_bind; [apply (bounded_keepsDisk noCall 0), bounded_ask|].
    intros [|]; [apply attempts_record|].
    apply attempts_bind; [eapply (bounded_keepsDisk noCall); apply bounded_act|].
    intros _. apply attempts_bind.
    { apply (bounded_keepsDisk noCall 0), bounded_dismissModal.
      intros; reflexivity. }
    intros _. apply attempts_bind; [|intros; apply attempts_record].
    apply (bounded_keepsDisk noCall 0), bounded_orElse, bounded_waitFor.
Qed.

(** [processISBN] never throws and records exactly one result. *)
Lemma processISBN_records isbn skipNavigation (st : State W) :
  exists r st' message,
    processISBN B env isbn skipNavigation st = (Ok r, st') /\
    disk st' = recordResult isbn (status_of r) message (disk st).
Proof.
  unfold processISBN, try_catch.
  match goal with |- context [match ?body st with _ => _ end] =>
    assert (Hbody : attempts isbn body) end.
  { apply attempts_bind.
    - destruct (negb skipNavigation);
        [apply keepsDisk_navigate | intros st0; reflexivity].
    - intros navSuccess. destruct (negb navSuccess); [apply attempts_record|].
      apply attempts_bind; [apply keepsDisk_search|].
      intros searchReady.
      destruct (negb searchReady); [apply attempts_record | apply attempts_classify]. }
  specialize (Hbody st).
  match goal with |- context [match ?body st with _ => _ end] =>
    destruct (body st) as [[r|e] st1] end.
  - destruct Hbody as (message & Hd). exists r, st1, message. split; [reflexivity | exact Hd].
  - rewrite recordAndReturn_run. eexists _, _, (Some e). split; [reflexivity|].
    cbn [withDisk disk status_of]. rewrite Hbody. reflexivity.
Qed.

(** With one unit of fuel for every line of the queue file the loop reaches
    the end of the queue, and it never throws. *)
Lemma processQueue_total fuel results (st : State W) :
  List.length (readLines QUEUE_FILE (disk st)) <= fuel ->
  exists all st', processQueue B env fuel results st = (Ok (Some all), st').
Proof.
  revert results st. induction fuel as [|fuel IH]; intros results st Hlen.
  - destruct (readLines QUEUE_FILE (disk st)) as [|isbn rest] eqn:Eq;
      [|cbn in Hlen; lia].
    exists results, st. cbn [processQueue]. rewrite Eq. reflexivity.
  - cbn [processQueue].
    destruct (readLines QUEUE_FILE (disk st)) as [|isbn rest] eqn:Eq.
    + exists results, st. reflexivity.
    + destruct (processISBN_records isbn true st) as (r & st1 & message & Hrun & Hd).
      rewrite (bind_Ok _ _ st st1 r Hrun).
      apply IH. rewrite Hd, (recordResult_dequeues isbn rest) by exact Eq.
      cbn in Hlen. lia.
Qed.

End Run.

Section ExitCode.

Context {W : Type} (B : Browser W) (env : Env).

Lemma processQueue_answers fuel results (st : State W) :
  exists r st', processQueue B env fuel results st = (Ok r, st').
Proof.
  revert results st. induction fuel as [|fuel IH]; intros results st;
    cbn [processQueue];
    destruct (readLines QUEUE_FILE (disk st)) as [|isbn rest]; eauto.
  destruct (processISBN_records B env isbn true st) as (r & st1 & _ & Hrun & _).
  rewrite (bind_Ok _ _ st st1 r Hrun). apply IH.
Qed.

Lemma processQueue_empty fuel results (st : State W) :
  readLines QUEUE_FILE (disk st) = [] ->
  processQueue B env fuel results st = (Ok (Some results), st).
Proof. intros E. destruct fuel; cbn [processQueue]; rewrite E; reflexivity. Qed.

Ltac unfold_run :=
  unfold firstPage, tryThrows, tryReturns, refused in *.

Ltac absurd_case :=
  let H := fresh in
  intros H; unfold_run;
  repeat match goal with
         | H : _ /\ _ |- _ => destruct H
         | H : exists _, _ |- _ => destruct H
         | H : _ \/ _ |- _ => destruct H
         end;
  subst; try discriminate; try congruence.

Ltac exit_one :=
  let H := fresh in
  intros ? H; first [discriminate H | injection H as <-; reflexivity].

(** C4 (amended): [runOliverAutomation] ends in [process.exit(1)] exactly
    when a credential is missing, when no identifier was supplied, or when
    its [try] block throws and the browser can then be closed; the [try]
    block throws when the first navigation to the search page throws, and
    when closing the browser at the end of a complete run throws.  The run
    returns, with no exit code of its own, exactly when the queue is empty
    after [initializeQueue], when the first navigation only answers [false],
    or when the queue has been worked through and the browser closed,
    whatever the results of the items.  An error is left for nobody to catch
    exactly when the first page cannot be opened or closing the browser in
    the [catch] block throws.  With one unit of fuel for every line of the
    queue the loop is followed to its end, and the script never exits with
    another code than 1.  The script itself hands the identifiers of its
    argument to [runOliverAutomation], and leaves the error uncaught when the
    argument is a path that cannot be read. *)
Theorem exit_code isbns fuel d (w : W) :
  (forall input entry,
     input <> EmptyString ->
     script B env (Some input) entry fuel d w
     = match readInput input entry with
       | Ok given => runOliverAutomation B env given fuel d w
       | Throw message => (Unhandled message, d, w, [])
       end) /\
  let termination := fst (fst (fst (runOliverAutomation B env isbns fuel d w))) in
  let queue := fst (initializeQueue isbns d) in
  (termination = Exit 1 <->
   refused env isbns \/
   (queue <> [] /\
    exists st st' st'',
      firstPage B isbns d w st /\ tryThrows B env fuel st st' /\
      act B browserClose st' = (Ok tt, st''))) /\
  (termination = Returned <->
   ~ refused env isbns /\
   (queue = [] \/ exists st, firstPage B isbns d w st /\ tryReturns B env fuel st)) /\
  (forall message,
     termination = Unhandled message <->
     ~ refused env isbns /\ queue <> [] /\
     ((exists w1, newPage B w = (Throw message, w1)) \/
      exists st st' st'',
        firstPage B isbns d w st /\ tryThrows B env fuel st st' /\
        act B browserClose st' = (Throw message, st''))) /\
  (List.length (readLines QUEUE_FILE (snd (initializeQueue isbns d))) <= fuel ->
   termination <> OutOfFuel) /\
  (forall code, termination = Exit code -> code = 1).
Proof.
  split.
  { intros input entry Hne. unfold script.
    destruct input; [congruence | reflexivity]. }
  intros termination queue. subst termination queue.
  unfold runOliverAutomation.
  destruct (truthy (OLIVER_USERNAME env)) eqn:Eu; cbn [negb orb fst].
  2:{ assert (Hr : refused env isbns) by (left; exact Eu).
      repeat split; try tauto; try discriminate; try absurd_case; try congruence. }
  destruct (truthy (OLIVER_PASSWORD env)) eqn:Ep; cbn [negb orb fst].
  2:{ assert (Hr : refused env isbns) by (right; left; exact Ep).
      repeat split; try tauto; try discriminate; try absurd_case; try congruence. }
  destruct (List.length isbns =? 0)%nat eqn:El; cbn [fst].
  { apply Nat.eqb_eq, length_zero_iff_nil in El.
    assert (Hr : refused env isbns) by (right; right; exact El).
    repeat split; try tauto; try discriminate; try absurd_case; try congruence. }
  assert (Hne : isbns <> []) by (intros ->; discriminate El).
  assert (Hr : ~ refused env isbns) by (intros [H|[H|H]]; congruence).
  destruct (initializeQueue isbns d) as [queue d1] eqn:Einit.
  cbn [fst snd] in *.
  destruct queue as [|q0 queue']; cbn [List.length Nat.eqb fst].
  { repeat split; try tauto; try discriminate; try absurd_case; try congruence. }
  assert (Hq : q0 :: queue' <> []) by discriminate.
  destruct (newPage B w) as [[p|e0] w1] eqn:Hpage; cbn [fst].
  2:{ split; [split; [discriminate | absurd_case]|].
      split; [split; [discriminate | absurd_case]|].
      split; [|split; [discriminate | exit_one]].
      intros message. split.
      - intros E. injection E as <-. split; [exact Hr|]. split; [exact Hq|].
        left. eauto.
      - absurd_case. }
  set (st := mkState p [p] d1 w1 []).
  assert (Hfirst : firstPage B isbns d w st).
  { exists p, w1. rewrite Einit. split; [exact Hpage | reflexivity]. }
  assert (Hst : forall st0, firstPage B isbns d w st0 -> st0 = st).
  { intros st0 (p0 & w0 & E0 & ->). rewrite Einit. cbn [snd]. unfold st. congruence. }
  clearbody st. clear Hpage.
  destruct (navigateToSmartCataloguing B env st) as [[ready|e] st1] eqn:Enav.
  - rewrite (bind_Ok _ _ st st1 ready Enav).
    destruct ready; cbn [negb].
    + destruct (processQueue_answers fuel [] st1) as (r & st2 & Hloop).
      rewrite (bind_Ok _ _ st1 st2 r Hloop).
      destruct r as [results|].
      * destruct (act B browserClose st2) as [[[]|e] st3] eqn:Ec.
        -- rewrite (bind_Ok _ _ st2 st3 tt Ec). cbn [ret fst].
           split; [split; [discriminate|]|].
           { intros [H | (_ & st0 & sa & sb & Hf & Ht & _)]; [tauto|].
             apply Hst in Hf. subst st0. unfold_run.
             destruct Ht as [(e & Ht) | (sc & rs & sd & e & H1 & H2 & H3)];
               congruence. }
           split; [split; [|reflexivity]|].
           { intros _. split; [exact Hr|]. right. exists st. split; [exact Hfirst|].
             right. exists st1, results, st2, st3. auto. }
           split; [|split; [discriminate | exit_one]].
           intros message. split; [discriminate|].
           intros (_ & _ & [(w0 & H) | (st0 & sa & sb & Hf & Ht & _)]).
           ++ destruct Hfirst as (p0 & w2 & E0 & _). congruence.
           ++ apply Hst in Hf. subst st0. unfold_run.
              destruct Ht as [(e & Ht) | (sc & rs & sd & e & H1 & H2 & H3)];
                congruence.
        -- rewrite (bind_Throw _ _ st2 st3 e Ec).
           assert (Hthrows : tryThrows B env fuel st st3).
           { right. exists st1, results, st2, e. auto. }
           assert (Hsame : forall sa, tryThrows B env fuel st sa -> sa = st3).
           { intros sa [(e1 & Ht) | (sc & rs & sd & e1 & H1 & H2 & H3)];
               congruence. }
           assert (Hnot : ~ tryReturns B env fuel st).
           { intros [(sa & Ht) | (sc & rs & sd & se & H1 & H2 & H3)]; congruence. }
           destruct (act B browserClose st3) as [[[]|e'] st4] eqn:Ec'; cbn [fst].
           ++ split; [split; [|reflexivity]|].
              { intros _. right. split; [exact Hq|]. exists st, st3, st4. auto. }
              split; [split; [discriminate|]|].
              { intros (_ & [H | (st0 & Hf & Ht)]); [congruence|].
                apply Hst in Hf. subst st0. contradiction. }
              split; [|split; [discriminate | exit_one]].
              intros message. split; [discriminate|].
              intros (_ & _ & [(w0 & H) | (st0 & sa & sb & Hf & Ht & Hc)]).
              ** destruct Hfirst as (p0 & w2 & E0 & _). congruence.
              ** apply Hst in Hf. subst st0. apply Hsame in Ht. subst sa. congruence.
           ++ split; [split; [discriminate|]|].
              { intros [H | (_ & st0 & sa & sb & Hf & Ht & Hc)]; [tauto|].
                apply Hst in Hf. subst st0. apply Hsame in Ht. subst sa. congruence. }
              split; [split; [discriminate|]|].
              { intros (_ & [H | (st0 & Hf & Ht)]); [congruence|].
                apply Hst in Hf. subst st0. contradiction. }
              split; [|split; [discriminate | exit_one]].
              intros message. split.
              ** intros E. injection E as <-. split; [exact Hr|]. split; [exact Hq|].
                 right. exists st, st3, st4. auto.
              ** intros (_ & _ & [(w0 & H) | (st0 & sa & sb & Hf & Ht & Hc)]).
                 --- destruct Hfirst as (p0 & w2 & E0 & _). congruence.
                 --- apply Hst in Hf. subst st0. apply Hsame in Ht. subst sa.
                     congruence.
      * cbn [ret fst].
        split; [split; [discriminate|]|].
        { intros [H | (_ & st0 & sa & sb & Hf & Ht & _)]; [tauto|].
          apply Hst in Hf. subst st0.
          destruct Ht as [(e & Ht) | (sc & rs & sd & e & H1 & H2 & H3)];
            congruence. }
        split; [split; [discriminate|]|].
        { intros (_ & [H | (st0 & Hf & Ht)]); [congruence|].
          apply Hst in Hf. subst st0.
          destruct Ht as [(sa & Ht) | (sc & rs & sd & se & H1 & H2 & H3)];
            congruence. }
        split; [|split; [|discriminate]].
        -- intros message. split; [discriminate|].
           intros (_ & _ & [(w0 & H) | (st0 & sa & sb & Hf & Ht & Hc)]).
           ++ destruct Hfirst as (p0 & w2 & E0 & _). congruence.
           ++ apply Hst in Hf. subst st0.
              destruct Ht as [(e & Ht) | (sc & rs & sd & e & H1 & H2 & H3)];
                congruence.
        -- intros Hfuel _.
           assert (Hkeep := keepsDisk_navigate B env st).
           rewrite Enav in Hkeep. cbn [snd] in Hkeep.
           destruct Hfirst as (p0 & w2 & _ & Est).
           rewrite Einit in Est. cbn [snd] in Est.
           destruct (processQueue_total B env fuel [] st1) as (all & sa & Ha).
           { rewrite Hkeep, Est. exact Hfuel. }
           congruence.
    + cbn [ret fst].
      split; [split; [discriminate|]|].
      { intros [H | (_ & st0 & sa & sb & Hf & Ht & _)]; [tauto|].
        apply Hst in Hf. subst st0.
        destruct Ht as [(e & Ht) | (sc & rs & sd & e & H1 & H2 & H3)];
          congruence. }
      split; [split; [|reflexivity]|].
      { intros _. split; [exact Hr|]. right. exists st. split; [exact Hfirst|].
        left. eauto. }
      split; [|split; [discriminate | exit_one]].
      intros message. split; [discriminate|].
      intros (_ & _ & [(w0 & H) | (st0 & sa & sb & Hf & Ht & Hc)]).
      * destruct Hfirst as (p0 & w2 & E0 & _). congruence.
      * apply Hst in Hf. subst st0.
        destruct Ht as [(e & Ht) | (sc & rs & sd & e & H1 & H2 & H3)];
          congruence.
  - rewrite (bind_Throw _ _ st st1 e Enav).
    assert (Hthrows : tryThrows B env fuel st st1) by (left; eauto).
    assert (Hsame : forall sa, tryThrows B env fuel st sa -> sa = st1).
    { intros sa [(e1 & Ht) | (sc & rs & sd & e1 & H1 & H2 & H3)]; congruence. }
    assert (Hnot : ~ tryReturns B env fuel st).
    { intros [(sa & Ht) | (sc & rs & sd & se & H1 & H2 & H3)]; congruence. }
    destruct (act B browserClose st1) as [[[]|e'] st2] eqn:Ec'; cbn [fst].
    + split; [split; [|reflexivity]|].
      { intros _. right. split; [exact Hq|]. exists st, st1, st2. auto. }
      split; [split; [discriminate|]|].
      { intros (_ & [H | (st0 & Hf & Ht)]); [congruence|].
        apply Hst in Hf. subst st0. contradiction. }
      split; [|split; [discriminate | exit_one]].
      intros message. split; [discriminate|].
      intros (_ & _ & [(w0 & H) | (st0 & sa & sb & Hf & Ht & Hc)]).
      * destruct Hfirst as (p0 & w2 & E0 & _). congruence.
      * apply Hst in Hf. subst st0. apply Hsame in Ht. subst sa. congruence.
    + split; [split; [discriminate|]|].
      { intros [H | (_ & st0 & sa & sb & Hf & Ht & Hc)]; [tauto|].
        apply Hst in Hf. subst st0. apply Hsame in Ht. subst sa. congruence. }
      split; [split; [discriminate|]|].
      { intros (_ & [H | (st0 & Hf & Ht)]); [congruence|].
        apply Hst in Hf. subst st0. contradiction. }
      split; [|split; [discriminate | exit_one]].
      intros message. split.
      * intros E. injection E as <-. split; [exact Hr|]. split; [exact Hq|].
        right. exists st, st1, st2. auto.
      * intros (_ & _ & [(w0 & H) | (st0 & sa & sb & Hf & Ht & Hc)]).
        -- destruct Hfirst as (p0 & w2 & E0 & _). congruence.
        -- apply Hst in Hf. subst st0. apply Hsame in Ht. subst sa. congruence.
Qed.

End ExitCode.

(** ** Scenarios on the scripted site *)

(** C4, counterexample: with credentials and one identifier, on a site where
    the search page cannot be reached, the first navigation answers [false]
    and the run returns; it does not exit with a code of its own, and the
    identifier stays in the queue. *)
Lemma unreachable_search_page_returns :
  let run := runOliverAutomation site credentials ["000"] 1 emptyDisk deadSite in
  fst (navigateToSmartCataloguing site credentials (opened ["000"] deadSite))
  = Ok false /\
  fst (fst (fst run)) = Returned /\
  fst (fst (fst run)) <> Exit 1 /\
  readLines QUEUE_FILE (snd (fst (fst run))) = ["000"].
Proof. vm_compute. repeat split; try reflexivity. discriminate. Qed.

Lemma exit_code_witness :
  let quiet := runOliverAutomation site credentials ["000"] 1 emptyDisk deadSite in
  let stuck := runOliverAutomation stage credentials ["000"] 1 emptyDisk stuckStage in
  fst (fst (fst quiet)) = Returned /\
  fst (fst (fst stuck)) = Exit 1 /\
  readLines NOT_FOUND_FILE (snd (fst (fst stuck))) = ["000"] /\
  readLines QUEUE_FILE (snd (fst (fst stuck))) = [] /\
  snd stuck <> [] /\
  (exists st,
     firstPage site ["000"] emptyDisk deadSite st /\
     tryReturns site credentials 1 st) /\
  (forall code,
     fst (fst (fst stuck)) = Exit code -> code = 1).
Proof.
  intros quiet stuck.
  pose proof (exit_code site credentials ["000"] 1 emptyDisk deadSite)
    as (_ & _ & Hreturned & _).
  pose proof (exit_code stage credentials ["000"] 1 emptyDisk stuckStage)
    as (_ & _ & _ & _ & _ & Hcode).
  assert (Hquiet : fst (fst (fst quiet)) = Returned) by (vm_compute; reflexivity).
  split; [exact Hquiet|].
  split; [vm_compute; reflexivity|]. split; [vm_compute; reflexivity|].
  split; [vm_compute; reflexivity|]. split; [vm_compute; discriminate|].
  split; [|exact Hcode].
  destruct (proj1 Hreturned Hquiet) as (_ & [Hq | Hst]); [|exact Hst].
  vm_compute in Hq. discriminate Hq.
Defined.


(** C7, counterexample: on a site where every search leaves the page at
    the search address with the permission-denied mark, the identifier is
    submitted three times, the third attempt answers [true], and the item is
    classified on the page without status text: it is recorded as UNKNOWN. *)
Lemma third_session_loss_is_classified :
  let st := stageAtSearchPage ["000"] denyingStage in
  let run := processISBN stage credentials "000" true st in
  let probes := filter isSearchClick (calls (snd run)) in
  fst (submitAndProbe stage "000" st) = Ok (false, true, true) /\
  List.length probes = 3 /\
  fst run = Ok (mkResult "000" UNKNOWN None) /\
  errorLines (disk (snd run)) = ["000 # No status message"].
Proof. vm_compute. repeat split; reflexivity. Qed.

Lemma session_loss_is_retried_witness :
  let st := atSearchPage ["000"] droppingSite in
  let st1 := snd (submitAndProbe site "000" st) in
  appears site "#smartCatSearchTerm" 15000%N st = (Ok true, st) /\
  submitAndProbe site "000" st = (Ok (true, false, false), st1) /\
  searchSmartCataloguing site credentials "000" 1 st
  = (reNav <- navigateToSmartCataloguing site credentials ;;
     if negb reNav then ret false
     else searchSmartCataloguing site credentials "000" (1 + 1)) st1 /\
  fst (searchSmartCataloguing site credentials "000" 1 st) = Ok true /\
  fst (processISBN site credentials "000" true st)
  = Ok (mkResult "000" NOT_FOUND None).
Proof.
  intros st st1.
  assert (Happears : appears site "#smartCatSearchTerm" 15000%N st = (Ok true, st))
    by (vm_compute; reflexivity).
  assert (Hprobe : submitAndProbe site "000" st = (Ok (true, false, false), st1))
    by (vm_compute; reflexivity).
  split; [exact Happears|]. split; [exact Hprobe|]. split.
  - refine (proj1 (session_loss_is_retried site credentials "000" 1 st st st1
                     true false false Happears Hprobe eq_refl) _).
    lia.
  - vm_compute. split; reflexivity.
Defined.

Lemma clickVisibleMenuItem_picks_visible_witness :
  let entries := locator 0 "#menuItem_smartCataloguing" in
  locatorCount site entries (world atMenu) = (Ok 2, world atMenu) /\
  (forall i, locatorIsVisible site (nth entries i) (world atMenu)
             = (Ok (renderedTwice i), world atMenu)) /\
  clickVisibleMenuItem site atMenu
  = act site (locatorClick (nth entries 1) None) atMenu /\
  filter isMenuItemClick (calls (atSearchPage ["000"] (world atMenu)))
  = [locatorClick (nth entries 1) None] /\
  fst (navigateToSmartCataloguing site credentials (opened ["000"] hiddenSite))
  = Throw "No visible Smart Cataloguing menu item found" /\
  filter isMenuItemClick
    (calls (snd (navigateToSmartCataloguing site credentials
                   (opened ["000"] hiddenSite)))) = [].
Proof.
  intros entries.
  assert (Hvis : forall i, locatorIsVisible site (nth entries i) (world atMenu)
                           = (Ok (renderedTwice i), world atMenu))
    by (intros i; reflexivity).
  split; [reflexivity|]. split; [exact Hvis|]. split.
  - pose proof (clickVisibleMenuItem_picks_visible site atMenu 2 renderedTwice
                  eq_refl Hvis) as H.
    cbn [find seq renderedTwice List.nth] in H. exact (proj2 H).
  - vm_compute. repeat split; reflexivity.
Defined.

(** The two scenarios of a single identifier: a book that is found and can
    be saved is added, and the queue is empty afterwards; an identifier that
    the site does not know is recorded as not found. *)
Example found_and_saved :
  let run := runOliverAutomation site credentials ["9780545139700"] 1 emptyDisk
               (freshSite "Found matching resource(s)" (Some false)) in
  let d := snd (fst (fst run)) in
  fst (fst (fst run)) = Returned /\
  readLines ADDED_FILE d = ["9780545139700"] /\
  readLines QUEUE_FILE d = [] /\
  existsb isElementClick (snd run) = true.
Proof. vm_compute. repeat split; reflexivity. Qed.

(** A second run that is given the identifier of an added book as an
    argument with blanks around it saves the book again: the argument matches
    no entry, is queued, and is read back trimmed. *)
Example raw_argument_is_saved_again :
  let w := freshSite "Found matching resource(s)" (Some false) in
  let d1 := snd (fst (fst (runOliverAutomation site credentials ["000"] 1
                             emptyDisk w))) in
  let d2 := snd (fst (fst (runOliverAutomation site credentials [" 000 "] 1
                             d1 w))) in
  readLines ADDED_FILE d1 = ["000"] /\
  fst (initializeQueue [" 000 "] d1) = [" 000 "] /\
  readLines ADDED_FILE d2 = ["000"; "000"].
Proof. vm_compute. repeat split; reflexivity. Qed.

Example unknown_identifier :
  let run := runOliverAutomation site credentials ["000"] 1 emptyDisk
               (freshSite "No matching resource found" None) in
  let d := snd (fst (fst run)) in
  fst (fst (fst run)) = Returned /\
  readLines NOT_FOUND_FILE d = ["000"] /\
  readLines QUEUE_FILE d = [].
Proof. vm_compute. repeat split; reflexivity. Qed.

(** * Further properties *)

(** ** Lines of a file *)

Lemma keepLine_spec l :
  keepLine l = true <-> l <> EmptyString /\ Js.startsWith l "#" = false.
Proof.
  unfold keepLine. rewrite andb_true_iff, negb_true_iff.
  destruct l as [|c l].
  - split; [intros [H _]; discriminate H | intros [H _]; congruence].
  - split; [intros [_ H]; split; [discriminate | exact H]
           | intros [_ H]; split; [reflexivity | exact H]].
Qed.

(** X1: [readLines] answers no line for a file that does not exist, and
    every line it answers is the trim of a piece of the text between two
    line breaks, is its own trim, is not empty, does not start with [#],
    and holds no line feed. *)
Theorem readLines_sanitises f d :
  (existsSync f d = false -> readLines f d = []) /\
  (forall l, In l (readLines f d) ->
     Js.trim l = l /\ l <> EmptyString /\ Js.startsWith l "#" = false /\
     hasLF l = false /\
     exists piece, In piece (Js.splitLines (readFileSync f d)) /\ l = Js.trim piece).
Proof.
  split.
  - intros H. unfold readLines. rewrite H. reflexivity.
  - intros l Hl.
    pose proof (readLines_clean f d) as Hc. rewrite Forall_forall in Hc.
    pose proof (Hc l Hl) as Hs. apply cleanLine_spec in Hs.
    destruct Hs as (Ht & Hk & Hlf).
    apply keepLine_spec in Hk. destruct Hk as [Hne Hsharp].
    repeat split; try assumption.
    rewrite readLines_parse in Hl. unfold parseLines in Hl.
    apply filter_In in Hl. destruct Hl as [Hin _].
    apply in_map_iff in Hin. destruct Hin as (piece & E & Hp).
    exists piece. split; [exact Hp | symmetry; exact E].
Qed.

(** X2: the lines that [writeLines] wrote are read back by [readLines] as
    the same list exactly when each of them is its own trim, is not empty,
    does not start with [#] and holds no line feed.  [writeLines] changes no
    other file, and whatever [readLines] read from a file is read back
    unchanged once it has been written. *)
Theorem writeLines_round_trip f lines d :
  (readLines f (writeLines f lines d) = lines
   <-> Forall (fun l => cleanLine l = true) lines) /\
  (forall g, g <> f -> content (writeLines f lines d) g = content d g) /\
  (forall g d0, readLines f (writeLines f (readLines g d0) d) = readLines g d0).
Proof.
  split; [|split].
  - split.
    + intros H. rewrite <- H. apply readLines_clean.
    + apply readLines_writeLines_same.
  - intros g Hg. unfold writeLines. apply content_write_other, Hg.
  - intros g d0. apply readLines_writeLines_same, readLines_clean.
Qed.

(** X3: on a file that does not exist, is empty, or ends with a line feed,
    [appendLine] without a message puts the line after the lines the file
    had; the file ends with a line feed again, and no other file changes. *)
Theorem appendLine_adds_line f line d :
  terminated (readFileSync f d) = true -> cleanLine line = true ->
  let d' := appendLine f line None d in
  readLines f d' = (readLines f d ++ [line])%list /\
  terminated (readFileSync f d') = true /\
  (forall g, g <> f -> content d' g = content d g).
Proof.
  intros Ht Hc d'. subst d'. split; [|split].
  - apply readLines_appendLine_same; assumption.
  - rewrite appendLine_write, readFileSync_write_same. apply terminated_append.
  - intros g Hg. rewrite appendLine_write. apply content_write_other, Hg.
Qed.

Lemma appendLine_adds_line_witness :
  readLines ADDED_FILE (appendLine ADDED_FILE "000" None twoQueued) = ["000"] /\
  readLines ADDED_FILE
    (appendLine ADDED_FILE "9780545139700" None
       (appendLine ADDED_FILE "000" None twoQueued))
  = ["000"; "9780545139700"].
Proof.
  pose proof (appendLine_adds_line ADDED_FILE "000" twoQueued eq_refl eq_refl)
    as (H1 & Ht & _).
  split; [exact H1|].
  rewrite (proj1 (appendLine_adds_line ADDED_FILE "9780545139700" _ Ht eq_refl)).
  rewrite H1. reflexivity.
Defined.

(** A text without line feed is one piece. *)
Lemma isEmpty_app a b : Js.isEmpty b = false -> Js.isEmpty (a ++ b) = false.
Proof. destruct a; [auto | reflexivity]. Qed.

Lemma trimEnd_app a b :
  Js.isEmpty (Js.trimEnd b) = false -> Js.trimEnd (a ++ b) = a ++ Js.trimEnd b.
Proof.
  intros H. induction a as [|c a IH]; [reflexivity|].
  cbn [append Js.trimEnd]. rewrite IH, (isEmpty_app a _ H), andb_false_r.
  reflexivity.
Qed.

Lemma cleanLine_trimEnd l : cleanLine l = true -> Js.trimEnd l = l.
Proof.
  intros H. destruct (cleanLine_black l H) as (c & s & -> & Hw).
  apply cleanLine_spec in H. destruct H as (Ht & _ & _).
  unfold Js.trim in Ht. rewrite trimStart_fixed in Ht; [exact Ht|].
  cbn. rewrite Hw. reflexivity.
Qed.

(** Two clean lines written one after the other are one clean line. *)
Lemma cleanLine_app l line :
  cleanLine l = true -> cleanLine line = true -> cleanLine (l ++ line) = true.
Proof.
  intros Hl Hline.
  pose proof (cleanLine_trimEnd line Hline) as Hte.
  destruct (cleanLine_black l Hl) as (c & s & -> & Hw).
  destruct (cleanLine_black line Hline) as (c2 & s2 & E2 & Hw2).
  apply cleanLine_spec in Hl. destruct Hl as (_ & Hk & Hlf).
  apply cleanLine_spec in Hline. destruct Hline as (_ & _ & Hlf2).
  apply cleanLine_spec. split; [|split].
  - unfold Js.trim. rewrite trimStart_fixed by (cbn; rewrite Hw; reflexivity).
    rewrite trimEnd_app; rewrite Hte; [reflexivity|].
    subst line. reflexivity.
  - apply keepLine_spec in Hk. destruct Hk as [_ Hs].
    apply keepLine_spec. split; [discriminate|].
    revert Hs. unfold Js.startsWith. cbn [append String.prefix].
    destruct (ascii_dec "#" c); [|reflexivity]. destruct s; discriminate.
  - rewrite hasLF_app, Hlf, Hlf2. reflexivity.
Qed.

Lemma append_longer (l line : string) : line <> EmptyString -> l <> l ++ line.
Proof.
  intros Hne E. apply (f_equal String.length) in E.
  rewrite length_append in E. destruct line; [congruence | cbn in E; lia].
Qed.

(** X4: when the text of a file does not end with a line feed,
    [appendLine] glues the new line to the last one.  The file then reads as
    its earlier lines followed by the two joined, and the old last line is
    no longer read from it, unless an earlier line repeats it. *)
Theorem appendLine_after_unterminated_text f a l line d :
  content d f = Some (a ++ l) ->
  terminated a = true -> cleanLine l = true -> cleanLine line = true ->
  let d' := appendLine f line None d in
  readLines f d = (parseLines a ++ [l])%list /\
  readLines f d' = (parseLines a ++ [(l ++ line)%string])%list /\
  (~ In l (parseLines a) -> ~ In l (readLines f d')).
Proof.
  intros Hc Ha Hl Hline d'.
  assert (Hread : readFileSync f d = a ++ l).
  { unfold readFileSync. rewrite Hc. reflexivity. }
  assert (H1 : readLines f d = (parseLines a ++ [l])%list).
  { rewrite readLines_parse, Hread, parseLines_app by exact Ha.
    rewrite (parseLines_whole l Hl). reflexivity. }
  assert (H2 : readLines f d' = (parseLines a ++ [(l ++ line)%string])%list).
  { unfold d'. rewrite appendLine_write, readLines_write_same, Hread.
    cbn [appended]. rewrite append_assoc, parseLines_app by exact Ha.
    f_equal.
    replace (l ++ line ++ nl) with ((l ++ line) ++ nl ++ EmptyString)
      by (rewrite append_nil_r, append_assoc; reflexivity).
    rewrite parseLines_line by (apply cleanLine_app; assumption).
    reflexivity. }
  split; [exact H1|]. split; [exact H2|].
  intros Hnot Hin. rewrite H2 in Hin. apply in_app_or in Hin.
  destruct Hin as [Hin | [E | []]]; [exact (Hnot Hin)|].
  apply (append_longer l line); [|symmetry; exact E].
  destruct (cleanLine_black line Hline) as (c & s & -> & _). discriminate.
Qed.

(** X5: after [removeFirstLineFromQueue] the queue reads as its old lines
    without the first, and no other file has changed.  A queue that is
    missing or reads as empty is not written at all; otherwise the file is
    rewritten as the remaining identifiers, one on a line, so the comments
    and blank lines it had are gone. *)
Theorem removeFirstLineFromQueue_tail d :
  readLines QUEUE_FILE (removeFirstLineFromQueue d) = tl (readLines QUEUE_FILE d) /\
  (forall f, f <> QUEUE_FILE ->
     content (removeFirstLineFromQueue d) f = content d f) /\
  (readLines QUEUE_FILE d = [] -> removeFirstLineFromQueue d = d) /\
  (readLines QUEUE_FILE d <> [] ->
   content (removeFirstLineFromQueue d) QUEUE_FILE
   = Some (Js.join (tl (readLines QUEUE_FILE d)) ++ nl)).
Proof.
  pose proof (readLines_clean QUEUE_FILE d) as Hclean.
  split; [|split; [|split]].
  - destruct (readLines QUEUE_FILE d) as [|isbn rest] eqn:Eq.
    + unfold removeFirstLineFromQueue. rewrite Eq. exact Eq.
    + rewrite (removeFirstLineFromQueue_cons d isbn rest Eq).
      inversion Hclean; subst. apply readLines_writeLines_same. assumption.
  - intros f Hf. apply removeFirstLineFromQueue_other, Hf.
  - intros Eq. unfold removeFirstLineFromQueue. rewrite Eq. reflexivity.
  - intros Hne. destruct (readLines QUEUE_FILE d) as [|isbn rest] eqn:Eq;
      [congruence|].
    rewrite (removeFirstLineFromQueue_cons d isbn rest Eq).
    unfold writeLines. apply content_write_same.
Qed.

(** ** Running the script again *)

Lemma getProcessedIsbns_initializeQueue inputIsbns d :
  getProcessedIsbns (snd (initializeQueue inputIsbns d)) = getProcessedIsbns d.
Proof.
  destruct (initializeQueue_ledgers inputIsbns d) as (Ha & Hx & Hn & _).
  unfold getProcessedIsbns. rewrite Ha, Hx, Hn. reflexivity.
Qed.

Lemma filter_all {A} (f : A -> bool) l :
  (forall x, In x l -> f x = true) -> filter f l = l.
Proof.
  induction l as [|x l IH]; intros H; [reflexivity|].
  cbn [filter]. rewrite (H x (or_introl eq_refl)). f_equal.
  apply IH. intros y Hy. apply H. right. exact Hy.
Qed.

Lemma filter_none {A} (f : A -> bool) l :
  (forall x, In x l -> f x = false) -> filter f l = [].
Proof.
  induction l as [|x l IH]; intros H; [reflexivity|].
  cbn [filter]. rewrite (H x (or_introl eq_refl)).
  apply IH. intros y Hy. apply H. right. exact Hy.
Qed.

(** X6: [initializeQueue], called again with the same identifiers on the
    disk it left, answers the same queue and writes nothing. *)
Theorem initializeQueue_idempotent inputIsbns d :
  Forall (fun l => cleanLine l = true) inputIsbns ->
  let queue := fst (initializeQueue inputIsbns d) in
  let d' := snd (initializeQueue inputIsbns d) in
  initializeQueue inputIsbns d' = (queue, d').
Proof.
  intros Hclean queue d'.
  destruct queue as [|y q] eqn:Eq.
  - assert (Hd : d' = d) by (apply initializeQueue_nil; exact Eq).
    rewrite Hd. rewrite <- Eq. unfold queue. rewrite <- Hd at 3. unfold d'.
    apply surjective_pairing.
  - assert (Hq : readLines QUEUE_FILE d' = queue).
    { apply initializeQueue_persisted; [exact Hclean|].
      fold queue. rewrite Eq. discriminate. }
    assert (Hin : forall x, In x queue <->
              unprocessed d x = true /\
              (In x (readLines QUEUE_FILE d) \/ In x inputIsbns))
      by (intros x; apply In_initializeQueue).
    assert (Hcl : filter (fun isbn => negb (Set_has (getProcessedIsbns d) isbn))
                         queue = queue).
    { apply filter_all. intros x Hx. apply Hin in Hx. exact (proj1 Hx). }
    assert (Hnew : filter (fun isbn => negb (Set_has (getProcessedIsbns d) isbn)
                                       && negb (Array_includes queue isbn))
                          inputIsbns = []).
    { apply filter_none. intros x Hx.
      destruct (negb (Set_has (getProcessedIsbns d) x)) eqn:Eu; [|reflexivity].
      cbn [andb]. apply negb_false_iff, Array_includes_In, Hin.
      split; [exact Eu | right; exact Hx]. }
    unfold initializeQueue at 1. cbv zeta.
    fold d'. rewrite Hq.
    replace (getProcessedIsbns d') with (getProcessedIsbns d)
      by (symmetry; apply getProcessedIsbns_initializeQueue).
    rewrite Hcl, Hnew. rewrite Eq. cbn [List.length Nat.ltb Nat.leb].
    rewrite Nat.eqb_refl. reflexivity.
Qed.

Lemma initializeQueue_idempotent_witness :
  initializeQueue ["9780545139700"; "000"] twoQueued
  = (["9780545139700"; "000"], twoQueued).
Proof.
  refine (initializeQueue_idempotent ["9780545139700"; "000"] emptyDisk _).
  repeat constructor.
Defined.

Lemma emptyDisk_terminatedLedgers : terminatedLedgers emptyDisk.
Proof. intros status. reflexivity. Qed.

Lemma count_occ_zero_In (l : list string) x :
  count_occ string_dec l x = 0 <-> ~ In x l.
Proof. symmetry. apply count_occ_not_In. Qed.

(** X7: a first run on well-formed identifiers without repetition that
    stops between two items, whatever results and messages it has recorded,
    and is started again with the same identifiers takes up the queue where
    it was left, and puts after it the identifiers that have an error record,
    in the order of the input. *)
Theorem rerun_resumes_and_retries inputIsbns d :
  tidy inputIsbns ->
  itemBoundary (snd (initializeQueue inputIsbns emptyDisk)) d ->
  exists entries,
    readFileSync ERRORS_FILE d = errorsText entries /\
    fst (initializeQueue inputIsbns d)
    = (readLines QUEUE_FILE d
       ++ filter (Array_includes (map fst entries)) inputIsbns)%list.
Proof.
  intros [Hnd Hclean] Hb.
  destruct (initializeQueue_emptyDisk inputIsbns Hclean) as (Hh0 & _).
  set (d1 := snd (initializeQueue inputIsbns emptyDisk)) in *.
  assert (Hterm1 : terminatedLedgers d1)
    by (apply initializeQueue_terminatedLedgers, emptyDisk_terminatedLedgers).
  destruct (itemBoundary_conservation d1 d Hterm1 Hb) as (_ & errs & He & _ & Hc).
  exists errs. split.
  { rewrite He. unfold d1. rewrite initializeQueue_errors. reflexivity. }
  rewrite Hh0 in Hc.
  assert (Hone : forall x,
            count_occ string_dec (readLines QUEUE_FILE d) x
            + count_occ string_dec (getProcessedIsbns d) x
            + count_occ string_dec (map fst errs) x
            = count_occ string_dec inputIsbns x
            /\ count_occ string_dec inputIsbns x <= 1).
  { intros x. specialize (Hc x). unfold plainHoldings in Hc.
    unfold getProcessedIsbns. rewrite !count_occ_app in *.
    split; [lia|]. apply (proj1 (NoDup_count_occ string_dec inputIsbns) Hnd). }
  rewrite initializeQueue_queue.
  assert (Hcl : cleanedQueue d = readLines QUEUE_FILE d).
  { unfold cleanedQueue. apply filter_all. intros x Hx.
    unfold unprocessed. apply negb_true_iff, not_true_iff_false.
    rewrite Set_has_In. intros Hp.
    apply (count_occ_In string_dec) in Hx, Hp.
    destruct (Hone x). lia. }
  rewrite Hcl. f_equal. unfold newIsbns. rewrite Hcl.
  apply filter_ext_in. intros x Hx.
  apply (count_occ_In string_dec) in Hx. destruct (Hone x) as [Hsum Hle].
  destruct (Array_includes (map fst errs) x) eqn:Ee.
  - apply Array_includes_In, (count_occ_In string_dec) in Ee.
    apply andb_true_iff. split.
    + unfold unprocessed. apply negb_true_iff, not_true_iff_false.
      rewrite Set_has_In. intros Hp. apply (count_occ_In string_dec) in Hp. lia.
    + apply negb_true_iff, not_true_iff_false.
      rewrite Array_includes_In. intros Hp.
      apply (count_occ_In string_dec) in Hp. lia.
  - apply not_true_iff_false in Ee. rewrite Array_includes_In in Ee.
    apply count_occ_zero_In in Ee.
    apply andb_false_iff.
    destruct (Array_includes (readLines QUEUE_FILE d) x) eqn:Eq;
      [right; reflexivity | left].
    apply not_true_iff_false in Eq. rewrite Array_includes_In in Eq.
    apply count_occ_zero_In in Eq.
    unfold unprocessed. apply negb_false_iff, Set_has_In.
    apply (count_occ_In string_dec). lia.
Qed.

Lemma errorLines_same_content d d' :
  content d' ERRORS_FILE = content d ERRORS_FILE -> errorLines d' = errorLines d.
Proof. intros E. unfold errorLines, existsSync, readFileSync. rewrite E. reflexivity. Qed.

(** X8: on an errors file that is missing, empty or ends with a line
    feed, an ERROR or UNKNOWN result adds to the error lines of the report
    the lines of its record [isbn # message] that are not blank: a message of
    several lines takes several lines.  The other results add none. *)
Theorem recordResult_error_lines isbn status errorMessage d :
  terminated (readFileSync ERRORS_FILE d) = true ->
  let d' := recordResult isbn status errorMessage d in
  (ledgerFile status = ERRORS_FILE ->
   errorLines d'
   = (errorLines d
      ++ filter nonBlank
           (Js.splitLines (isbn ++ " # " ++ messageOrDefault errorMessage ++ nl)))%list)
  /\ (ledgerFile status <> ERRORS_FILE -> errorLines d' = errorLines d).
Proof.
  intros Ht d'.
  assert (Hd' : errorLines d'
                = errorLines (writeFileSync (ledgerFile status)
                     (readFileSync (ledgerFile status) d
                      ++ appended isbn (ledgerMessage status errorMessage) ++ nl) d)).
  { unfold d'. rewrite recordResult_steps. apply errorLines_same_content.
    apply removeFirstLineFromQueue_other. discriminate. }
  split.
  - intros Hf. rewrite Hd', Hf, errorLines_write, errorLines_parse.
    destruct (splitLines_terminated _ Ht) as (P & HP1 & HP2).
    rewrite HP1, HP2, !filter_app. cbn [filter nonBlank Js.trim Js.trimStart
      Js.trimEnd Js.isEmpty negb]. rewrite app_nil_r. f_equal.
    assert (Hm : ledgerMessage status errorMessage = orUnknownError errorMessage)
      by (destruct status; try discriminate Hf; reflexivity).
    rewrite Hm, appended_error, !append_assoc. reflexivity.
  - intros Hf. rewrite Hd'. apply errorLines_write_other. exact Hf.
Qed.

Lemma recordResult_error_lines_witness :
  errorLines
    (recordResult "000" ERROR
       (Some ("page.click: Timeout 30000ms exceeded." ++ nl ++ "Call log:"))
       twoQueued)
  = ["000 # page.click: Timeout 30000ms exceeded."; "Call log:"].
Proof.
  exact (proj1 (recordResult_error_lines "000" ERROR
                  (Some ("page.click: Timeout 30000ms exceeded." ++ nl ++ "Call log:"))
                  twoQueued eq_refl) eq_refl).
Defined.

Lemma rerun_resumes_and_retries_witness :
  let d := recordResult "9780545139700" ERROR
             (Some ("page.click: Timeout 30000ms exceeded." ++ nl ++ "Call log:"))
             twoQueued in
  tidy ["9780545139700"; "000"] /\
  itemBoundary twoQueued d /\
  readLines QUEUE_FILE d = ["000"] /\
  exists entries,
    readFileSync ERRORS_FILE d = errorsText entries /\
    fst (initializeQueue ["9780545139700"; "000"] d)
    = (["000"] ++ filter (Array_includes (map fst entries)) ["9780545139700"; "000"])%list.
Proof.
  intros d.
  assert (Ht : tidy ["9780545139700"; "000"]).
  { split; repeat constructor; cbn; intuition discriminate. }
  assert (Hb : itemBoundary twoQueued d).
  { apply boundary_next with (rest := ["000"]);
      [apply boundary_start | reflexivity]. }
  split; [exact Ht|]. split; [exact Hb|]. split; [reflexivity|].
  exact (rerun_resumes_and_retries ["9780545139700"; "000"] d Ht Hb).
Defined.

Lemma appendLine_after_unterminated_text_witness :
  let d := writeFileSync ADDED_FILE "9780545139700" emptyDisk in
  readLines ADDED_FILE d = ["9780545139700"] /\
  readLines ADDED_FILE (appendLine ADDED_FILE "000" None d) = ["9780545139700000"] /\
  ~ In "9780545139700" (readLines ADDED_FILE (appendLine ADDED_FILE "000" None d)).
Proof.
  intros d.
  pose proof (appendLine_after_unterminated_text ADDED_FILE EmptyString
                "9780545139700" "000" d eq_refl eq_refl eq_refl eq_refl)
    as (H1 & H2 & H3).
  split; [exact H1|]. split; [exact H2|]. apply H3. intros [].
Defined.

(** ** The input file *)

Lemma splitSeparators_cons1 c :
  splitSeparators (String c EmptyString) =
  if isSeparator c then [EmptyString; EmptyString] else [String c EmptyString].
Proof. reflexivity. Qed.

Lemma splitSeparators_cons2 c d s :
  splitSeparators (String c (String d s)) =
  if isSeparator c then
    if isSeparator d then splitSeparators (String d s)
    else EmptyString :: splitSeparators (String d s)
  else Js.push c (splitSeparators (String d s)).
Proof. reflexivity. Qed.

Lemma isSeparator_LF : isSeparator Js.LF = true.
Proof. reflexivity. Qed.

Lemma isSeparator_toLF c :
  isSeparator (if isSeparator c then Js.LF else c) = isSeparator c.
Proof. destruct (isSeparator c) eqn:E; [reflexivity | exact E]. Qed.

Lemma splitSeparators_toLF s :
  splitSeparators (separatorsToLF s) = splitSeparators s.
Proof.
  induction s as [| c | c d s IH1 IH2] using string_ind2.
  - reflexivity.
  - cbn [separatorsToLF]. rewrite !splitSeparators_cons1, isSeparator_toLF.
    destruct (isSeparator c); reflexivity.
  - cbn [separatorsToLF] in IH2 |- *.
    rewrite !splitSeparators_cons2, !isSeparator_toLF, IH2.
    destruct (isSeparator c); reflexivity.
Qed.

Lemma isComma_toLF s : existsChar isComma (separatorsToLF s) = false.
Proof.
  induction s as [|c s IH]; [reflexivity|].
  cbn [separatorsToLF existsChar]. rewrite IH, orb_false_r.
  unfold isSeparator, isComma.
  destruct (Ascii.eqb c Js.LF) eqn:E1; [reflexivity|].
  destruct (Ascii.eqb c ",") eqn:E2; [reflexivity|].
  destruct (Ascii.eqb c ";") eqn:E3; [reflexivity|].
  cbn [orb]. rewrite E2, E3. reflexivity.
Qed.

Lemma isSeparator_plain c :
  isComma c = false -> isSeparator c = Ascii.eqb c Js.LF.
Proof.
  unfold isComma, isSeparator. intros H. apply orb_false_elim in H.
  destruct H as [-> ->]. rewrite !orb_false_r. reflexivity.
Qed.

(** Cutting at line feeds only: [split(/[\n,;]+/)] and [split(/\r?\n/)]
    give the same pieces up to white space and empty pieces. *)
Lemma split_agree s :
  existsChar isComma s = false ->
  exists h1 t1 h2 t2,
    Js.splitLines s = h1 :: t1 /\ splitSeparators s = h2 :: t2 /\
    (h2 = h1 \/ h2 = h1 ++ String Js.CR EmptyString) /\
    filter keepLine (map Js.trim t1) = filter keepLine (map Js.trim t2) /\
    (forall c s', s = String c s' -> isSeparator c = true ->
                  h1 = EmptyString /\ h2 = EmptyString).
Proof.
  induction s as [| c | c d s IH1 IH2] using string_ind2; intros Hp.
  - exists EmptyString, [], EmptyString, [].
    split; [reflexivity|]. split; [reflexivity|]. split; [left; reflexivity|].
    split; [reflexivity|]. intros c s' E. discriminate E.
  - cbn [existsChar] in Hp. rewrite orb_false_r in Hp.
    pose proof (isSeparator_plain c Hp) as Hs.
    rewrite splitLines_cons1, splitSeparators_cons1, Hs.
    destruct (Ascii.eqb c Js.LF) eqn:Ec.
    + exists EmptyString, [EmptyString], EmptyString, [EmptyString].
      split; [reflexivity|]. split; [reflexivity|]. split; [left; reflexivity|].
      split; [reflexivity|]. intros; split; reflexivity.
    + exists (String c EmptyString), [], (String c EmptyString), [].
      split; [reflexivity|]. split; [reflexivity|]. split; [left; reflexivity|].
      split; [reflexivity|]. intros c0 s' E H. injection E as <- <-. congruence.
  - cbn [existsChar] in Hp. apply orb_false_elim in Hp. destruct Hp as [Hc Hp].
    pose proof (isSeparator_plain c Hc) as Hs.
    assert (Hd : isComma d = false).
    { cbn [existsChar] in Hp. apply orb_false_elim in Hp. tauto. }
    pose proof (isSeparator_plain d Hd) as Hsd.
    destruct (IH2 Hp) as (h1 & t1 & h2 & t2 & E1 & E2 & Hh & Ht & Hfirst).
    assert (Hsift : filter keepLine (map Js.trim (h1 :: t1))
                    = filter keepLine (map Js.trim (h2 :: t2))).
    { cbn [map filter]. rewrite Ht.
      destruct Hh as [-> | ->]; [reflexivity|].
      rewrite trim_app_white by reflexivity. reflexivity. }
    rewrite splitLines_cons2, splitSeparators_cons2, Hs, Hsd.
    destruct (Ascii.eqb c Js.LF) eqn:Ec.
    + destruct (Ascii.eqb d Js.LF) eqn:Ed.
      * destruct (Hfirst d s eq_refl) as [-> ->]; [exact Hsd|].
        rewrite E1, E2.
        exists EmptyString, (EmptyString :: t1), EmptyString, t2.
        split; [reflexivity|]. split; [reflexivity|]. split; [left; reflexivity|].
        split; [exact Ht|]. intros; split; reflexivity.
      * rewrite E1, E2.
        exists EmptyString, (h1 :: t1), EmptyString, (h2 :: t2).
        split; [reflexivity|]. split; [reflexivity|]. split; [left; reflexivity|].
        split; [exact Hsift|]. intros; split; reflexivity.
    + destruct (Ascii.eqb c Js.CR) eqn:Er; cbn [andb].
      * destruct (Ascii.eqb d Js.LF) eqn:Ed.
        -- destruct (Hfirst d s eq_refl) as [-> ->]; [exact Hsd|].
           rewrite E2. cbn [Js.push].
           apply Ascii.eqb_eq in Ed. subst d.
           change (Js.splitLines (String Js.LF s))
             with (EmptyString :: Js.splitLines s) in E1.
           injection E1 as E1. rewrite E1.
           apply Ascii.eqb_eq in Er. subst c.
           exists EmptyString, t1, (String Js.CR EmptyString), t2.
           split; [reflexivity|]. split; [reflexivity|].
           split; [right; reflexivity|]. split; [exact Ht|].
           intros c0 s' E H. injection E as <- <-. discriminate H.
        -- rewrite E1, E2. cbn [Js.push].
           exists (String c h1), t1, (String c h2), t2.
           split; [reflexivity|]. split; [reflexivity|].
           split; [destruct Hh as [-> | ->]; [left | right]; reflexivity|].
           split; [exact Ht|].
           intros c0 s' E H. injection E as <- <-. congruence.
      * rewrite E1, E2. cbn [Js.push].
        exists (String c h1), t1, (String c h2), t2.
        split; [reflexivity|]. split; [reflexivity|].
        split; [destruct Hh as [-> | ->]; [left | right]; reflexivity|].
        split; [exact Ht|].
        intros c0 s' E H. injection E as <- <-. congruence.
Qed.

Lemma sift_agree s :
  existsChar isComma s = false ->
  filter keepLine (map Js.trim (splitSeparators s)) = parseLines s.
Proof.
  intros Hs. unfold parseLines.
  destruct (split_agree s Hs) as (h1 & t1 & h2 & t2 & E1 & E2 & Hh & Ht & _).
  rewrite E1, E2. cbn [map filter]. rewrite Ht.
  destruct Hh as [-> | ->]; [reflexivity|].
  rewrite trim_app_white by reflexivity. reflexivity.
Qed.

(** X9: the identifiers of an input file are the lines that [readLines]
    finds in its text once every comma and semicolon is a line feed; a file
    without comma and semicolon is read like a queue or ledger file. *)
Theorem parseInput_as_lines content :
  parseInput content = parseLines (separatorsToLF content) /\
  (existsChar isComma content = false -> parseInput content = parseLines content).
Proof.
  split.
  - unfold parseInput. rewrite <- (splitSeparators_toLF content).
    apply sift_agree, isComma_toLF.
  - intros Hplain. unfold parseInput. apply sift_agree, Hplain.
Qed.

Lemma existsChar_push p c l :
  p c = false ->
  Forall (fun piece => existsChar p piece = false) l ->
  Forall (fun piece => existsChar p piece = false) (Js.push c l).
Proof.
  intros Hc Hl. destruct l as [|x l]; cbn [Js.push].
  - constructor; [cbn; rewrite Hc; reflexivity | constructor].
  - inversion Hl; subst. constructor; [cbn; rewrite Hc; assumption | assumption].
Qed.

Lemma splitSeparators_pieces s :
  Forall (fun piece => existsChar isSeparator piece = false) (splitSeparators s).
Proof.
  induction s as [| c | c d s IH1 IH2] using string_ind2.
  - repeat constructor.
  - rewrite splitSeparators_cons1. destruct (isSeparator c) eqn:Ec.
    + repeat constructor.
    + repeat constructor. cbn. rewrite Ec. reflexivity.
  - rewrite splitSeparators_cons2. destruct (isSeparator c) eqn:Ec.
    + destruct (isSeparator d); [exact IH2 | constructor; [reflexivity | exact IH2]].
    + apply existsChar_push; assumption.
Qed.

Lemma existsChar_trimStart p s :
  existsChar p s = false -> existsChar p (Js.trimStart s) = false.
Proof.
  induction s as [|c s IH]; intros H; [reflexivity|].
  cbn [Js.trimStart]. destruct (Js.isWhiteSpace c); [|exact H].
  apply IH. cbn [existsChar] in H. apply orb_false_elim in H. tauto.
Qed.

Lemma existsChar_trimEnd p s :
  existsChar p s = false -> existsChar p (Js.trimEnd s) = false.
Proof.
  induction s as [|c s IH]; intros H; [reflexivity|].
  cbn [existsChar] in H. apply orb_false_elim in H. destruct H as [Hc H].
  cbn [Js.trimEnd]. destruct (Js.isWhiteSpace c && Js.isEmpty (Js.trimEnd s)).
  - reflexivity.
  - cbn [existsChar]. rewrite Hc, (IH H). reflexivity.
Qed.

Lemma parseInput_clean content :
  Forall (fun l => cleanLine l = true /\ existsChar isSeparator l = false)
         (parseInput content).
Proof.
  apply Forall_forall. intros l Hl. split.
  - unfold parseInput in Hl. rewrite <- (splitSeparators_toLF content) in Hl.
    rewrite (sift_agree _ (isComma_toLF content)) in Hl.
    pose proof (parseLines_clean (separatorsToLF content)) as H.
    rewrite Forall_forall in H. apply H, Hl.
  - unfold parseInput in Hl. apply filter_In in Hl. destruct Hl as [Hin _].
    apply in_map_iff in Hin. destruct Hin as (piece & <- & Hp).
    apply existsChar_trimEnd, existsChar_trimStart.
    pose proof (splitSeparators_pieces content) as H.
    rewrite Forall_forall in H. apply H, Hp.
Qed.

Lemma initializeQueue_fresh inputIsbns :
  fst (initializeQueue inputIsbns emptyDisk) = inputIsbns.
Proof.
  rewrite initializeQueue_queue. unfold newIsbns.
  change (cleanedQueue emptyDisk) with (@nil string). cbn [app].
  apply filter_all. intros x _. reflexivity.
Qed.

Lemma initializeQueue_fresh_file inputIsbns :
  Forall (fun l => cleanLine l = true) inputIsbns ->
  readLines QUEUE_FILE (snd (initializeQueue inputIsbns emptyDisk)) = inputIsbns.
Proof.
  intros Hclean. destruct inputIsbns as [|x l] eqn:E; [reflexivity|].
  rewrite <- E in *. rewrite <- (initializeQueue_fresh inputIsbns) at 2.
  apply initializeQueue_persisted; [exact Hclean|].
  rewrite initializeQueue_fresh, E. discriminate.
Qed.

(** X10: the identifiers read from an input file are their own trim, not
    empty, not comments, and hold no separator; on an empty directory
    [initializeQueue] answers exactly them, in their order, and the queue file
    reads as them. *)
Theorem input_file_is_queued input content :
  exists isbns,
    readInput input (regular content) = Ok isbns /\
    Forall (fun l => cleanLine l = true /\ existsChar isSeparator l = false) isbns /\
    fst (initializeQueue isbns emptyDisk) = isbns /\
    readLines QUEUE_FILE (snd (initializeQueue isbns emptyDisk)) = isbns.
Proof.
  exists (parseInput content). split; [reflexivity|].
  pose proof (parseInput_clean content) as Hclean.
  split; [exact Hclean|]. split; [apply initializeQueue_fresh|].
  apply initializeQueue_fresh_file.
  apply Forall_forall. intros l Hl. rewrite Forall_forall in Hclean.
  exact (proj1 (Hclean l Hl)).
Qed.

Lemma parseLines_one s :
  hasLF s = false ->
  parseLines s = if keepLine (Js.trim s) then [Js.trim s] else [].
Proof.
  intros Hlf. unfold parseLines. rewrite splitLines_whole by exact Hlf.
  cbn [map filter]. destruct (keepLine (Js.trim s)); reflexivity.
Qed.

Section RawArgument.

Context {W : Type} (B : Browser W) (env : Env).

(** A run whose queue file reads as empty records nothing and submits no
    search, whatever the browser does. *)
Lemma run_on_empty_queue isbns fuel d (w : W) t d' w' made :
  readLines QUEUE_FILE (snd (initializeQueue isbns d)) = [] ->
  runOliverAutomation B env isbns fuel d w = (t, d', w', made) ->
  (d' = d \/ d' = snd (initializeQueue isbns d)) /\
  filter isSearchClick made = [].
Proof.
  intros Hempty Hrun. unfold runOliverAutomation in Hrun.
  destruct (negb _ || negb _);
    [injection Hrun as <- <- <- <-; split; [left|]; reflexivity|].
  destruct (List.length isbns =? 0)%nat;
    [injection Hrun as <- <- <- <-; split; [left|]; reflexivity|].
  destruct (initializeQueue isbns d) as [queue d1]. cbn [snd] in Hempty |- *.
  destruct (List.length queue =? 0)%nat;
    [injection Hrun as <- <- <- <-; split; [right|]; reflexivity|].
  destruct (newPage B w) as [[p|e] w1];
    [|injection Hrun as <- <- <- <-; split; [right|]; reflexivity].
  set (st := mkState p [p] d1 w1 []) in Hrun.
  assert (Hclose : forall sa,
            disk (snd (act B browserClose sa)) = disk sa /\
            filter isSearchClick (calls (snd (act B browserClose sa)))
            = filter isSearchClick (calls sa)).
  { intros sa. unfold act. destruct (perform B browserClose (world sa)).
    cbn [snd disk calls]. rewrite filter_app. cbn. rewrite app_nil_r. auto. }
  pose proof (bounded_navigateToSmartCataloguing B env isSearchClick 0
                routine_isSearchClick (fun _ _ => Nat.le_refl 0) st)
    as (Hdisk & made1 & Hcalls & Hlen).
  change (disk st) with d1 in Hdisk. change (calls st) with (@nil Action) in Hcalls.
  cbn [app] in Hcalls.
  assert (Hnone : filter isSearchClick made1 = []).
  { destruct (filter isSearchClick made1); [reflexivity | cbn in Hlen; lia]. }
  unfold bind at 1 in Hrun.
  destruct (navigateToSmartCataloguing B env st) as [[ready|e] st1];
    cbn [snd] in Hdisk, Hcalls.
  - destruct ready; cbn [negb] in Hrun.
    + rewrite (bind_Ok _ _ st1 st1 (Some [])
                 (processQueue_empty B env fuel [] st1
                    ltac:(rewrite Hdisk; exact Hempty))) in Hrun.
      destruct (Hclose st1) as [D1 C1]. unfold bind at 1 in Hrun.
      destruct (act B browserClose st1) as [[[]|e] st2]; cbn [snd] in D1, C1.
      * cbn [ret] in Hrun. injection Hrun as <- <- <- <-.
        split; [right; congruence | congruence].
      * destruct (Hclose st2) as [D2 C2].
        destruct (act B browserClose st2) as [[[]|e'] st3];
          cbn [fst snd] in *; injection Hrun as <- <- <- <-;
          (split; [right; congruence | congruence]).
    + cbn [ret] in Hrun. injection Hrun as <- <- <- <-.
      split; [right; congruence | congruence].
  - destruct (Hclose st1) as [D1 C1].
    destruct (act B browserClose st1) as [[[]|e'] st2];
      cbn [fst snd] in *; injection Hrun as <- <- <- <-;
      (split; [right; congruence | congruence]).
Qed.

(** X11: an argument at whose path there is nothing is queued as it is
    given.  The queue that [initializeQueue] answers on an empty directory
    holds the argument untouched and the queue file holds it followed by a
    line feed; read back, the file gives the lines of the argument as
    [readLines] reads them, which for an argument without line feed is its
    trim, or nothing when the trim is empty or starts with [#].  An argument
    of which nothing is read back is never processed: whatever the browser
    does, the run records no result and submits no search. *)
Theorem single_argument_is_queued_raw input fuel (w : W) :
  let d := snd (initializeQueue [input] emptyDisk) in
  readInput input absent = Ok [input] /\
  fst (initializeQueue [input] emptyDisk) = [input] /\
  content d QUEUE_FILE = Some (input ++ nl) /\
  readLines QUEUE_FILE d = parseLines input /\
  (hasLF input = false ->
   parseLines input = if keepLine (Js.trim input) then [Js.trim input] else []) /\
  (input <> EmptyString -> parseLines input = [] ->
   let run := script B env (Some input) absent fuel emptyDisk w in
   let d' := snd (fst (fst run)) in
   (d' = emptyDisk \/ d' = d) /\
   (forall status isbn, recorded status isbn d' = false) /\
   filter isSearchClick (snd run) = []).
Proof.
  intros d.
  assert (Hinit : initializeQueue [input] emptyDisk
                  = ([input], writeLines QUEUE_FILE [input] emptyDisk))
    by reflexivity.
  assert (Hread : readLines QUEUE_FILE d = parseLines input).
  { unfold d. rewrite Hinit. cbn [snd]. rewrite readLines_writeLines_any.
    cbn [asRead flat_map]. apply app_nil_r. }
  split; [reflexivity|]. split; [rewrite Hinit; reflexivity|].
  split; [unfold d; rewrite Hinit; reflexivity|].
  split; [exact Hread|]. split; [apply parseLines_one|].
  intros Hne Hnone run d'. subst run d'.
  assert (Hscript : script B env (Some input) absent fuel emptyDisk w
                    = runOliverAutomation B env [input] fuel emptyDisk w).
  { unfold script. destruct input; [congruence | reflexivity]. }
  rewrite Hscript.
  destruct (runOliverAutomation B env [input] fuel emptyDisk w)
    as [[[t d'] w'] made] eqn:Erun. cbn [fst snd].
  destruct (run_on_empty_queue [input] fuel emptyDisk w t d' w' made) as [Hd Hc];
    [fold d; rewrite Hread; exact Hnone | exact Erun |].
  fold d in Hd. split; [exact Hd|]. split; [|exact Hc].
  intros status isbn.
  destruct Hd as [-> | ->]; [destruct status; reflexivity|].
  unfold d. rewrite Hinit. cbn [snd]. destruct status; reflexivity.
Qed.

End RawArgument.

Lemma single_argument_is_queued_raw_witness :
  let run := script site credentials (Some "#9780545139700") absent 1 emptyDisk
               (freshSite "No matching resource found" None) in
  "#9780545139700" <> EmptyString /\
  parseLines "#9780545139700" = [] /\
  content (snd (fst (fst run))) QUEUE_FILE = Some ("#9780545139700" ++ nl) /\
  (forall status isbn, recorded status isbn (snd (fst (fst run))) = false) /\
  filter isSearchClick (snd run) = [] /\
  readLines QUEUE_FILE (snd (initializeQueue [" 9780545139700 "] emptyDisk))
  = ["9780545139700"].
Proof.
  intros run.
  assert (Hne : "#9780545139700" <> EmptyString) by discriminate.
  pose proof (single_argument_is_queued_raw site credentials "#9780545139700" 1
                (freshSite "No matching resource found" None))
    as (_ & _ & _ & _ & _ & Hrun).
  destruct (Hrun Hne eq_refl) as (_ & Hrec & Hcalls).
  pose proof (single_argument_is_queued_raw site credentials " 9780545139700 " 1
                (freshSite "No matching resource found" None))
    as (_ & _ & _ & Hread & Hone & _).
  split; [exact Hne|]. split; [reflexivity|].
  split; [vm_compute; reflexivity|]. split; [exact Hrec|]. split; [exact Hcalls|].
  rewrite Hread. exact (Hone eq_refl).
Defined.

Lemma filter_nil {A} (f : A -> bool) l :
  Forall (fun x => f x = false) l -> filter f l = [].
Proof. intros H. apply filter_none. apply Forall_forall, H. Qed.

(** X24: the script exits with code 1, writing no file and leaving the
    browser alone, when it is given no argument or an empty one, and when
    the file it is given has nothing but blank pieces and comments between
    its separators, so that no identifier is read from it. *)
Theorem script_rejects_empty_input {W : Type} (B : Browser W) (env : Env)
    entry fuel d (w : W) :
  script B env None entry fuel d w = (Exit 1, d, w, []) /\
  script B env (Some EmptyString) entry fuel d w = (Exit 1, d, w, []) /\
  (forall input content,
     Forall (fun piece => Js.trim piece = EmptyString
                          \/ Js.startsWith (Js.trim piece) "#" = true)
            (splitSeparators content) ->
     parseInput content = [] /\
     script B env (Some input) (regular content) fuel d w = (Exit 1, d, w, [])).
Proof.
  split; [reflexivity|]. split; [reflexivity|].
  intros input content Hblank.
  assert (Hnone : parseInput content = []).
  { unfold parseInput. apply filter_nil. apply Forall_map.
    eapply Forall_impl; [|exact Hblank]. cbn beta. intros piece [E | E].
    - rewrite E. reflexivity.
    - unfold keepLine. rewrite E, andb_false_r. reflexivity. }
  split; [exact Hnone|].
  unfold script. destruct (Js.isEmpty input); [reflexivity|].
  cbn [readInput]. rewrite Hnone. unfold runOliverAutomation.
  destruct (negb _ || negb _); reflexivity.
Qed.

(** ** Calls of computations that write the disk *)

Section Emits.

Context {W : Type} (B : Browser W).
Variable P : Action -> bool.

Lemma emits_bounded {A} n (m : M W A) : bounded P n m -> emits P n m.
Proof. intros H st. exact (proj2 (H st)). Qed.

Lemma emits_weaken {A} n n' (m : M W A) : n <= n' -> emits P n m -> emits P n' m.
Proof.
  intros Hle H st. destruct (H st) as (made & E & Hlen).
  exists made. split; [exact E | lia].
Qed.

Lemma emits_ret {A} (a : A) : emits P 0 (@ret W A a).
Proof. apply emits_bounded, bounded_ret. Qed.

Lemma emits_bind {A C} n1 n2 (m : M W A) (k : A -> M W C) :
  emits P n1 m -> (forall a, emits P n2 (k a)) ->
  emits P (n1 + n2) (x <- m ;; k x).
Proof.
  intros Hm Hk st. destruct (Hm st) as (made1 & E1 & L1). unfold bind.
  destruct (m st) as [[a|e] st1]; cbn [snd] in E1 |- *.
  - destruct (Hk a st1) as (made2 & E2 & L2).
    exists (made1 ++ made2)%list. split.
    + rewrite E2, E1, app_assoc. reflexivity.
    + rewrite filter_app, length_app. lia.
  - exists made1. split; [exact E1 | lia].
Qed.

(** The continuation is only met with the answers that [m] can give. *)
Lemma emits_bind_post {A C} (Q : A -> Prop) n1 n2 (m : M W A) (k : A -> M W C) :
  (forall st a st', m st = (Ok a, st') -> Q a) ->
  emits P n1 m -> (forall a, Q a -> emits P n2 (k a)) ->
  emits P (n1 + n2) (x <- m ;; k x).
Proof.
  intros HQ Hm Hk st. destruct (Hm st) as (made1 & E1 & L1). unfold bind.
  destruct (m st) as [[a|e] st1] eqn:Em; cbn [snd] in E1 |- *.
  - destruct (Hk a (HQ st a st1 Em) st1) as (made2 & E2 & L2).
    exists (made1 ++ made2)%list. split.
    + rewrite E2, E1, app_assoc. reflexivity.
    + rewrite filter_app, length_app. lia.
  - exists made1. split; [exact E1 | lia].
Qed.

Lemma emits_try_catch {A} n1 n2 (m : M W A) (h : string -> M W A) :
  emits P n1 m -> (forall e, emits P n2 (h e)) ->
  emits P (n1 + n2) (try_catch m h).
Proof.
  intros Hm Hh st. destruct (Hm st) as (made1 & E1 & L1). unfold try_catch.
  destruct (m st) as [[a|e] st1]; cbn [snd] in E1 |- *.
  - exists made1. split; [exact E1 | lia].
  - destruct (Hh e st1) as (made2 & E2 & L2).
    exists (made1 ++ made2)%list. split.
    + rewrite E2, E1, app_assoc. reflexivity.
    + rewrite filter_app, length_app. lia.
Qed.

Lemma emits_orElse {A} n (m : M W A) (a : A) : emits P n m -> emits P n (orElse m a).
Proof.
  intros Hm. unfold orElse. rewrite <- (Nat.add_0_r n).
  apply emits_try_catch; [exact Hm | intros; apply emits_ret].
Qed.

Lemma emits_bind_free {A C} n (m : M W A) (k : A -> M W C) :
  emits P 0 m -> (forall a, emits P n (k a)) -> emits P n (x <- m ;; k x).
Proof. apply (emits_bind 0 n). Qed.

Lemma emits_try_catch_free {A} n (m : M W A) (h : string -> M W A) :
  emits P 0 m -> (forall e, emits P n (h e)) -> emits P n (try_catch m h).
Proof. apply (emits_try_catch 0 n). Qed.

Lemma emits_act a : emits P (cost P a) (act B a).
Proof. apply emits_bounded, bounded_act. Qed.

Lemma act_calls a (st : State W) :
  calls (snd (act B a st)) = (calls st ++ [a])%list.
Proof. unfold act. destruct (perform B a (world st)). reflexivity. Qed.

Lemma emits_onPage (a : Page -> Action) n :
  (forall p, cost P (a p) <= n) -> emits P n (onPage B a).
Proof.
  intros H. unfold onPage. apply (emits_bind 0 n).
  - apply emits_bounded, bounded_getPage.
  - intros p. apply emits_weaken with (n := cost P (a p)); [apply H | apply emits_act].
Qed.

Lemma emits_onDisk f : emits P 0 (@onDisk W f).
Proof. intros st. exists []. rewrite app_nil_r. split; [reflexivity | cbn; lia]. Qed.

Lemma emits_recordAndReturn isbn status error message :
  emits P 0 (@recordAndReturn W isbn status error message).
Proof.
  unfold recordAndReturn. apply (emits_bind 0 0); [apply emits_onDisk|].
  intros _. apply emits_ret.
Qed.

Lemma emits_countCalls {A} n (m : M W A) (st : State W) :
  emits P n m -> countCalls P (snd (m st)) <= countCalls P st + n.
Proof.
  intros H. destruct (H st) as (made & E & L). unfold countCalls.
  rewrite E, filter_app, length_app. lia.
Qed.

Lemma emits_none {A} (m : M W A) (st : State W) :
  emits P 0 m -> exists made, calls (snd (m st)) = (calls st ++ made)%list /\
                              filter P made = [].
Proof.
  intros H. destruct (H st) as (made & E & L). exists made. split; [exact E|].
  destruct (filter P made); [reflexivity | cbn in L; lia].
Qed.

End Emits.

(** ** What the calls of the script cost

    Every kind of call is given a price; the functions of the script are
    then bounded one after the other. *)

Lemma firstVisible_In {W} (B : Browser W) items (st st' : State W) item :
  firstVisible B items st = (Ok (Some item), st') -> In item items.
Proof.
  revert st. induction items as [|x rest IH]; intros st; cbn [firstVisible].
  - discriminate.
  - unfold bind at 1. destruct (ask (locatorIsVisible B x) st) as [[v|e] st1];
      [|discriminate].
    destruct v.
    + intros E. injection E as <- _. left. reflexivity.
    + intros E. right. exact (IH st1 E).
Qed.

Section Costs.

Context {W : Type} (B : Browser W) (env : Env).

Variable P : Action -> bool.
Variables link typed submit saved header entry term pressed element closed
  direct : nat.

Hypothesis P_home : forall p, P (goto p HOME_URL) = false.
Hypothesis P_welcome : forall p, P (goto p WELCOME_URL) = false.
Hypothesis P_reload : forall p, P (reload p) = false.
Hypothesis P_escape : forall p, P (press p "Escape") = false.
Hypothesis P_link :
  forall p, cost P (locatorClick (first (locator p LOGIN_LINK_SELECTOR)) None) <= link.
Hypothesis P_user :
  forall p, cost P (fill p "#loginForm_username" (OLIVER_USERNAME env)) <= typed.
Hypothesis P_password :
  forall p, cost P (fill p "#loginForm_password" (OLIVER_PASSWORD env)) <= typed.
Hypothesis P_submit : forall p, cost P (click p SUBMIT_SELECTOR) <= submit.
Hypothesis P_saved : cost P storageState <= saved.
Hypothesis P_header :
  forall p, cost P (locatorClick (locator p "#menu_cataloguing") (Some 5000%N)) <= header.
Hypothesis P_entry :
  forall p i,
    cost P (locatorClick (nth (locator p "#menuItem_smartCataloguing") i) None) <= entry.
Hypothesis P_term :
  forall p v, cost P (fill p "#smartCatSearchTerm" (Some v)) <= term.
Hypothesis P_pressed : forall p, cost P (click p "#smartCatSearchButton") <= pressed.
Hypothesis P_element : forall e, cost P (elementClick e) <= element.
Hypothesis P_closed : cost P browserClose <= closed.
Hypothesis P_direct : forall p, cost P (goto p SMART_CATALOG_URL) <= direct.

Ltac free_call :=
  intro; unfold cost;
  first [ rewrite P_home | rewrite P_welcome | rewrite P_reload | rewrite P_escape ];
  lia.

Ltac free_leaf :=
  first
    [ apply emits_ret
    | apply emits_bounded;
      first [ apply bounded_throw | apply bounded_ask | apply bounded_getPage
            | apply bounded_setPage | apply bounded_pageUrl | apply bounded_register
            | apply bounded_waitFor | apply bounded_pause | apply bounded_visible
            | apply bounded_query | apply bounded_appears ]
    | apply emits_onPage; free_call
    | apply emits_recordAndReturn
    | assumption
    | solve [auto with free] ].

Ltac em :=
  lazymatch goal with
  | |- emits _ 0 (bind _ _) => apply emits_bind_free; [em | intro; em]
  | |- emits _ 0 (try_catch _ _) => apply emits_try_catch_free; [em | intro; em]
  | |- emits _ _ (bind _ _) =>
      first [ apply emits_bind_free; [solve [em] | intro; em] | idtac ]
  | |- emits _ _ (try_catch _ _) =>
      first [ apply emits_try_catch_free; [solve [em] | intro; em] | idtac ]
  | |- emits _ _ (orElse _ _) => apply emits_orElse; em
  | |- emits _ _ (if ?b then _ else _) => destruct b; em
  | |- emits _ _ (match ?x with _ => _ end) => destruct x; em
  | |- emits _ ?k _ =>
      first [ apply emits_weaken with (n := 0); [lia | free_leaf]
            | eapply emits_weaken; [| eassumption]; lia
            | idtac ]
  end.

(** One priced call on the current page, then the rest. *)
Ltac pay H :=
  eapply emits_weaken;
  [| apply emits_bind; [apply emits_onPage; exact H | intro] ].

Create HintDb free.

Lemma emits_gotoAndWait_home : emits P 0 (gotoAndWait B home).
Proof using All. unfold gotoAndWait. em. Qed.

Lemma emits_gotoAndWait_welcome : emits P 0 (gotoAndWait B welcome).
Proof using All. unfold gotoAndWait. em. Qed.

Lemma emits_ensurePage : emits P 0 (ensurePage B).
Proof using All. apply emits_bounded, bounded_ensurePage. Qed.

Lemma emits_loginLinkVisible : emits P 0 (loginLinkVisible B).
Proof using All. unfold loginLinkVisible. em. Qed.

#[local] Hint Resolve emits_gotoAndWait_home emits_gotoAndWait_welcome
  emits_ensurePage emits_loginLinkVisible : free.

Lemma emits_loginDialog n :
  emits P (n * link + (2 * typed + submit)) (loginDialog B env n).
Proof using All.
  induction n as [|n IH]; cbn [loginDialog].
  - apply emits_weaken with (n := 0); [lia | apply emits_ret].
  - apply emits_weaken with (n := link + (n * link + (2 * typed + submit))); [lia|].
    apply emits_bind; [apply emits_onPage, P_link | intros _].
    apply emits_bind_free; [solve [em] | intros ready].
    destruct (negb ready).
    + em.
    + apply emits_weaken with (n := typed + (typed + (submit + 0))); [lia|].
      apply emits_bind; [apply emits_onPage, P_user | intros _].
      apply emits_bind; [apply emits_onPage, P_password | intros _].
      apply emits_bind; [apply emits_onPage, P_submit | intros _].
      apply emits_ret.
Qed.

(** The price of one login, of one pass of the menu strategy, of one
    navigation, of one submission of an identifier, and of one item. *)
Local Notation "'loginPrice'" := (3 * link + 2 * typed + submit + saved).
Local Notation "'passPrice'" := (2 * loginPrice + 3 * header + entry).
Local Notation "'navigationPrice'" := (3 * passPrice).
Local Notation "'submissionPrice'" := (2 * term + pressed + element).
Local Notation "'searchPrice'" := (3 * (submissionPrice + navigationPrice)).
Local Notation "'itemPrice'" := (searchPrice + 2 * element).

Lemma emits_loginThroughPopup : emits P loginPrice (loginThroughPopup B env).
Proof using All.
  unfold loginThroughPopup.
  do 3 (apply emits_bind_free; [solve [em] | intro]).
  destruct (negb _); [em|].
  apply emits_weaken with (n := (3 * link + (2 * typed + submit)) + saved); [lia|].
  apply emits_bind; [apply emits_loginDialog | intros submitted].
  destruct (negb submitted); [em|].
  do 3 (apply emits_bind_free; [solve [em] | intro]).
  destruct (negb _); [em|].
  rewrite <- (Nat.add_0_r saved).
  apply emits_bind; [|intro; apply emits_ret].
  apply emits_weaken with (n := cost P storageState); [exact P_saved | apply emits_act].
Qed.

#[local] Hint Resolve emits_loginThroughPopup : free.

Lemma emits_clickCataloguingMenu n :
  emits P (n * header) (clickCataloguingMenu B n).
Proof using All.
  induction n as [|n IH]; cbn [clickCataloguingMenu].
  - apply emits_ret.
  - apply emits_weaken with (n := header + n * header); [lia|].
    apply emits_try_catch; [apply emits_onPage, P_header | intros message].
    em.
Qed.

Lemma emits_clickVisibleMenuItem : emits P entry (clickVisibleMenuItem B).
Proof using All.
  unfold clickVisibleMenuItem.
  apply emits_bind_free; [solve [em] | intros p].
  rewrite <- (Nat.add_0_l entry).
  apply (emits_bind_post P
           (fun items => forall item, In item items ->
              exists i, item = nth (locator p "#menuItem_smartCataloguing") i)).
  - intros st items st'. unfold all, bind.
    destruct (ask (locatorCount B (locator p "#menuItem_smartCataloguing")) st)
      as [[count|e] st1]; [|discriminate].
    intros E. injection E as <- _. intros item Hin.
    apply in_map_iff in Hin. destruct Hin as (i & <- & _). eauto.
  - unfold all. em.
  - intros items Hitems. rewrite <- (Nat.add_0_l entry).
    apply (emits_bind_post P
             (fun found => match found with
                           | Some item => In item items
                           | None => True
                           end)).
    + intros st [item|] st' E; [|exact I]. exact (firstVisible_In B _ _ _ _ E).
    + clear Hitems. induction items as [|x rest IH]; cbn [firstVisible]; em.
    + intros [item|] Hin; [|em].
      destruct (Hitems item Hin) as (i & ->).
      apply emits_weaken with (n := cost P (locatorClick
               (nth (locator p "#menuItem_smartCataloguing") i) None));
        [apply P_entry | apply emits_act].
Qed.

Lemma emits_awaitPopup : emits P 0 (awaitPopup B).
Proof using All. unfold awaitPopup. em. Qed.

Lemma emits_dismissModal t s : emits P element (dismissModal B t s).
Proof using All.
  unfold dismissModal. apply emits_orElse.
  apply emits_bind_free; [solve [em] | intros _].
  apply emits_bind_free; [solve [em] | intros [button|]]; [|em].
  rewrite <- (Nat.add_0_r element).
  apply emits_bind; [|intro; em].
  apply emits_weaken with (n := cost P (elementClick button));
    [apply P_element | apply emits_act].
Qed.

#[local] Hint Resolve emits_awaitPopup : free.

Lemma emits_menuLanding r retry :
  emits P r retry -> emits P (loginPrice + r) (menuLanding B env retry).
Proof using All.
  intros Hr. unfold menuLanding.
  apply emits_bind_free; [solve [em] | intros loginVisible].
  destruct loginVisible.
  - apply emits_bind; [apply emits_loginThroughPopup | intros ok].
    destruct (negb ok); exact Hr.
  - em.
Qed.

Lemma emits_menuOpen r retry :
  emits P r retry ->
  emits P (3 * header + entry + loginPrice + r) (menuOpen B env retry).
Proof using All.
  intros Hr. unfold menuOpen.
  do 2 (apply emits_bind_free; [solve [em] | intro]).
  apply emits_weaken with (n := 3 * header + (entry + (loginPrice + r))); [lia|].
  apply emits_bind; [apply emits_clickCataloguingMenu | intro].
  apply emits_bind_free; [solve [em] | intro].
  apply emits_bind; [apply emits_clickVisibleMenuItem | intro].
  apply emits_bind_free; [solve [em] | intros popup].
  apply emits_bind_free; [destruct popup; em | intro].
  apply emits_menuLanding, Hr.
Qed.

Lemma emits_menuAttempt r retry :
  emits P r retry -> emits P (passPrice + r) (menuAttempt B env retry).
Proof using All.
  intros Hr.
  assert (Hopen := emits_menuOpen r retry Hr).
  assert (Hwait : emits P (3 * header + entry + loginPrice + r)
            (found <- appears B "#menu_cataloguing" 20000%N ;;
             if found then menuOpen B env retry
             else
               try_catch (onPage B reload) (fun _ => gotoAndWait B welcome) ;;
               found <- appears B "#menu_cataloguing" 20000%N ;;
               if found then menuOpen B env retry else retry)).
  { em. }
  unfold menuAttempt.
  do 2 (apply emits_bind_free; [solve [em] | intro]).
  destruct (negb _).
  - apply emits_weaken
      with (n := loginPrice + (3 * header + entry + loginPrice + r)); [lia|].
    apply emits_bind; [apply emits_loginThroughPopup | intros ok].
    destruct (negb ok); [em|].
    do 3 (apply emits_bind_free; [solve [em] | intro]).
    exact Hwait.
  - eapply emits_weaken; [|exact Hwait]. lia.
Qed.

Lemma emits_attemptMenuSmartCatalog attempt :
  emits P ((4 - attempt) * passPrice) (attemptMenuSmartCatalog B env attempt).
Proof using All.
  remember (4 - attempt) as k eqn:Hk. revert attempt Hk.
  induction k as [|k IH]; intros attempt Hk;
    rewrite attemptMenuSmartCatalog_step.
  - replace (3 <? attempt)%nat with true by (symmetry; apply Nat.ltb_lt; lia).
    apply emits_ret.
  - replace (3 <? attempt)%nat with false by (symmetry; apply Nat.ltb_ge; lia).
    cbn [Nat.mul]. apply emits_menuAttempt. apply IH. lia.
Qed.

Lemma emits_navigateToSmartCataloguing :
  emits P navigationPrice (navigateToSmartCataloguing B env).
Proof using All. apply (emits_attemptMenuSmartCatalog 1). Qed.

Lemma emits_submitAndProbe isbn : emits P submissionPrice (submitAndProbe B isbn).
Proof using All.
  unfold submitAndProbe.
  apply emits_weaken with (n := term + (term + (pressed + (element + 0)))); [lia|].
  apply emits_bind; [apply emits_onPage; intro; apply P_term | intros _].
  apply emits_bind; [apply emits_onPage; intro; apply P_term | intros _].
  apply emits_bind; [apply emits_onPage, P_pressed | intros _].
  apply emits_bind; [apply emits_dismissModal | intros _].
  em.
Qed.

Lemma emits_searchAttempt isbn attempt r retry :
  emits P r retry ->
  emits P (submissionPrice + navigationPrice + r)
    (searchAttempt B env isbn attempt retry).
Proof using All.
  intros Hr.
  assert (Hnav : emits P (navigationPrice + r)
            (reNav <- navigateToSmartCataloguing B env ;;
             if negb reNav then ret false else retry)).
  { apply emits_bind; [apply emits_navigateToSmartCataloguing|].
    intros reNav. em. }
  unfold searchAttempt.
  apply emits_bind_free; [solve [em] | intros available].
  destruct (negb available).
  - eapply emits_weaken; [|exact Hnav]. lia.
  - rewrite <- Nat.add_assoc.
    apply emits_bind; [apply emits_submitAndProbe|].
    intros [[loginVisible still] denied].
    destruct (_ && _); [exact Hnav | em].
Qed.

Lemma emits_searchSmartCataloguing isbn attempt :
  emits P ((4 - attempt) * (submissionPrice + navigationPrice))
    (searchSmartCataloguing B env isbn attempt).
Proof using All.
  remember (4 - attempt) as k eqn:Hk. revert attempt Hk.
  induction k as [|k IH]; intros attempt Hk;
    rewrite searchSmartCataloguing_step.
  - replace (3 <? attempt)%nat with true by (symmetry; apply Nat.ltb_lt; lia).
    apply emits_ret.
  - replace (3 <? attempt)%nat with false by (symmetry; apply Nat.ltb_ge; lia).
    cbn [Nat.mul]. apply emits_searchAttempt. apply IH. lia.
Qed.

Lemma emits_readStatusText : emits P 0 (readStatusText B).
Proof using All. unfold readStatusText. em. Qed.

#[local] Hint Resolve emits_readStatusText : free.

Lemma emits_classify isbn : emits P (2 * element) (classify B isbn).
Proof using All.
  unfold classify.
  apply emits_bind_free; [solve [em] | intros statusText].
  destruct (Js.includes _ "no matching resource"); [em|].
  destruct (Js.includes _ "found matching resource"); [|em].
  apply emits_bind_free; [solve [em] | intros [button|]]; [|em].
  apply emits_bind_free; [solve [em] | intros [|]]; [em|].
  apply emits_weaken with (n := element + (element + 0)); [lia|].
  apply emits_bind.
  { apply emits_weaken with (n := cost P (elementClick button));
      [apply P_element | apply emits_act]. }
  intros _. apply emits_bind; [apply emits_dismissModal | intros _]. em.
Qed.

Lemma emits_processISBN isbn (skipNavigation : bool) :
  emits P ((if skipNavigation then 0 else navigationPrice) + itemPrice)
    (processISBN B env isbn skipNavigation).
Proof using All.
  unfold processISBN. rewrite <- (Nat.add_0_r (_ + itemPrice)).
  apply emits_try_catch; [|intros; apply emits_recordAndReturn].
  apply emits_bind.
  - destruct skipNavigation; cbn [negb];
      [apply emits_ret | apply emits_navigateToSmartCataloguing].
  - intros navSuccess. destruct (negb navSuccess); [em|].
    apply emits_bind; [apply (emits_searchSmartCataloguing isbn 1) | intros ready].
    destruct (negb ready); [em | apply emits_classify].
Qed.

(** The loop makes the calls of one item for every line of the queue file,
    however much fuel it is given. *)
Lemma emits_processQueue fuel results (st : State W) :
  exists made,
    calls (snd (processQueue B env fuel results st)) = (calls st ++ made)%list /\
    List.length (filter P made)
    <= List.length (readLines QUEUE_FILE (disk st)) * itemPrice.
Proof using All.
  revert results st. induction fuel as [|fuel IH]; intros results st;
    cbn [processQueue].
  - destruct (readLines QUEUE_FILE (disk st)); cbn [snd];
      exists []; rewrite app_nil_r; (split; [reflexivity | cbn; lia]).
  - destruct (readLines QUEUE_FILE (disk st)) as [|isbn rest] eqn:Eq.
    + exists []. rewrite app_nil_r. split; [reflexivity | cbn; lia].
    + destruct (processISBN_records B env isbn true st)
        as (r & st1 & message & Hrun & Hd).
      rewrite (bind_Ok _ _ st st1 r Hrun).
      destruct (emits_processISBN isbn true st) as (made1 & E1 & L1).
      rewrite Hrun in E1. cbn [snd] in E1.
      destruct (IH (results ++ [r])%list st1) as (made2 & E2 & L2).
      rewrite Hd, (recordResult_dequeues isbn rest) in L2 by exact Eq.
      exists (made1 ++ made2)%list. split.
      * rewrite E2, E1, app_assoc. reflexivity.
      * rewrite filter_app, length_app. cbn [List.length Nat.mul]. lia.
Qed.

(** The calls of a whole run. *)
Lemma runOliverAutomation_calls isbns fuel d w :
  List.length (filter P (snd (runOliverAutomation B env isbns fuel d w)))
  <= navigationPrice
     + List.length (readLines QUEUE_FILE (snd (initializeQueue isbns d))) * itemPrice
     + 2 * closed.
Proof using All.
  pose proof P_closed as Hc. unfold cost in Hc.
  assert (Hcount : forall made1 made2 n1 n2,
            List.length (filter P made1) <= n1 ->
            List.length (filter P made2) <= n2 ->
            List.length (filter P ((made1 ++ made2) ++ [browserClose])) <= n1 + n2 + closed
            /\ List.length (filter P (((made1 ++ made2) ++ [browserClose])
                                       ++ [browserClose])) <= n1 + n2 + 2 * closed).
  { intros made1 made2 n1 n2 L1 L2. rewrite !filter_app, !length_app.
    cbn [filter]. destruct (P browserClose); cbn [List.length]; lia. }
  unfold runOliverAutomation.
  destruct (negb _ || negb _); [apply Nat.le_0_l|].
  destruct (List.length isbns =? 0)%nat; [apply Nat.le_0_l|].
  destruct (initializeQueue isbns d) as [queue d1]. cbn [snd].
  destruct (List.length queue =? 0)%nat; [apply Nat.le_0_l|].
  destruct (newPage B w) as [[p|e] w1]; [|apply Nat.le_0_l].
  set (st := mkState p [p] d1 w1 []).
  destruct (emits_navigateToSmartCataloguing st) as (made1 & E1 & L1).
  change (calls st) with (@nil Action) in E1. cbn [app] in E1.
  assert (Hkeep := keepsDisk_navigate B env st).
  unfold bind at 1.
  destruct (navigateToSmartCataloguing B env st) as [[ready|e] st1];
    cbn [snd] in E1, Hkeep.
  - destruct ready; cbn [negb].
    + destruct (emits_processQueue fuel [] st1) as (made2 & E2 & L2).
      rewrite Hkeep in L2. change (disk st) with d1 in L2.
      rewrite E1 in E2.
      destruct (Hcount made1 made2 _ _ L1 L2) as [Hone Htwo].
      unfold bind at 1.
      destruct (processQueue B env fuel [] st1) as [[[all|]|e] st2];
        cbn [snd] in E2.
      * unfold bind at 1.
        pose proof (act_calls B browserClose st2) as C2.
        destruct (act B browserClose st2) as [[[]|e] st3]; cbn [snd] in C2.
        -- cbn [ret snd]. rewrite C2, E2. lia.
        -- pose proof (act_calls B browserClose st3) as C3.
           destruct (act B browserClose st3) as [[[]|e'] st4];
             cbn [snd] in C3 |- *; rewrite C3, C2, E2; lia.
      * cbn [ret snd]. rewrite E2, filter_app, length_app. lia.
      * pose proof (act_calls B browserClose st2) as C2.
        destruct (act B browserClose st2) as [[[]|e'] st3];
          cbn [snd] in C2 |- *; rewrite C2, E2; lia.
    + cbn [ret snd]. rewrite E1. lia.
  - destruct (Hcount made1 [] _ 0 L1 (Nat.le_refl 0)) as [Hone _].
    rewrite app_nil_r in Hone.
    pose proof (act_calls B browserClose st1) as C1.
    destruct (act B browserClose st1) as [[[]|e'] st2];
      cbn [snd] in C1 |- *; rewrite C1, E1; lia.
Qed.

(** The direct strategy: one load of the search address for every
    iteration, and a login in an iteration only as long as none has
    succeeded. *)
Lemma emits_gotoAndWait_direct : emits P direct (gotoAndWait B smartCatalog).
Proof using All.
  unfold gotoAndWait. rewrite <- (Nat.add_0_r direct).
  apply emits_bind; [|intros [|]; em].
  rewrite <- (Nat.add_0_r direct).
  apply emits_try_catch; [|intro; em].
  rewrite <- (Nat.add_0_r direct).
  apply emits_bind; [apply emits_onPage, P_direct | intro; em].
Qed.

Lemma emits_directLoop n (attemptedLogin : bool) :
  emits P (n * direct + (if attemptedLogin then 0 else n * loginPrice))
    (directLoop B env n attemptedLogin).
Proof using All.
  revert attemptedLogin. induction n as [|n IH]; intros attemptedLogin;
    cbn [directLoop].
  - destruct attemptedLogin; apply emits_ret.
  - pose proof (IH true) as IHt. pose proof (IH false) as IHf.
    cbn [andb orb negb] in IHt, IHf.
    assert (Hrelogin : emits P
              (n * direct + (if attemptedLogin then 0 else S n * loginPrice))
              (if attemptedLogin then ret false
               else
                 loginSuccess <- loginThroughPopup B env ;;
                 if negb loginSuccess
                 then pause B 1000%N ;; directLoop B env n attemptedLogin
                 else directLoop B env n true)).
    { destruct attemptedLogin.
      - apply emits_weaken with (n := 0); [lia | apply emits_ret].
      - apply emits_weaken with (n := loginPrice + (n * direct + n * loginPrice));
          [lia|].
        apply emits_bind; [apply emits_loginThroughPopup | intros ok].
        destruct (negb ok).
        + apply emits_bind_free; [solve [em] | intro; exact IHf].
        + eapply emits_weaken; [|exact IHt]. lia. }
    apply emits_weaken
      with (n := direct + (n * direct
                           + (if attemptedLogin then 0 else S n * loginPrice)));
      [destruct attemptedLogin; lia|].
    apply emits_bind; [apply emits_gotoAndWait_direct | intros _].
    apply emits_bind_free; [solve [em] | intros currentUrl].
    apply emits_bind_free; [solve [em] | intros loginVisible].
    apply emits_bind_free; [solve [em] | intros deniedVisible].
    destruct loginVisible; [exact Hrelogin|].
    destruct (negb _); [|exact Hrelogin].
    destruct (negb _); [em|].
    apply emits_bind_free; [solve [em] | intros ready].
    destruct ready; [em|].
    eapply emits_weaken; [|exact (IH attemptedLogin)].
    destruct attemptedLogin; lia.
Qed.

Lemma emits_attemptDirectSmartCatalog maxAttempts :
  emits P (maxAttempts * (direct + loginPrice))
    (attemptDirectSmartCatalog B env maxAttempts).
Proof using All.
  unfold attemptDirectSmartCatalog.
  apply emits_bind_free; [solve [em] | intros _].
  eapply emits_weaken; [|apply (emits_directLoop maxAttempts false)]. lia.
Qed.

End Costs.

(** ** The calls a run can make *)





Ltac price := intros; vm_compute; lia.


(** ** Logging in *)

Lemma bind_Ok_inv {W A C} (m : M W A) (k : A -> M W C) (st st' : State W) c :
  (x <- m ;; k x) st = (Ok c, st') ->
  exists a st1, m st = (Ok a, st1) /\ k a st1 = (Ok c, st').
Proof.
  unfold bind. destruct (m st) as [[a|e] st1]; [|discriminate].
  intros E. exists a, st1. split; [reflexivity | exact E].
Qed.

Lemma loginThroughPopup_true {W : Type} (B : Browser W) (env : Env)
    (st st' : State W) :
  loginThroughPopup B env st = (Ok true, st') ->
  exists before, calls st' = (before ++ [storageState])%list.
Proof.
  intros E. unfold loginThroughPopup in E.
  apply bind_Ok_inv in E. destruct E as (p & s1 & _ & E).
  apply bind_Ok_inv in E. destruct E as (v1 & s2 & _ & E).
  apply bind_Ok_inv in E. destruct E as (v2 & s3 & _ & E).
  destruct (negb v2); [discriminate E|].
  apply bind_Ok_inv in E. destruct E as (submitted & s4 & _ & E).
  destruct (negb submitted); [discriminate E|].
  apply bind_Ok_inv in E. destruct E as (u1 & s5 & _ & E).
  apply bind_Ok_inv in E. destruct E as (u2 & s6 & _ & E).
  apply bind_Ok_inv in E. destruct E as (logoutVisible & s7 & _ & E).
  destruct (negb logoutVisible); [discriminate E|].
  apply bind_Ok_inv in E. destruct E as (u3 & s8 & Ea & E).
  injection E as <-. exists (calls s7).
  pose proof (act_calls B storageState s7) as H. rewrite Ea in H. exact H.
Qed.

(** X13: one call of [loginThroughPopup] clicks the login link at most 3
    times, fills at most 2 credential fields, submits the form at most once
    and saves the session at most once; when it answers [true] the session
    was saved last; and it writes none of the files of the tool. *)
Theorem loginThroughPopup_limits {W : Type} (B : Browser W) (env : Env)
    (st : State W) :
  let st' := snd (loginThroughPopup B env st) in
  countCalls isLoginLinkClick st' <= countCalls isLoginLinkClick st + 3 /\
  countCalls isCredentialFill st' <= countCalls isCredentialFill st + 2 /\
  countCalls isSubmitClick st' <= countCalls isSubmitClick st + 1 /\
  countCalls isStorageState st' <= countCalls isStorageState st + 1 /\
  (fst (loginThroughPopup B env st) = Ok true ->
   exists before, calls st' = (before ++ [storageState])%list) /\
  disk st' = disk st.
Proof.
  intros st'. subst st'. repeat split.
  - apply emits_countCalls.
    apply (emits_loginThroughPopup B env isLoginLinkClick 1 0 0 0 0 0 0 0 0 0 0);
      solve [intros; reflexivity | price].
  - apply emits_countCalls.
    apply (emits_loginThroughPopup B env isCredentialFill 0 1 0 0 0 0 0 0 0 0 0);
      solve [intros; reflexivity | price].
  - apply emits_countCalls.
    apply (emits_loginThroughPopup B env isSubmitClick 0 0 1 0 0 0 0 0 0 0 0);
      solve [intros; reflexivity | price].
  - apply emits_countCalls.
    apply (emits_loginThroughPopup B env isStorageState 0 0 0 1 0 0 0 0 0 0 0);
      solve [intros; reflexivity | price].
  - destruct (loginThroughPopup B env st) as [r st1] eqn:E. cbn [fst snd].
    intros ->. exact (loginThroughPopup_true B env st st1 E).
  - apply (bounded_loginThroughPopup B env noCall). reflexivity.
Qed.

(** ** How often a navigation, an item and a run log in *)

(** X14: one navigation to the search page clicks the Cataloguing header
    at most 9 times and the login link at most 18 times, fills at most 12
    credential fields, submits the login form at most 6 times and saves the
    session at most 6 times. *)
Theorem navigation_limits {W : Type} (B : Browser W) (env : Env) (st : State W) :
  let st' := snd (navigateToSmartCataloguing B env st) in
  countCalls isHeaderClick st' <= countCalls isHeaderClick st + 9 /\
  countCalls isLoginLinkClick st' <= countCalls isLoginLinkClick st + 18 /\
  countCalls isCredentialFill st' <= countCalls isCredentialFill st + 12 /\
  countCalls isSubmitClick st' <= countCalls isSubmitClick st + 6 /\
  countCalls isStorageState st' <= countCalls isStorageState st + 6.
Proof.
  intros st'. subst st'. repeat split; apply emits_countCalls.
  - apply (emits_navigateToSmartCataloguing B env isHeaderClick 0 0 0 0 1 0 0 0 0 0 0);
      solve [intros; reflexivity | price].
  - apply (emits_navigateToSmartCataloguing B env isLoginLinkClick 1 0 0 0 0 0 0 0 0 0 0);
      solve [intros; reflexivity | price].
  - apply (emits_navigateToSmartCataloguing B env isCredentialFill 0 1 0 0 0 0 0 0 0 0 0);
      solve [intros; reflexivity | price].
  - apply (emits_navigateToSmartCataloguing B env isSubmitClick 0 0 1 0 0 0 0 0 0 0 0);
      solve [intros; reflexivity | price].
  - apply (emits_navigateToSmartCataloguing B env isStorageState 0 0 0 1 0 0 0 0 0 0 0);
      solve [intros; reflexivity | price].
Qed.

(** X15: the login form is submitted at most 18 times for an item of the
    queue loop, at most 24 times for an item that navigates first, and in a
    whole run at most 6 times plus 18 times for every line that the queue
    file has when the run begins. *)
Theorem credentials_submission_limits {W : Type} (B : Browser W) (env : Env) :
  (forall isbn st,
     countCalls isSubmitClick (snd (processISBN B env isbn true st))
     <= countCalls isSubmitClick st + 18) /\
  (forall isbn st,
     countCalls isSubmitClick (snd (processISBN B env isbn false st))
     <= countCalls isSubmitClick st + 24) /\
  (forall isbns fuel d w,
     List.length (filter isSubmitClick (snd (runOliverAutomation B env isbns fuel d w)))
     <= 6 + 18 * List.length (readLines QUEUE_FILE (snd (initializeQueue isbns d)))).
Proof.
  split; [|split].
  - intros isbn st. apply emits_countCalls.
    apply (emits_processISBN B env isSubmitClick 0 0 1 0 0 0 0 0 0 0 0)
      with (skipNavigation := true);
      solve [intros; reflexivity | price].
  - intros isbn st. apply emits_countCalls.
    apply (emits_processISBN B env isSubmitClick 0 0 1 0 0 0 0 0 0 0 0)
      with (skipNavigation := false);
      solve [intros; reflexivity | price].
  - intros isbns fuel d w.
    pose proof (runOliverAutomation_calls B env isSubmitClick 0 0 1 0 0 0 0 0 0 0 0) as H.
    eapply Nat.le_trans;
      [apply H; solve [intros; reflexivity | price] | lia].
Qed.

(** X16: the direct strategy does not log in again once a login has
    succeeded, submits the login form at most once for every attempt it is
    allowed, and writes none of the files of the tool. *)
Theorem direct_strategy_limits {W : Type} (B : Browser W) (env : Env) :
  (forall n st,
     countCalls isLoginLinkClick (snd (directLoop B env n true st))
     <= countCalls isLoginLinkClick st
     /\ countCalls isSubmitClick (snd (directLoop B env n true st))
        <= countCalls isSubmitClick st) /\
  (forall maxAttempts st,
     countCalls isSubmitClick (snd (attemptDirectSmartCatalog B env maxAttempts st))
     <= countCalls isSubmitClick st + maxAttempts) /\
  (forall maxAttempts st,
     disk (snd (attemptDirectSmartCatalog B env maxAttempts st)) = disk st).
Proof.
  split; [|split].
  - intros n st. split.
    + eapply Nat.le_trans; [apply emits_countCalls|].
      * apply (emits_directLoop B env isLoginLinkClick 1 0 0 0 0 0 0 0 0 0 0)
          with (attemptedLogin := true);
          solve [intros; reflexivity | price].
      * lia.
    + eapply Nat.le_trans; [apply emits_countCalls|].
      * apply (emits_directLoop B env isSubmitClick 0 0 1 0 0 0 0 0 0 0 0)
          with (attemptedLogin := true);
          solve [intros; reflexivity | price].
      * lia.
  - intros maxAttempts st. eapply Nat.le_trans; [apply emits_countCalls|].
    + apply (emits_attemptDirectSmartCatalog B env isSubmitClick
               0 0 1 0 0 0 0 0 0 0 0);
        solve [intros; reflexivity | price].
    + lia.
  - intros maxAttempts st.
    apply (bounded_attemptDirectSmartCatalog B env noCall). reflexivity.
Qed.

(** ** The ledgers during a run *)

Lemma recorded_same_content status isbn d d' :
  (forall f, f <> QUEUE_FILE -> content d' f = content d f) ->
  recorded status isbn d' = recorded status isbn d.
Proof.
  intros H. destruct status; cbn [recorded ledgerFile];
    try (rewrite (readLines_same_content _ d d') by (apply H; discriminate);
         reflexivity);
    rewrite (errorLines_same_content d d') by (apply H; discriminate);
    reflexivity.
Qed.

Lemma recorded_recordResult isbn status e d :
  terminatedLedgers d -> cleanLine isbn = true ->
  recorded status isbn (recordResult isbn status e d) = true.
Proof.
  intros Hterm Hclean. rewrite recordResult_steps.
  rewrite (recorded_same_content status isbn _ _
             (fun f Hf => removeFirstLineFromQueue_other _ f Hf)).
  apply recorded_after_append; [exact Hclean | apply Hterm].
Qed.

Lemma existsb_app_l {A} (f : A -> bool) l1 l2 :
  existsb f l1 = true -> existsb f (l1 ++ l2) = true.
Proof. intros H. rewrite existsb_app, H. reflexivity. Qed.

Lemma errorLines_recordResult isbn status e d :
  terminated (readFileSync ERRORS_FILE d) = true ->
  exists more, errorLines (recordResult isbn status e d) = (errorLines d ++ more)%list.
Proof.
  intros Ht.
  destruct (File_eqb ERRORS_FILE (ledgerFile status)) eqn:E.
  - apply File_eqb_eq in E.
    assert (Hc : content (recordResult isbn status e d) ERRORS_FILE
                 = Some (readFileSync ERRORS_FILE d
                         ++ appended isbn (ledgerMessage status e) ++ nl)).
    { rewrite E at 1. rewrite recordResult_ledger, <- E. reflexivity. }
    unfold errorLines at 1, existsSync, readFileSync at 1. rewrite Hc.
    rewrite errorLines_parse.
    destruct (splitLines_terminated _ Ht) as (P & HP1 & HP2).
    rewrite HP1, HP2, !filter_app. cbn [filter nonBlank Js.trim Js.trimStart
      Js.trimEnd Js.isEmpty negb]. rewrite app_nil_r. eauto.
  - exists []. rewrite app_nil_r. apply errorLines_same_content.
    apply recordResult_other; [discriminate|].
    intros E'. rewrite <- E', File_eqb_refl in E. discriminate.
Qed.

Lemma readLines_recordResult isbn status e d f :
  terminatedLedgers d -> f <> QUEUE_FILE -> f <> ERRORS_FILE ->
  exists more, readLines f (recordResult isbn status e d) = (readLines f d ++ more)%list.
Proof.
  intros Hterm Hq He.
  destruct (File_eqb f (ledgerFile status)) eqn:E.
  - apply File_eqb_eq in E.
    assert (Hc : content (recordResult isbn status e d) f
                 = Some (readFileSync f d
                         ++ appended isbn (ledgerMessage status e) ++ nl)).
    { rewrite E. apply recordResult_ledger. }
    unfold readLines at 1, existsSync, readFileSync at 1. rewrite Hc.
    cbn [negb]. rewrite parseLines_app, <- readLines_parse.
    + eauto.
    + rewrite E. apply Hterm.
  - exists []. rewrite app_nil_r. apply readLines_same_content.
    apply recordResult_other; [exact Hq|].
    intros E'. rewrite <- E', File_eqb_refl in E. discriminate.
Qed.

(** An entry of a ledger stays when further results are recorded. *)
Lemma recorded_stays s x isbn status e d :
  terminatedLedgers d ->
  recorded s x d = true -> recorded s x (recordResult isbn status e d) = true.
Proof.
  intros Hterm H.
  destruct s; cbn [recorded ledgerFile] in *.
  1-3: match goal with
       | |- Array_includes (readLines ?f _) _ = true =>
           destruct (readLines_recordResult isbn status e d f Hterm)
             as (more & ->); [discriminate | discriminate |];
           apply existsb_app_l, H
       end.
  1-2: destruct (errorLines_recordResult isbn status e d (Hterm ERROR))
         as (more & ->);
       apply existsb_app_l, H.
Qed.

(** ** One item *)

Section Items.

Context {W : Type} (B : Browser W) (env : Env).

Lemma reports_record isbn status error message :
  explains (mkResult isbn status error) message ->
  reports isbn (recordAndReturn (W := W) isbn status error message).
Proof.
  intros He st r st'. rewrite recordAndReturn_run. intros E.
  injection E as <- <-. split; [reflexivity|]. exists message.
  split; [reflexivity | exact He].
Qed.

Lemma reports_bind {A} isbn (m : M W A) (k : A -> M W Result) :
  keepsDisk m -> (forall a, reports isbn (k a)) -> reports isbn (x <- m ;; k x).
Proof.
  intros Hm Hk st r st' E. apply bind_Ok_inv in E.
  destruct E as (a & st1 & Ea & E).
  pose proof (Hm st) as Hd. rewrite Ea in Hd. cbn [snd] in Hd.
  destruct (Hk a st1 r st' E) as (Hi & message & Hr & He).
  split; [exact Hi|]. exists message. rewrite <- Hd. split; assumption.
Qed.

Lemma reports_classify isbn : reports isbn (classify B isbn).
Proof.
  unfold classify. apply reports_bind.
  { apply (bounded_keepsDisk anyCall 0), silent_readStatusText. }
  intros statusText.
  destruct (Js.includes _ "no matching resource");
    [apply reports_record; split; reflexivity|].
  destruct (Js.includes _ "found matching resource");
    [|apply reports_record; split; [reflexivity | right; reflexivity]].
  apply reports_bind; [apply (bounded_keepsDisk noCall 0), bounded_query|].
  intros [button|];
    [|apply reports_record; split; [reflexivity | left; reflexivity]].
  apply reports_bind; [apply (bounded_keepsDisk noCall 0), bounded_ask|].
  intros [|]; [apply reports_record; split; reflexivity|].
  apply reports_bind; [eapply (bounded_keepsDisk noCall); apply bounded_act|].
  intros _. apply reports_bind.
  { apply (bounded_keepsDisk noCall 0), bounded_dismissModal.
    intros; reflexivity. }
  intros _. apply reports_bind;
    [|intros; apply reports_record; split; reflexivity].
  apply (bounded_keepsDisk noCall 0), bounded_orElse, bounded_waitFor.
Qed.

Lemma reports_processISBN isbn skipNavigation :
  reports isbn (processISBN B env isbn skipNavigation).
Proof.
  unfold processISBN. intros st r st'. unfold try_catch.
  match goal with |- context [match ?body st with _ => _ end] =>
    assert (Hrep : reports isbn body); [|assert (Hatt : attempts isbn body)] end.
  { apply reports_bind.
    - destruct (negb skipNavigation);
        [apply keepsDisk_navigate | intros st0; reflexivity].
    - intros navSuccess.
      destruct (negb navSuccess);
        [apply reports_record; split; [reflexivity | eauto]|].
      apply reports_bind; [apply keepsDisk_search|].
      intros searchReady.
      destruct (negb searchReady);
        [apply reports_record; split; [reflexivity | eauto]
        | apply reports_classify]. }
  { apply attempts_bind.
    - destruct (negb skipNavigation);
        [apply keepsDisk_navigate | intros st0; reflexivity].
    - intros navSuccess. destruct (negb navSuccess); [apply attempts_record|].
      apply attempts_bind; [apply keepsDisk_search|].
      intros searchReady.
      destruct (negb searchReady); [apply attempts_record | apply attempts_classify]. }
  specialize (Hrep st). specialize (Hatt st).
  match goal with |- context [match ?body st with _ => _ end] =>
    destruct (body st) as [[r0|e] st1] end.
  - intros E. injection E as <- <-. apply Hrep. reflexivity.
  - rewrite recordAndReturn_run. intros E. injection E as <- <-.
    split; [reflexivity|]. exists (Some e). cbn [withDisk disk status_of].
    rewrite Hatt. split; [reflexivity|]. split; [reflexivity | eauto].
Qed.

(** X17: [processISBN] never throws.  It answers a result for the
    identifier it was given and has recorded that result once: the first
    line of the queue is gone, the ledger of the status has the record after
    its old text, and no other file has changed.  The record of an ADDED,
    ALREADY_EXISTS or NOT_FOUND result is the identifier; that of an ERROR or
    UNKNOWN result is the identifier, the separator [ # ] and a message: for
    ERROR the message that the result carries, with "Unknown error" in its
    place when that message is empty, for UNKNOWN, which carries none, "Save
    button not found" or "No status message". *)
Theorem processISBN_always_records isbn skipNavigation (st : State W) :
  exists r st' message,
    processISBN B env isbn skipNavigation st = (Ok r, st') /\
    isbn_of r = isbn /\
    disk st' = recordResult isbn (status_of r) message (disk st) /\
    explains r message /\
    content (disk st') (ledgerFile (status_of r))
    = Some (readFileSync (ledgerFile (status_of r)) (disk st)
            ++ match status_of r with
               | ERROR | UNKNOWN => isbn ++ " # " ++ messageOrDefault message
               | _ => isbn
               end ++ nl) /\
    readLines QUEUE_FILE (disk st') = tl (readLines QUEUE_FILE (disk st)) /\
    (forall f, f <> QUEUE_FILE -> f <> ledgerFile (status_of r) ->
               content (disk st') f = content (disk st) f).
Proof.
  destruct (processISBN_records B env isbn skipNavigation st)
    as (r & st' & _ & Hrun & _).
  destruct (reports_processISBN isbn skipNavigation st r st' Hrun)
    as (Hisbn & message & Hd & He).
  exists r, st', message. split; [exact Hrun|]. split; [exact Hisbn|].
  split; [exact Hd|]. split; [exact He|]. rewrite Hd. split; [|split].
  - rewrite recordResult_ledger. f_equal. f_equal. f_equal.
    destruct (status_of r); cbn [ledgerMessage appended];
      try reflexivity; apply appended_error.
  - apply recordResult_queue.
  - intros f Hq Hl. apply recordResult_other; assumption.
Qed.

(** ** The loop over the queue *)

Lemma processQueue_spec fuel results (st : State W) :
  terminatedLedgers (disk st) ->
  List.length (readLines QUEUE_FILE (disk st)) <= fuel ->
  exists new st',
    processQueue B env fuel results st = (Ok (Some (results ++ new)%list), st') /\
    map isbn_of new = readLines QUEUE_FILE (disk st) /\
    readLines QUEUE_FILE (disk st') = [] /\
    terminatedLedgers (disk st') /\
    Forall (fun r => recorded (status_of r) (isbn_of r) (disk st') = true) new /\
    (forall s x, recorded s x (disk st) = true -> recorded s x (disk st') = true).
Proof.
  revert results st. induction fuel as [|fuel IH]; intros results st Hterm Hlen.
  - destruct (readLines QUEUE_FILE (disk st)) as [|isbn rest] eqn:Eq;
      [|cbn in Hlen; lia].
    exists [], st. cbn [processQueue]. rewrite Eq, app_nil_r.
    repeat split; auto.
  - cbn [processQueue].
    destruct (readLines QUEUE_FILE (disk st)) as [|isbn rest] eqn:Eq.
    + exists [], st. rewrite app_nil_r. repeat split; auto.
    + destruct (processISBN_records B env isbn true st)
        as (r & st1 & message & Hrun & Hd).
      pose proof (proj1 (reports_processISBN isbn true st r st1 Hrun)) as Hisbn.
      rewrite (bind_Ok _ _ st st1 r Hrun).
      assert (Hq1 : readLines QUEUE_FILE (disk st1) = rest).
      { rewrite Hd. apply (recordResult_dequeues isbn rest), Eq. }
      assert (Hterm1 : terminatedLedgers (disk st1)).
      { rewrite Hd. apply recordResult_terminatedLedgers, Hterm. }
      destruct (IH (results ++ [r])%list st1 Hterm1) as
        (new & st' & Hloop & Hmap & Hempty & Hterm' & Hrec & Hmono).
      { rewrite Hq1. cbn in Hlen. lia. }
      exists (r :: new), st'. split.
      { rewrite Hloop, <- app_assoc. reflexivity. }
      split; [cbn [map]; rewrite Hisbn, Hmap, Hq1; reflexivity|].
      split; [exact Hempty|]. split; [exact Hterm'|]. split.
      * constructor; [|exact Hrec]. apply Hmono. rewrite Hd, Hisbn.
        apply recorded_recordResult; [exact Hterm|].
        pose proof (readLines_clean QUEUE_FILE (disk st)) as Hc.
        rewrite Eq in Hc. inversion Hc; assumption.
      * intros s x Hx. apply Hmono. rewrite Hd.
        apply recorded_stays; assumption.
Qed.

(** X18: when the ledger files end with a line feed and the fuel covers
    the queue, the loop ends without throwing, with one result for every line
    of the queue in the order of the queue; the queue is empty afterwards,
    every result is found in the ledger of its status, and the entries that
    the ledgers had are still there. *)
Theorem processQueue_works_through_queue fuel (st : State W) :
  terminatedLedgers (disk st) ->
  List.length (readLines QUEUE_FILE (disk st)) <= fuel ->
  exists results st',
    processQueue B env fuel [] st = (Ok (Some results), st') /\
    map isbn_of results = readLines QUEUE_FILE (disk st) /\
    readLines QUEUE_FILE (disk st') = [] /\
    Forall (fun r => recorded (status_of r) (isbn_of r) (disk st') = true) results /\
    (forall s x, recorded s x (disk st) = true -> recorded s x (disk st') = true).
Proof.
  intros Hterm Hlen.
  destruct (processQueue_spec fuel [] st Hterm Hlen)
    as (new & st' & Hloop & Hmap & Hempty & _ & Hrec & Hmono).
  exists new, st'. cbn [app] in Hloop. repeat split; assumption.
Qed.

End Items.

(** ** Whole runs *)

Lemma initializeQueue_recorded inputIsbns d s x :
  recorded s x (snd (initializeQueue inputIsbns d)) = recorded s x d.
Proof.
  apply recorded_same_content. intros f Hf.
  apply initializeQueue_other_file, Hf.
Qed.

Section Runs.

Context {W : Type} (B : Browser W) (env : Env).

(** X19: a run on identifiers that all have an Added, AlreadyExists or
    NotFound entry, with nothing unprocessed left in the queue, returns at
    once: no file is written and the browser is not touched. *)
Theorem rerun_of_finished_batch isbns fuel d (w : W) :
  truthy (OLIVER_USERNAME env) = true ->
  truthy (OLIVER_PASSWORD env) = true ->
  isbns <> [] ->
  cleanedQueue d = [] ->
  Forall (fun isbn => Set_has (getProcessedIsbns d) isbn = true) isbns ->
  runOliverAutomation B env isbns fuel d w = (Returned, d, w, []).
Proof.
  intros Hu Hp Hne Hq Hdone.
  assert (Hinit : initializeQueue isbns d = ([], d)).
  { unfold initializeQueue. unfold cleanedQueue, unprocessed in Hq.
    rewrite Hq. cbn [List.length Nat.ltb Nat.leb].
    rewrite filter_none; [reflexivity|].
    intros x Hx. rewrite Forall_forall in Hdone. rewrite (Hdone x Hx). reflexivity. }
  unfold runOliverAutomation. rewrite Hu, Hp. cbn [negb orb].
  destruct isbns as [|x l]; [congruence|]. cbn [List.length Nat.eqb].
  rewrite Hinit. reflexivity.
Qed.

(** X20: when the first page opens, the first navigation answers [true]
    and the browser closes without error, the run returns after the queue has
    been worked through: the queue file reads as empty, every identifier that
    was in the queue has an entry in one of the ledgers, earlier entries are
    kept, and closing the browser is the last call. *)
Theorem run_completes isbns fuel d (w w1 : W) p st1 :
  truthy (OLIVER_USERNAME env) = true ->
  truthy (OLIVER_PASSWORD env) = true ->
  isbns <> [] ->
  fst (initializeQueue isbns d) <> [] ->
  terminatedLedgers d ->
  newPage B w = (Ok p, w1) ->
  navigateToSmartCataloguing B env
    (mkState p [p] (snd (initializeQueue isbns d)) w1 []) = (Ok true, st1) ->
  (forall w', fst (perform B browserClose w') = Ok tt) ->
  List.length (readLines QUEUE_FILE (snd (initializeQueue isbns d))) <= fuel ->
  exists d' w' made,
    runOliverAutomation B env isbns fuel d w
    = (Returned, d', w', (made ++ [browserClose])%list) /\
    readLines QUEUE_FILE d' = [] /\
    (forall x, In x (readLines QUEUE_FILE (snd (initializeQueue isbns d))) ->
               exists status, recorded status x d' = true) /\
    (forall s x, recorded s x d = true -> recorded s x d' = true).
Proof.
  intros Hu Hp Hne Hqne Hterm Hpage Hnav Hclose Hfuel.
  set (d1 := snd (initializeQueue isbns d)) in *.
  set (st := mkState p [p] d1 w1 []) in *.
  assert (Hd1 : disk st1 = d1).
  { pose proof (keepsDisk_navigate B env st) as H. rewrite Hnav in H. exact H. }
  assert (Hterm1 : terminatedLedgers (disk st1)).
  { rewrite Hd1. apply initializeQueue_terminatedLedgers, Hterm. }
  destruct (processQueue_spec B env fuel [] st1 Hterm1) as
    (new & st2 & Hloop & Hmap & Hempty & _ & Hrec & Hmono).
  { rewrite Hd1. exact Hfuel. }
  cbn [app] in Hloop.
  pose proof (act_calls B browserClose st2) as Hcalls.
  assert (Hdisk : disk (snd (act B browserClose st2)) = disk st2).
  { apply (bounded_act B noCall browserClose st2). }
  destruct (act B browserClose st2) as [r st3] eqn:Eact.
  assert (Hr : r = Ok tt).
  { unfold act in Eact. specialize (Hclose (world st2)).
    destruct (perform B browserClose (world st2)) as [r' w'].
    injection Eact as <- _. exact Hclose. }
  subst r. cbn [snd] in Hcalls, Hdisk.
  exists (disk st3), (world st3), (calls st2). split; [|split; [|split]].
  - unfold runOliverAutomation. rewrite Hu, Hp. cbn [negb orb].
    destruct isbns as [|x0 l0]; [congruence|]. cbn [List.length Nat.eqb].
    destruct (initializeQueue (x0 :: l0) d) as [queue dq] eqn:Einit.
    cbn [fst snd] in *. destruct queue as [|q0 queue]; [congruence|].
    cbn [List.length Nat.eqb]. rewrite Hpage. fold d1 st.
    rewrite (bind_Ok _ _ st st1 true Hnav). cbn [negb].
    rewrite (bind_Ok _ _ st1 st2 (Some new) Hloop).
    rewrite (bind_Ok _ _ st2 st3 tt Eact). cbn [ret]. rewrite Hcalls. reflexivity.
  - rewrite Hdisk. exact Hempty.
  - intros x Hx. rewrite <- Hd1, <- Hmap in Hx.
    apply in_map_iff in Hx. destruct Hx as (r & <- & Hin).
    exists (status_of r). rewrite Hdisk.
    rewrite Forall_forall in Hrec. apply Hrec, Hin.
  - intros s x Hx. rewrite Hdisk. apply Hmono. rewrite Hd1.
    unfold d1. rewrite initializeQueue_recorded. exact Hx.
Qed.

(** X21: when the first navigation of a run does not answer [true], the
    disk stays as [initializeQueue] left it: no identifier is taken from the
    queue and no result is recorded. *)
Theorem failed_start_keeps_queue isbns fuel d (w : W) :
  truthy (OLIVER_USERNAME env) = true ->
  truthy (OLIVER_PASSWORD env) = true ->
  isbns <> [] ->
  (forall p w1,
     newPage B w = (Ok p, w1) ->
     fst (navigateToSmartCataloguing B env
            (mkState p [p] (snd (initializeQueue isbns d)) w1 [])) <> Ok true) ->
  snd (fst (fst (runOliverAutomation B env isbns fuel d w)))
  = snd (initializeQueue isbns d).
Proof.
  intros Hu Hp Hne Hnav.
  unfold runOliverAutomation. rewrite Hu, Hp. cbn [negb orb].
  destruct isbns as [|x0 l0]; [congruence|]. cbn [List.length Nat.eqb].
  destruct (initializeQueue (x0 :: l0) d) as [queue d1]. cbn [fst snd] in *.
  destruct (List.length queue =? 0)%nat; [reflexivity|].
  destruct (newPage B w) as [[p|e] w1]; [|reflexivity].
  specialize (Hnav p w1 eq_refl).
  set (st := mkState p [p] d1 w1 []) in *.
  pose proof (keepsDisk_navigate B env st) as Hkeep.
  change (disk st) with d1 in Hkeep.
  unfold bind at 1.
  destruct (navigateToSmartCataloguing B env st) as [[ready|e] st1];
    cbn [fst snd] in Hnav, Hkeep.
  - destruct ready; [congruence|]. cbn [negb ret fst snd]. exact Hkeep.
  - pose proof (bounded_act B noCall browserClose st1) as [Hd _].
    destruct (act B browserClose st1) as [[[]|e'] st2]; cbn [fst snd] in Hd |- *;
      congruence.
Qed.

End Runs.

(** ** Dialog handlers *)

Section Handlers.

Context {W : Type} (B : Browser W) (env : Env).

Lemma keepsHandlers_sameTab {A} (m : M W A) : sameTab m -> keepsHandlers m.
Proof.
  intros H st [Hnd Hin]. destruct (H st) as [Hp Hh]. unfold handled.
  rewrite Hp, Hh. repeat split; try assumption. apply incl_refl.
Qed.

Lemma keepsHandlers_bind {A C} (m : M W A) (k : A -> M W C) :
  keepsHandlers m -> (forall a, keepsHandlers (k a)) ->
  keepsHandlers (x <- m ;; k x).
Proof.
  intros Hm Hk st Hst. destruct (Hm st Hst) as [H1 I1]. unfold bind.
  destruct (m st) as [[a|e] st1]; cbn [snd] in H1, I1 |- *.
  - destruct (Hk a st1 H1) as [H2 I2]. split; [exact H2|].
    eapply incl_tran; eassumption.
  - split; assumption.
Qed.

Lemma keepsHandlers_try_catch {A} (m : M W A) (h : string -> M W A) :
  keepsHandlers m -> (forall e, keepsHandlers (h e)) ->
  keepsHandlers (try_catch m h).
Proof.
  intros Hm Hh st Hst. destruct (Hm st Hst) as [H1 I1]. unfold try_catch.
  destruct (m st) as [[a|e] st1]; cbn [snd] in H1, I1 |- *.
  - split; assumption.
  - destruct (Hh e st1 H1) as [H2 I2]. split; [exact H2|].
    eapply incl_tran; eassumption.
Qed.

Lemma keepsHandlers_ret {A} (a : A) : keepsHandlers (@ret W A a).
Proof. apply keepsHandlers_sameTab. intros st. split; reflexivity. Qed.

Lemma keepsHandlers_throw {A} e : keepsHandlers (@throw W A e).
Proof. apply keepsHandlers_sameTab. intros st. split; reflexivity. Qed.

Lemma keepsHandlers_orElse {A} (m : M W A) (a : A) :
  keepsHandlers m -> keepsHandlers (orElse m a).
Proof.
  intros H. apply keepsHandlers_try_catch; [exact H|].
  intros _. apply keepsHandlers_ret.
Qed.

Lemma keepsHandlers_act a : keepsHandlers (act B a).
Proof.
  apply keepsHandlers_sameTab. intros st. unfold act.
  destruct (perform B a (world st)). split; reflexivity.
Qed.

Lemma keepsHandlers_ask {A} (q : W -> result A * W) : keepsHandlers (ask q).
Proof.
  apply keepsHandlers_sameTab. intros st. unfold ask.
  destruct (q (world st)). split; reflexivity.
Qed.

Lemma keepsHandlers_getPage : keepsHandlers (@getPage W).
Proof. apply keepsHandlers_sameTab. intros st. split; reflexivity. Qed.

Lemma keepsHandlers_pageUrl : keepsHandlers (pageUrl B).
Proof. apply keepsHandlers_sameTab. intros st. split; reflexivity. Qed.

Lemma keepsHandlers_onDisk f : keepsHandlers (@onDisk W f).
Proof. apply keepsHandlers_sameTab. intros st. split; reflexivity. Qed.

Lemma keepsHandlers_register p : keepsHandlers (@registerPageEventHandlers W p).
Proof.
  intros st [Hnd Hin]. unfold registerPageEventHandlers.
  destruct (existsb (Nat.eqb p) (pagesWithHandlers st)) eqn:E; cbn [snd].
  - split; [split; assumption | apply incl_refl].
  - split; [split|]; cbn [pagesWithHandlers page].
    + constructor; [|exact Hnd]. intros Hp.
      apply not_true_iff_false in E. apply E, existsb_exists.
      exists p. split; [exact Hp | apply Nat.eqb_refl].
    + right. exact Hin.
    + apply incl_tl, incl_refl.
Qed.

(** A new page becomes the current one and gets the handler. *)
Lemma keepsHandlers_adopt {A} np (k : M W A) :
  keepsHandlers k ->
  keepsHandlers (setPage np ;; registerPageEventHandlers np ;; k).
Proof.
  intros Hk st [Hnd Hin].
  assert (Hrun : exists st1,
            (setPage np ;; registerPageEventHandlers np ;; k) st = k st1 /\
            handled st1 /\ incl (pagesWithHandlers st) (pagesWithHandlers st1)).
  { unfold bind, setPage, registerPageEventHandlers. cbn [pagesWithHandlers].
    destruct (existsb (Nat.eqb np) (pagesWithHandlers st)) eqn:E.
    - eexists. split; [reflexivity|].
      split; [split; cbn [pagesWithHandlers page]; [exact Hnd|] | apply incl_refl].
      apply existsb_exists in E. destruct E as (q & Hq & Eq).
      apply Nat.eqb_eq in Eq. subst q. exact Hq.
    - eexists. split; [reflexivity|].
      split; [split; cbn [pagesWithHandlers page]|].
      + constructor; [|exact Hnd]. intros Hp.
        apply not_true_iff_false in E. apply E, existsb_exists.
        exists np. split; [exact Hp | apply Nat.eqb_refl].
      + left. reflexivity.
      + apply incl_tl, incl_refl. }
  destruct Hrun as (st1 & -> & H1 & I1).
  destruct (Hk st1 H1) as [H2 I2]. split; [exact H2|].
  eapply incl_tran; eassumption.
Qed.

Lemma keepsHandlers_adopt_last np :
  keepsHandlers (W := W) (setPage np ;; registerPageEventHandlers np).
Proof.
  intros st Hst.
  destruct (keepsHandlers_adopt np (ret tt) (keepsHandlers_ret tt) st Hst)
    as [H I].
  assert (E : snd ((setPage np ;; registerPageEventHandlers np) st)
              = snd ((setPage np ;; registerPageEventHandlers np ;; ret tt) st)).
  { unfold bind, setPage, registerPageEventHandlers, ret. cbn [pagesWithHandlers].
    destruct (existsb _ _); reflexivity. }
  rewrite E. split; assumption.
Qed.

Lemma keepsHandlers_ensurePage : keepsHandlers (ensurePage B).
Proof.
  intros st Hst. unfold ensurePage.
  destruct (isClosed B (page st) (world st)).
  - revert st Hst.
    change (keepsHandlers
      (np <- ask (newPage B) ;;
       setPage np ;; registerPageEventHandlers np ;; ret np)).
    apply keepsHandlers_bind; [apply keepsHandlers_ask | intros np].
    apply keepsHandlers_adopt, keepsHandlers_ret.
  - split; [exact Hst | apply incl_refl].
Qed.

Create HintDb handlers.

Ltac kh_leaf :=
  first
    [ apply keepsHandlers_ret | apply keepsHandlers_throw
    | apply keepsHandlers_act | apply keepsHandlers_ask
    | apply keepsHandlers_getPage | apply keepsHandlers_pageUrl
    | apply keepsHandlers_onDisk | apply keepsHandlers_register
    | apply keepsHandlers_ensurePage
    | assumption
    | solve [auto with handlers] ].

Ltac kh :=
  lazymatch goal with
  | |- keepsHandlers (bind (setPage ?p)
                        (fun _ => bind (registerPageEventHandlers ?p) _)) =>
      apply keepsHandlers_adopt; kh
  | |- keepsHandlers (bind (setPage ?p)
                        (fun _ => registerPageEventHandlers ?p)) =>
      apply keepsHandlers_adopt_last
  | |- keepsHandlers (bind _ _) => apply keepsHandlers_bind; [kh | intro; kh]
  | |- keepsHandlers (try_catch _ _) =>
      apply keepsHandlers_try_catch; [kh | intro; kh]
  | |- keepsHandlers (orElse _ _) => apply keepsHandlers_orElse; kh
  | |- keepsHandlers (if ?b then _ else _) => destruct b; kh
  | |- keepsHandlers (match ?x with _ => _ end) => destruct x; kh
  | |- keepsHandlers _ => first [ kh_leaf | idtac ]
  end.

Lemma keepsHandlers_onPage (a : Page -> Action) : keepsHandlers (onPage B a).
Proof. unfold onPage. kh. Qed.

Lemma keepsHandlers_waitFor x : keepsHandlers (waitFor B x).
Proof. unfold waitFor. kh. Qed.

Lemma keepsHandlers_visible selector : keepsHandlers (visible B selector).
Proof. unfold visible. kh. Qed.

Lemma keepsHandlers_query selector : keepsHandlers (query B selector).
Proof. unfold query. kh. Qed.

#[local] Hint Resolve keepsHandlers_onPage keepsHandlers_waitFor
  keepsHandlers_visible keepsHandlers_query : handlers.

Lemma keepsHandlers_pause ms : keepsHandlers (pause B ms).
Proof. apply keepsHandlers_waitFor. Qed.

Lemma keepsHandlers_appears selector t : keepsHandlers (appears B selector t).
Proof. unfold appears. kh. Qed.

Lemma keepsHandlers_gotoAndWait address : keepsHandlers (gotoAndWait B address).
Proof. unfold gotoAndWait. kh; apply keepsHandlers_pause. Qed.

Lemma keepsHandlers_loginLinkVisible : keepsHandlers (loginLinkVisible B).
Proof. unfold loginLinkVisible. kh. Qed.

#[local] Hint Resolve keepsHandlers_pause keepsHandlers_appears
  keepsHandlers_gotoAndWait keepsHandlers_loginLinkVisible : handlers.

Lemma keepsHandlers_loginDialog n : keepsHandlers (loginDialog B env n).
Proof. induction n as [|n IH]; cbn [loginDialog]; kh. Qed.

#[local] Hint Resolve keepsHandlers_loginDialog : handlers.

Lemma keepsHandlers_loginThroughPopup : keepsHandlers (loginThroughPopup B env).
Proof. unfold loginThroughPopup. kh. Qed.

Lemma keepsHandlers_clickCataloguingMenu n :
  keepsHandlers (clickCataloguingMenu B n).
Proof. induction n as [|n IH]; cbn [clickCataloguingMenu]; kh. Qed.

Lemma keepsHandlers_firstVisible items : keepsHandlers (firstVisible B items).
Proof. induction items as [|item rest IH]; cbn [firstVisible]; kh. Qed.

#[local] Hint Resolve keepsHandlers_loginThroughPopup
  keepsHandlers_clickCataloguingMenu keepsHandlers_firstVisible : handlers.

Lemma keepsHandlers_clickVisibleMenuItem : keepsHandlers (clickVisibleMenuItem B).
Proof. unfold clickVisibleMenuItem, all. kh. Qed.

Lemma keepsHandlers_dismissModal t s : keepsHandlers (dismissModal B t s).
Proof. unfold dismissModal. kh. Qed.

#[local] Hint Resolve keepsHandlers_clickVisibleMenuItem
  keepsHandlers_dismissModal : handlers.

Lemma keepsHandlers_menuAttempt retry :
  keepsHandlers retry -> keepsHandlers (menuAttempt B env retry).
Proof.
  intros Hr. unfold menuAttempt, menuOpen, menuLanding, awaitPopup. kh.
Qed.

Lemma keepsHandlers_attemptMenuSmartCatalog attempt :
  keepsHandlers (attemptMenuSmartCatalog B env attempt).
Proof.
  remember (4 - attempt) as k eqn:Hk. revert attempt Hk.
  induction k as [|k IH]; intros attempt Hk;
    rewrite attemptMenuSmartCatalog_step.
  - replace (3 <? attempt)%nat with true by (symmetry; apply Nat.ltb_lt; lia).
    apply keepsHandlers_ret.
  - replace (3 <? attempt)%nat with false by (symmetry; apply Nat.ltb_ge; lia).
    apply keepsHandlers_menuAttempt. apply IH. lia.
Qed.

Lemma keepsHandlers_navigate : keepsHandlers (navigateToSmartCataloguing B env).
Proof. apply (keepsHandlers_attemptMenuSmartCatalog 1). Qed.

#[local] Hint Resolve keepsHandlers_navigate : handlers.

Lemma keepsHandlers_searchAttempt isbn attempt retry :
  keepsHandlers retry -> keepsHandlers (searchAttempt B env isbn attempt retry).
Proof.
  intros Hr. unfold searchAttempt, submitAndProbe. kh.
Qed.

Lemma keepsHandlers_search isbn attempt :
  keepsHandlers (searchSmartCataloguing B env isbn attempt).
Proof.
  remember (4 - attempt) as k eqn:Hk. revert attempt Hk.
  induction k as [|k IH]; intros attempt Hk;
    rewrite searchSmartCataloguing_step.
  - replace (3 <? attempt)%nat with true by (symmetry; apply Nat.ltb_lt; lia).
    apply keepsHandlers_ret.
  - replace (3 <? attempt)%nat with false by (symmetry; apply Nat.ltb_ge; lia).
    apply keepsHandlers_searchAttempt. apply IH. lia.
Qed.

#[local] Hint Resolve keepsHandlers_search : handlers.

Lemma keepsHandlers_processISBN isbn skipNavigation :
  keepsHandlers (processISBN B env isbn skipNavigation).
Proof.
  unfold processISBN, classify, readStatusText, recordAndReturn. kh.
Qed.

(** X22: when no page has the dialog handler twice and the current page
    has it, the same holds after [processISBN], also if the work moved to a
    page that a click opened, and no page has lost its handler. *)
Theorem pages_keep_their_handlers isbn skipNavigation (st : State W) :
  NoDup (pagesWithHandlers st) ->
  In (page st) (pagesWithHandlers st) ->
  let st' := snd (processISBN B env isbn skipNavigation st) in
  NoDup (pagesWithHandlers st') /\
  In (page st') (pagesWithHandlers st') /\
  incl (pagesWithHandlers st) (pagesWithHandlers st').
Proof.
  intros Hnd Hin st'.
  destruct (keepsHandlers_processISBN isbn skipNavigation st (conj Hnd Hin))
    as [[Hnd' Hin'] Hincl].
  repeat split; assumption.
Qed.

End Handlers.

(** ** Loading a page *)

Section Loading.

Context {W : Type} (B : Browser W).

Lemma pause_tab ms (st : State W) :
  calls (snd (pause B ms st)) = calls st /\
  disk (snd (pause B ms st)) = disk st /\
  page (snd (pause B ms st)) = page st.
Proof.
  unfold pause, waitFor, bind, getPage, ask.
  destruct (wait B (page st) (waitForTimeout ms) (world st)) as [[u|e] w];
    repeat split.
Qed.

(** X23: for each of the three addresses that the script loads,
    [gotoAndWait] makes one call, the load of the address on the current
    page, and changes neither the disk nor the current page.  When the load
    throws, [gotoAndWait] succeeds only if the message has [ERR_ABORTED] in it
    and the address of the page has the path of the target in it; in every
    other case it throws the same message. *)
Theorem gotoAndWait_one_navigation (address : Address) (st : State W) :
  let loaded := act B (goto (page st) (href address)) st in
  let st' := snd (gotoAndWait B address st) in
  calls st' = (calls st ++ [goto (page st) (href address)])%list /\
  disk st' = disk st /\
  page st' = page st /\
  (forall message,
     fst loaded = Throw message ->
     (exists u, fst (gotoAndWait B address st) = Ok u) ->
     Js.includes message "ERR_ABORTED" = true /\
     Js.includes (url B (page st) (world (snd loaded))) (pathname address) = true) /\
  (forall message,
     fst loaded = Throw message ->
     Js.includes message "ERR_ABORTED"
     && Js.includes (url B (page st) (world (snd loaded))) (pathname address) = false ->
     fst (gotoAndWait B address st) = Throw message).
Proof.
  intros loaded st'. subst loaded st'.
  unfold gotoAndWait, onPage.
  unfold bind at 1 3 5 7 9 11 13. unfold try_catch, bind, getPage.
  pose proof (act_calls B (goto (page st) (href address)) st) as Hcalls.
  pose proof (bounded_act B noCall (goto (page st) (href address)) st) as [Hdisk _].
  assert (Hpage : page (snd (act B (goto (page st) (href address)) st)) = page st).
  { unfold act. destruct (perform B _ _). reflexivity. }
  destruct (act B (goto (page st) (href address)) st) as [[u|message] st1];
    cbn [fst snd ret] in *.
  - destruct (pause_tab 500%N st1) as (C & D & G).
    split; [congruence|]. split; [congruence|]. split; [congruence|].
    split; intros m E; discriminate E.
  - unfold pageUrl. cbn [fst snd].
    destruct (Js.includes message "ERR_ABORTED") eqn:Ea; cbn [andb].
    + rewrite Hpage.
      destruct (Js.includes (url B (page st) (world st1)) (pathname address))
        eqn:Eu.
      * destruct (pause_tab 500%N st1) as (C & D & G).
        unfold bind, ret.
        destruct (pause B 500%N st1) as [[v|e] st2]; cbn [fst snd] in *.
        -- split; [congruence|]. split; [congruence|]. split; [congruence|].
           split; [intros m E _; injection E as <-; split; [exact Ea | reflexivity]|].
           intros m E H. injection E as <-. rewrite Ea in H. discriminate H.
        -- split; [congruence|]. split; [congruence|]. split; [congruence|].
           split; [intros m _ [v E]; discriminate E|].
           intros m E H. injection E as <-. rewrite Ea in H. discriminate H.
      * unfold throw. cbn [fst snd].
        split; [exact Hcalls|]. split; [exact Hdisk|]. split; [exact Hpage|].
        split; [intros m _ [v E]; discriminate E|].
        intros m E _. exact E.
    + unfold throw. cbn [fst snd].
      split; [exact Hcalls|]. split; [exact Hdisk|]. split; [exact Hpage|].
      split; [intros m _ [v E]; discriminate E|].
      intros m E _. exact E.
Qed.

End Loading.

(** ** Scenarios of whole runs *)

(** A site that has no record of any book. *)
Lemma processQueue_works_through_queue_witness :
  let st := atSearchPage ["9780545139700"; "000"]
              (freshSite "No matching resource found" None) in
  readLines QUEUE_FILE (disk st) = ["9780545139700"; "000"] /\
  exists results st',
    processQueue site credentials 2 [] st = (Ok (Some results), st') /\
    map isbn_of results = readLines QUEUE_FILE (disk st) /\
    readLines QUEUE_FILE (disk st') = [] /\
    Forall (fun r => recorded (status_of r) (isbn_of r) (disk st') = true) results /\
    (forall s x, recorded s x (disk st) = true -> recorded s x (disk st') = true).
Proof.
  intros st. split; [vm_compute; reflexivity|].
  apply (processQueue_works_through_queue site credentials 2 st).
  - intros status. destruct status; vm_compute; reflexivity.
  - vm_compute. lia.
Defined.

Lemma rerun_of_finished_batch_witness :
  let d := snd (fst (fst (runOliverAutomation site credentials ["000"] 1 emptyDisk
                            (freshSite "No matching resource found" None)))) in
  readLines NOT_FOUND_FILE d = ["000"] /\
  runOliverAutomation site credentials ["000"] 1 d deadSite
  = (Returned, d, deadSite, []).
Proof.
  intros d. split; [vm_compute; reflexivity|].
  apply (rerun_of_finished_batch site credentials ["000"] 1 d deadSite).
  - reflexivity.
  - reflexivity.
  - discriminate.
  - vm_compute. reflexivity.
  - repeat constructor.
Defined.

Lemma run_completes_witness :
  let w := freshSite "Found matching resource(s)" (Some false) in
  let isbns := ["9780545139700"] in
  exists d' w' made,
    runOliverAutomation site credentials isbns 1 emptyDisk w
    = (Returned, d', w', (made ++ [browserClose])%list) /\
    readLines QUEUE_FILE d' = [] /\
    (forall x, In x (readLines QUEUE_FILE (snd (initializeQueue isbns emptyDisk))) ->
               exists status, recorded status x d' = true) /\
    (forall s x, recorded s x emptyDisk = true -> recorded s x d' = true).
Proof.
  intros w isbns.
  apply (run_completes site credentials isbns 1 emptyDisk w w 0
           (atSearchPage isbns w)).
  - reflexivity.
  - reflexivity.
  - discriminate.
  - discriminate.
  - intros status. reflexivity.
  - reflexivity.
  - vm_compute. reflexivity.
  - intros w'. reflexivity.
  - vm_compute. lia.
Defined.

Lemma failed_start_keeps_queue_witness :
  snd (fst (fst (runOliverAutomation site credentials ["000"] 1 emptyDisk deadSite)))
  = snd (initializeQueue ["000"] emptyDisk).
Proof.
  apply (failed_start_keeps_queue site credentials ["000"] 1 emptyDisk deadSite).
  - reflexivity.
  - reflexivity.
  - discriminate.
  - intros p w1 E. injection E as <- <-. vm_compute. discriminate.
Defined.

Lemma pages_keep_their_handlers_witness :
  let st := atSearchPage ["000"] (freshSite "No matching resource found" None) in
  let st' := snd (processISBN site credentials "000" true st) in
  NoDup (pagesWithHandlers st') /\
  In (page st') (pagesWithHandlers st') /\
  incl (pagesWithHandlers st) (pagesWithHandlers st').
Proof.
  intros st.
  apply (pages_keep_their_handlers site credentials "000" true st).
  - vm_compute. repeat constructor. intros [].
  - vm_compute. left. reflexivity.
Defined.
